(** * A shallow embedding of the streaming HTTP request parser (stla_http.c)

    The development follows the C source: byte strings are lists of
    8-bit characters, C integers are [Z] with their wrap-around written
    out, the parser state is the C bit set, and the callbacks of the
    parser group are recorded, in order, in a trace. *)

From Stdlib Require Import List Ascii String ZArith Lia Bool Arith.
Import ListNotations.

Set Implicit Arguments.
Local Open Scope Z_scope.

(** ** Bytes and C strings *)

Definition bytes := list ascii.

Definition s2b (s : string) : bytes := list_ascii_of_string s.

Definition NUL : ascii := "000"%char.
Definition TAB : ascii := "009"%char.
Definition LF : ascii := "010"%char.
Definition CR : ascii := "013"%char.
Definition SP : ascii := " "%char.

Definition crlf : bytes := [CR; LF].
Definition crlfcrlf : bytes := [CR; LF; CR; LF].

Definition zlen (s : bytes) : Z := Z.of_nat (List.length s).

Definition code (c : ascii) : nat := nat_of_ascii c.

Definition is_nul (c : ascii) : bool := Ascii.eqb c NUL.

(** The C string stored at the head of a byte sequence: everything
    before the first NUL. *)
Fixpoint cstr (s : bytes) : bytes :=
  match s with
  | [] => []
  | c :: r => if is_nul c then [] else c :: cstr r
  end.

(** <ctype.h> in the C locale. *)
Definition white_space (c : ascii) : bool :=
  Ascii.eqb c SP || Ascii.eqb c TAB.

Definition isspace (c : ascii) : bool :=
  Ascii.eqb c SP || ((9 <=? code c)%nat && (code c <=? 13)%nat).

Definition isdigit (c : ascii) : bool :=
  (48 <=? code c)%nat && (code c <=? 57)%nat.

Definition isxdigit (c : ascii) : bool :=
  isdigit c
  || ((65 <=? code c)%nat && (code c <=? 70)%nat)
  || ((97 <=? code c)%nat && (code c <=? 102)%nat).

Definition tolower (c : ascii) : ascii :=
  if ((65 <=? code c)%nat && (code c <=? 90)%nat)
  then ascii_of_nat (code c + 32)%nat else c.

(** [strcasecmp a b == 0] on C strings. *)
Fixpoint strcaseeq (a b : bytes) : bool :=
  match a, b with
  | [], [] => true
  | x :: a', y :: b' => Ascii.eqb (tolower x) (tolower y) && strcaseeq a' b'
  | _, _ => false
  end.

(** [strncasecmp h field n == 0] where [n = strlen field]: the first
    [n] characters of [h] match [field] without regard to case. *)
Fixpoint strncaseeq (h field : bytes) : bool :=
  match field, h with
  | [], _ => true
  | y :: f', x :: h' => Ascii.eqb (tolower x) (tolower y) && strncaseeq h' f'
  | _ :: _, [] => false
  end.

(** [memmem]: offset of the earliest occurrence of [needle]. *)
Fixpoint is_prefix (needle hay : bytes) : bool :=
  match needle, hay with
  | [], _ => true
  | x :: n', y :: h' => Ascii.eqb x y && is_prefix n' h'
  | _ :: _, [] => false
  end.

Fixpoint memmem (hay needle : bytes) : option nat :=
  if is_prefix needle hay then Some 0%nat
  else match hay with
       | [] => None
       | _ :: h' => option_map S (memmem h' needle)
       end.

(** ** sscanf with an unsigned decimal conversion

    [sscanf(value, "%llu", &res)] and [sscanf(buf, "%zu", &n)] on a
    64-bit target: white space is skipped, a sign is accepted, then the
    longest run of decimal digits is converted.  Without a digit no
    conversion happens and the call does not return 1.  A value that
    does not fit saturates, a minus sign negates modulo 2^64 (the
    strtoull conversion the C library performs). *)

Definition UINT64_MAX : Z := 2 ^ 64 - 1.

Definition digit_val (c : ascii) : Z := Z.of_nat (code c) - 48.

Fixpoint scan_digits (s : bytes) (acc : Z) : Z :=
  match s with
  | [] => acc
  | c :: r => if isdigit c then scan_digits r (10 * acc + digit_val c) else acc
  end.

Fixpoint skip_space (s : bytes) : bytes :=
  match s with
  | c :: r => if isspace c then skip_space r else s
  | [] => []
  end.

Definition starts_with_digit (s : bytes) : bool :=
  match s with
  | c :: _ => isdigit c
  | [] => false
  end.

Definition convert_unsigned (neg : bool) (s : bytes) : option Z :=
  if starts_with_digit s then
    let v := scan_digits s 0 in
    Some (if UINT64_MAX <? v then UINT64_MAX
          else if neg then (2 ^ 64 - v) mod 2 ^ 64 else v)
  else None.

Definition sscanf_unsigned (s : bytes) : option Z :=
  match skip_space s with
  | c :: r =>
      if Ascii.eqb c "-"%char then convert_unsigned true r
      else if Ascii.eqb c "+"%char then convert_unsigned false r
      else convert_unsigned false (c :: r)
  | [] => None
  end.

(** stla_conv.c *)
Definition stla_uint64_t (value : option bytes) (default_value : Z) : Z :=
  match value with
  | None => default_value
  | Some v =>
      match sscanf_unsigned v with
      | Some res => res
      | None => default_value
      end
  end.

(** ** The asynchronous byte reader *)

(** Modelled from the spec: stla_async_buffer.c is not among the
    sources.  The reader keeps the unread bytes, at most one pending
    pull ("N more bytes" or "up to the next occurrence of a
    delimiter"), and the view of the slice that satisfied the last
    pull.  The only continuation the parser ever registers is
    [on_data], so the pull records its kind and not the function
    pointer.

    The view of a pull by delimiter is the bytes before the delimiter;
    the delimiter is consumed with them and is not part of the view.
    The spec words it the other way (the delimiter at the tail of the
    view), but [on_data] is written against a view without it: its
    footers loop ends the request on a view of length 0, which is the
    empty line, and the loop that stores the header lines provides for
    a last line that no CRLF ends.  The scenarios of the spec (the
    chunked POST that ends in [on_request_end]) hold for this reading
    only, so the code decides.

    [unread] is what lies behind the slice last handed out: a pull
    registered from within the continuation counts from the end of
    the current view, whose bytes stay available in [data] until the
    next view replaces them. *)
Inductive pull : Type :=
| need_bytes (n : Z)
| need_string (delim : bytes).

Record stla_async_buffer_s : Type := mk_async {
  unread : bytes;
  pending : option pull;
  data : bytes
}.

Definition stla_async_buffer_init : stla_async_buffer_s :=
  mk_async [] None [].

Definition stla_async_buffer_clear (h : stla_async_buffer_s)
  : stla_async_buffer_s :=
  mk_async [] None [].

Definition stla_async_buffer_data (h : stla_async_buffer_s) : bytes :=
  data h.

Definition stla_async_buffer_data_length (h : stla_async_buffer_s) : Z :=
  zlen (data h).

(** The slice that satisfies a pull on the unread bytes [u], with the
    bytes that stay unread: exactly [n] bytes, or everything before
    the earliest occurrence of the delimiter, the delimiter being
    consumed too. *)
Definition satisfy (q : pull) (u : bytes) : option (bytes * bytes) :=
  match q with
  | need_bytes n =>
      if n <=? zlen u
      then Some (firstn (Z.to_nat n) u, skipn (Z.to_nat n) u)
      else None
  | need_string d =>
      match memmem u d with
      | Some k => Some (firstn k u, skipn (k + List.length d) u)
      | None => None
      end
  end.

(** Registering a pull: [true] with the view in place when the unread
    bytes already satisfy it, [false] with the pull left pending.
    After [true] the caller goes on with the new view itself, which is
    how [on_data] uses the result (it re-reads [data] and
    [data_length] and falls through to the next test of the state);
    the reader does not call [on_data] in that case. *)
Definition advance (h : stla_async_buffer_s) (q : pull)
  : bool * stla_async_buffer_s :=
  match satisfy q (unread h) with
  | Some (v, rest) => (true, mk_async rest None v)
  | None => (false, mk_async (unread h) (Some q) (data h))
  end.

Definition stla_async_buffer_advance_bytes (h : stla_async_buffer_s) (n : Z) :=
  advance h (need_bytes n).

Definition stla_async_buffer_advance_to_string (h : stla_async_buffer_s)
  (s : bytes) :=
  advance h (need_string s).

(** Appending the producer's bytes at the write cursor. *)
Definition append_bytes (h : stla_async_buffer_s) (d : bytes)
  : stla_async_buffer_s :=
  mk_async (unread h ++ d) (pending h) (data h).

(** ** The parser record *)

(** Callbacks of the group, as they are invoked. *)
Inductive event : Type :=
| on_headers
| on_body_chunk (body : bytes) (body_length : Z)
| on_request_end (body : option bytes) (body_length : Z)
| on_parsing_error.

Definition http_state_reading_headers : Z := Z.shiftl 1 1.
Definition http_state_reading_whole_body : Z := Z.shiftl 1 2.
Definition http_state_reading_chunk_size : Z := Z.shiftl 1 3.
Definition http_state_reading_chunk_data : Z := Z.shiftl 1 4.
Definition http_state_reading_footers : Z := Z.shiftl 1 5.
Definition http_state_read_complete : Z := Z.shiftl 1 6.

Definition max_parser_group : Z := 256.

(** [struct stla_http_s].  Pointers to strings are [option]s ([None] is
    NULL); [headers] carries [num_headers] as its length; the free-list
    link [next] is the list structure of the group's pool; the group
    back pointer is passed explicitly.  [arg], [session_start] and the
    two lazy CGI decoders are not read by the functions below and are
    left out.  [trace] is the record of the callbacks invoked on this
    parser, oldest first. *)
Record stla_http_s : Type := mk_http {
  async_buffer : stla_async_buffer_s;
  uri : option bytes;
  method : option bytes;
  protocol : option bytes;
  post_data : option bytes;
  post_size : Z;
  headers : list bytes;
  state : Z;
  pool_member : Z;
  chunk_body_cache : option bytes;
  trace : list event
}.

Definition set_async (p : stla_http_s) (h : stla_async_buffer_s) :=
  mk_http h (uri p) (method p) (protocol p) (post_data p) (post_size p)
          (headers p) (state p) (pool_member p) (chunk_body_cache p) (trace p).

Definition set_state (p : stla_http_s) (s : Z) :=
  mk_http (async_buffer p) (uri p) (method p) (protocol p) (post_data p)
          (post_size p) (headers p) s (pool_member p) (chunk_body_cache p)
          (trace p).

Definition set_post (p : stla_http_s) (d : option bytes) (n : Z) :=
  mk_http (async_buffer p) (uri p) (method p) (protocol p) d n
          (headers p) (state p) (pool_member p) (chunk_body_cache p) (trace p).

Definition set_headers (p : stla_http_s) (hs : list bytes) :=
  mk_http (async_buffer p) (uri p) (method p) (protocol p) (post_data p)
          (post_size p) hs (state p) (pool_member p) (chunk_body_cache p)
          (trace p).

Definition set_request (p : stla_http_s) (m u pr : option bytes) :=
  mk_http (async_buffer p) u m pr (post_data p) (post_size p)
          (headers p) (state p) (pool_member p) (chunk_body_cache p) (trace p).

Definition set_cache (p : stla_http_s) (c : option bytes) :=
  mk_http (async_buffer p) (uri p) (method p) (protocol p) (post_data p)
          (post_size p) (headers p) (state p) (pool_member p) c (trace p).

(** Invoking a callback of the group on the parser. *)
Definition emit (p : stla_http_s) (e : event) :=
  mk_http (async_buffer p) (uri p) (method p) (protocol p) (post_data p)
          (post_size p) (headers p) (state p) (pool_member p)
          (chunk_body_cache p) (trace p ++ [e]).

Definition has_state (p : stla_http_s) (bit : Z) : bool :=
  negb (Z.land (state p) bit =? 0).

(** ** Header lookup *)

Fixpoint skip_sp (s : bytes) : bytes :=
  match s with
  | c :: r => if Ascii.eqb c SP then skip_sp r else s
  | [] => []
  end.

(** The body of the loop of [get_header_param] on one stored line. *)
Definition header_value (h field : bytes) : option bytes :=
  if strncaseeq h field then
    match skip_sp (skipn (List.length field) h) with
    | c :: r =>
        if Ascii.eqb c ":"%char then
          match skip_sp r with
          | [] => None
          | v => Some v
          end
        else None
    | [] => None
    end
  else None.

Fixpoint first_header (hs : list bytes) (field : bytes) : option bytes :=
  match hs with
  | [] => None
  | h :: r =>
      match header_value h field with
      | Some v => Some v
      | None => first_header r field
      end
  end.

Definition get_header_param (p : stla_http_s) (field : bytes) : option bytes :=
  match field with
  | [] => None
  | _ => first_header (headers p) field
  end.

(** [stla_http_param] at the [header] location; the [query] and [body]
    locations go through the CGI decoder and are not used by the
    state machine. *)
Definition stla_http_param_header (p : stla_http_s) (key : bytes)
  (default_value : option bytes) : option bytes :=
  match key with
  | [] => default_value
  | _ =>
      match get_header_param p key with
      | Some v => Some v
      | None => default_value
      end
  end.

(** ** Request line and header block *)

(** Modelled from the spec: the region allocator (stla_pool.c is not
    among the sources).  [stla_pool_strndup] copies the C string held
    in the first [len] bytes of [src] and terminates it; the copy is
    the most recent allocation of the region. *)
Definition stla_pool_strndup (src : bytes) (len : nat) : bytes :=
  cstr (firstn len src).

(** The loop that stores the header lines: each line up to the next
    CRLF (or to the end of the view) is copied, then [p = ep + 2]. *)
Fixpoint header_lines (fuel : nat) (p : bytes) : list bytes :=
  match fuel with
  | O => []
  | S fuel' =>
      match p with
      | [] => []
      | _ =>
          match memmem p crlf with
          | Some k =>
              stla_pool_strndup p k :: header_lines fuel' (skipn (k + 2) p)
          | None => [stla_pool_strndup p (List.length p)]
          end
      end
  end.

(** Character memory addressed by offset.  Reading past the modelled
    bytes yields NUL; writing there has no effect. *)
Definition peek (mem : bytes) (i : nat) : ascii := nth i mem NUL.

Fixpoint poke (mem : bytes) (i : nat) (c : ascii) : bytes :=
  match mem, i with
  | [], _ => []
  | _ :: r, O => c :: r
  | x :: r, S j => x :: poke r j c
  end.

Fixpoint span_ws (s : bytes) : nat :=
  match s with
  | c :: r => if white_space c then S (span_ws r) else O
  | [] => O
  end.

Fixpoint span_token (s : bytes) : nat :=
  match s with
  | c :: r => if is_nul c || white_space c then O else S (span_token r)
  | [] => O
  end.

(** [for (; white_space( *p ); p++)] *)
Definition skip_ws (mem : bytes) (p : nat) : nat :=
  (p + span_ws (skipn p mem))%nat.

(** [for (; *p && !white_space( *p ); p++)] *)
Definition skip_token (mem : bytes) (p : nat) : nat :=
  (p + span_token (skipn p mem))%nat.

(** [strrchr s c] on the C string [s], as an offset. *)
Fixpoint strrchr (s : bytes) (c : ascii) : option nat :=
  match s with
  | [] => None
  | x :: r =>
      match strrchr r c with
      | Some k => Some (S k)
      | None => if Ascii.eqb x c then Some O else None
      end
  end.

(** [for (; (p > uri && white_space( *p )); p--)] with [p = uri + d]. *)
Fixpoint back_ws (mem : bytes) (u d : nat) : nat :=
  match d with
  | O => u
  | S d' => if white_space (peek mem (u + d)%nat) then back_ws mem u d'
            else (u + d)%nat
  end.

(** The C string a pointer into the memory denotes. *)
Definition string_at (mem : bytes) (p : nat) : bytes := cstr (skipn p mem).

(** [struct stla_http_group_s].  The free list is the list of the
    released pool members, most recently released first.  The three
    mandatory callbacks are non-null in every group that
    [stla_http_group_init] returns; [on_body_chunk] may be null. *)
Record stla_http_group_s : Type := mk_group {
  parser_pool : list stla_http_s;
  pool_size : Z;
  on_body_chunk_set : bool
}.

(** ** Control flow of [on_data]

    Control leaves a block of [on_data] either by [return] or by
    falling through to the next test of the state; [Spin] is a loop
    that has used up its fuel, and [Fault] a block that is made to
    read outside the view it was handed, from which the C program
    does not come back with a defined result. *)
Inductive flow : Type :=
| Return (p : stla_http_s)
| Next (p : stla_http_s)
| Spin
| Fault.

Definition bind (f : flow) (k : stla_http_s -> flow) : flow :=
  match f with
  | Next p => k p
  | Return p => Return p
  | Spin => Spin
  | Fault => Fault
  end.

Notation "f >>= k" := (bind f k) (at level 50, left associativity).

Section Parser.

(** The bytes of the region that follow the copy of the request line.
    The scan of the request line can step over the terminator of the
    copy, so what it reads there is part of the model. *)
Variable region_tail : bytes.

(** The private copy of the request line is scanned in place.  The
    fields point into it, and what they denote is read off the memory
    once both terminators are written. *)
Definition scan_request_line (p : stla_http_s) (req_line : bytes)
  : stla_http_s :=
  let mem := req_line ++ NUL :: region_tail in
  let m := skip_ws mem 0 in
  let e := skip_token mem m in
  let mem1 := poke mem e NUL in
  let u := skip_ws mem1 (S e) in
  let rest := string_at mem1 u in
  let end_space := strrchr rest SP in
  let end_tab := strrchr rest TAB in
  let end_space :=
    match end_space, end_tab with
    | None, _ => end_tab
    | Some s, Some t => if (s <? t)%nat then end_tab else end_space
    | Some _, None => end_space
    end in
  match end_space with
  | Some k =>
      let q := back_ws mem1 u k in
      let q := if white_space (peek mem1 q) then q else S q in
      let mem2 := poke mem1 q NUL in
      let pr := skip_ws mem2 (S q) in
      set_request p (Some (string_at mem2 m)) (Some (string_at mem2 u))
                  (Some (string_at mem2 pr))
  | None =>
      set_request p (Some (string_at mem1 m)) (Some (string_at mem1 u))
                  (protocol p)
  end.

Definition all_set (p : stla_http_s) : bool :=
  match method p, uri p, protocol p with
  | Some _, Some _, Some _ => true
  | _, _, _ => false
  end.

(** [parse_request_and_headers]: the parser with its fields assigned,
    and the C truth value of [method && uri && protocol].  The loop
    that counts the lines only sizes the array of the header pointers
    and is not modelled. *)
Definition parse_request_and_headers (parser : stla_http_s) (view : bytes)
  : stla_http_s * bool :=
  let '(parser1, end_req_line) :=
    match memmem view crlf with
    | Some k =>
        (set_headers parser
           (header_lines (List.length view) (skipn (k + 2) view)), k)
    | None => (parser, List.length view)
    end in
  let req_line := stla_pool_strndup view end_req_line in
  let parser2 := scan_request_line parser1 req_line in
  (parser2, all_set parser2).


(** *** The blocks of [on_data] *)

(** [if (!stla_async_buffer_advance_...(p->async_buffer, ..., on_data))
    return;] followed by the refresh of [data] and [data_length]. *)
Definition try_advance (p : stla_http_s) (q : pull) : flow :=
  let '(ok, h) := advance (async_buffer p) q in
  if ok then Next (set_async p h) else Return (set_async p h).

Definition view (p : stla_http_s) : bytes :=
  stla_async_buffer_data (async_buffer p).

Definition view_length (p : stla_http_s) : Z :=
  stla_async_buffer_data_length (async_buffer p).

Definition is_chunked (encoding : option bytes) : bool :=
  match encoding with
  | Some e => strcaseeq e (s2b "chunked")
  | None => false
  end.

Definition blk_headers (p : stla_http_s) : flow :=
  if has_state p http_state_reading_headers then
    let '(p1, ok) := parse_request_and_headers p (view p) in
    if negb ok then
      Return (emit
        (set_state p1
           (Z.lxor (state p1)
              (Z.lor http_state_reading_headers http_state_read_complete)))
        on_parsing_error)
    else
      let p2 :=
        emit (set_state p1 (Z.lxor (state p1) http_state_reading_headers))
             on_headers in
      let content_length :=
        stla_uint64_t
          (stla_http_param_header p2 (s2b "Content-Length") None) 0 in
      let encoding :=
        stla_http_param_header p2 (s2b "Transfer-Encoding") None in
      if negb (content_length =? 0) then
        try_advance
          (set_state p2 (Z.lor (state p2) http_state_reading_whole_body))
          (need_bytes content_length)
      else if is_chunked encoding then
        try_advance
          (set_state p2 (Z.lor (state p2) http_state_reading_chunk_size))
          (need_string crlf)
      else
        Return (emit
          (set_state p2 (Z.lor (state p2) http_state_read_complete))
          (on_request_end None 0))
  else Next p.

Definition blk_whole_body (p : stla_http_s) : flow :=
  if has_state p http_state_reading_whole_body then
    let p1 := set_post p (Some (view p)) (view_length p) in
    Return (emit
      (set_state p1
         (Z.lxor (state p1)
            (Z.lor http_state_reading_whole_body http_state_read_complete)))
      (on_request_end (Some (view p)) (view_length p)))
  else Next p.

(** [for (i = 0; i < data_length && i < 63 && isxdigit(data[i]); i++)
    buf[i] = data[i];] *)
Fixpoint collect_xdigits (limit : nat) (d : bytes) : bytes :=
  match limit, d with
  | S l, c :: r => if isxdigit c then c :: collect_xdigits l r else []
  | _, _ => []
  end.

Definition blk_chunk_size (p : stla_http_s) : flow :=
  if has_state p http_state_reading_chunk_size then
    let buf := collect_xdigits 63 (view p) in
    match sscanf_unsigned buf with
    | None =>
        Return (emit
          (set_state p
             (Z.lxor (state p)
                (Z.lor http_state_reading_chunk_size
                       http_state_read_complete)))
          on_parsing_error)
    | Some chunk_size =>
        if 0 <? chunk_size then
          let chunk_size := (chunk_size + 2) mod 2 ^ 64 in
          try_advance
            (set_state p
               (Z.lxor (state p)
                  (Z.lor http_state_reading_chunk_size
                         http_state_reading_chunk_data)))
            (need_bytes chunk_size)
        else
          try_advance
            (set_state p
               (Z.lxor (state p)
                  (Z.lor http_state_reading_chunk_size
                         http_state_reading_footers)))
            (need_string crlf)
    end
  else Next p.

(** The [n] bytes that start at the view [d], as the callee of
    [(data, n)] reads them.  The view is all the reader has handed
    out: for [n] beyond its length there are no such bytes, the read
    runs out of the view. *)
Definition bytes_at (d : bytes) (n : Z) : option bytes :=
  if n <=? zlen d then Some (firstn (Z.to_nat n) d) else None.

(** Modelled from the spec: the growable byte buffer (stla_buffer.c is
    not among the sources); [append] copies the [n] bytes at the
    pointer to the end of the buffer.  It has no result when the [n]
    bytes are not there. *)
Definition stla_buffer_append (b d : bytes) (n : Z) : option bytes :=
  match bytes_at d n with
  | Some s => Some (b ++ s)
  | None => None
  end.

(** [data_length -= 2] is a subtraction on [size_t]: on a view of
    fewer than two bytes it wraps to 2^64-2 or 2^64-1, and the handler
    or the append is handed a length that runs out of the view. *)
Definition blk_chunk_data (g : stla_http_group_s) (p : stla_http_s) : flow :=
  if has_state p http_state_reading_chunk_data then
    let data_length := (view_length p - 2) mod 2 ^ 64 in
    let delivered :=
      if on_body_chunk_set g then
        match bytes_at (view p) data_length with
        | Some body => Some (emit p (on_body_chunk body data_length))
        | None => None
        end
      else
        let cache :=
          match chunk_body_cache p with
          | Some c => c
          | None => []
          end in
        match stla_buffer_append cache (view p) data_length with
        | Some c => Some (set_cache p (Some c))
        | None => None
        end in
    match delivered with
    | Some p1 =>
        try_advance
          (set_state p1
             (Z.lxor (state p1)
                (Z.lor http_state_reading_chunk_data
                       http_state_reading_chunk_size)))
          (need_string crlf)
    | None => Fault
    end
  else Next p.

Definition end_of_transmission (p : stla_http_s) : stla_http_s :=
  let p1 :=
    set_state p
      (Z.lxor (state p)
         (Z.lor http_state_reading_footers http_state_read_complete)) in
  let p2 := set_post p1 None 0 in
  let p3 :=
    match chunk_body_cache p2 with
    | Some c => set_post p2 (Some c) (zlen c)
    | None => p2
    end in
  emit p3 (on_request_end (post_data p3) (post_size p3)).

(** [while (p->state & http_state_reading_footers)] *)
Fixpoint blk_footers (fuel : nat) (p : stla_http_s) : flow :=
  match fuel with
  | O => Spin
  | S fuel' =>
      if has_state p http_state_reading_footers then
        if 0 <? view_length p then
          try_advance p (need_string crlf) >>= blk_footers fuel'
        else Return (end_of_transmission p)
      else Next p
  end.

(** One turn of [while (1)]: the cascade of the five tests of the
    state. *)
Definition turn (fuel : nat) (g : stla_http_group_s) (p : stla_http_s)
  : flow :=
  blk_headers p >>= blk_whole_body >>= blk_chunk_size
  >>= blk_chunk_data g >>= blk_footers fuel.

(** [on_data] has no result, [None], when a block faults or the fuel
    of turns is used up; the fuel that [deliver] passes is shown below
    to be enough, so that a call has no result only when it faults. *)
Fixpoint on_data (fuel : nat) (g : stla_http_group_s) (p : stla_http_s)
  : option stla_http_s :=
  match fuel with
  | O => None
  | S fuel' =>
      match turn fuel g p with
      | Return p' => Some p'
      | Next p' => on_data fuel' g p'
      | Spin | Fault => None
      end
  end.

(** Modelled from the spec: [stla_async_buffer_parse] appends the bytes
    and, while the pending pull is satisfied by the unread bytes, hands
    the satisfying slice to the continuation, which is [on_data]. *)
Fixpoint deliver (fuel : nat) (g : stla_http_group_s) (p : stla_http_s)
  : option stla_http_s :=
  match fuel with
  | O => None
  | S fuel' =>
      match pending (async_buffer p) with
      | None => Some p
      | Some q =>
          match satisfy q (unread (async_buffer p)) with
          | None => Some p
          | Some (v, rest) =>
              match on_data (S (List.length rest)) g
                            (set_async p (mk_async rest None v)) with
              | Some p' => deliver fuel' g p'
              | None => None
              end
          end
      end
  end.

Definition stla_async_buffer_parse (g : stla_http_group_s) (p : stla_http_s)
  (d : bytes) : option stla_http_s :=
  let h := append_bytes (async_buffer p) d in
  deliver (S (S (List.length (unread h)))) g (set_async p h).

(** *** The public operations *)

Definition stla_http_group_init (on_body_chunk_given : bool)
  : stla_http_group_s :=
  mk_group [] 0 on_body_chunk_given.

(** What [stla_malloc] returns: a block whose contents nothing has
    initialised.  Only the fields that [stla_http_init] assigns are
    determined. *)
Variable stla_malloc : stla_http_s.

Definition fresh_parser (pool_member : Z) : stla_http_s :=
  mk_http stla_async_buffer_init (uri stla_malloc) (method stla_malloc)
          (protocol stla_malloc) (post_data stla_malloc)
          (post_size stla_malloc) (headers stla_malloc) (state stla_malloc)
          pool_member (chunk_body_cache stla_malloc) [].

Definition stla_http_init (g : stla_http_group_s)
  : stla_http_s * stla_http_group_s :=
  let '(res, g1) :=
    match parser_pool g with
    | r :: rest => (r, mk_group rest (pool_size g) (on_body_chunk_set g))
    | [] =>
        if (pool_size g + 1) mod 2 ^ 32 <? max_parser_group then
          (fresh_parser 1,
           mk_group [] ((pool_size g + 1) mod 2 ^ 32) (on_body_chunk_set g))
        else (fresh_parser 0, g)
    end in
  let res := set_state res http_state_reading_headers in
  let '(_, h) :=
    stla_async_buffer_advance_to_string (async_buffer res) crlfcrlf in
  (set_async res h, g1).

(** [stla_http_release]: a pool member goes back on the free list with
    its reader and its region cleared; the strings the fields pointed
    to are gone, the pointers themselves are left as they were.  Any
    other parser is destroyed. *)
Definition stla_http_release (g : stla_http_group_s) (p : stla_http_s)
  : stla_http_group_s :=
  let p := set_cache p None in
  if negb (pool_member p =? 0) then
    let p := set_async p (stla_async_buffer_clear (async_buffer p)) in
    mk_group (p :: parser_pool g) (pool_size g) (on_body_chunk_set g)
  else g.

Definition stla_http_parse (g : stla_http_group_s) (p : stla_http_s)
  (d : bytes) : option stla_http_s :=
  if has_state p http_state_read_complete then
    Some (emit p on_parsing_error)
  else stla_async_buffer_parse g p d.

(** Successive [stla_http_parse] calls, one per chunk. *)
Fixpoint feed (g : stla_http_group_s) (p : stla_http_s) (chunks : list bytes)
  : option stla_http_s :=
  match chunks with
  | [] => Some p
  | c :: cs =>
      match stla_http_parse g p c with
      | Some p' => feed g p' cs
      | None => None
      end
  end.

End Parser.

(** ** Scenarios *)

(** A block of zeroed memory, and the first parser that a new group
    hands out when [stla_malloc] returns such a block. *)
Definition zero_block : stla_http_s :=
  mk_http stla_async_buffer_init None None None None 0 [] 0 0 None [].

Definition first_parser (on_body_chunk_given : bool) : stla_http_s :=
  fst (stla_http_init zero_block (stla_http_group_init on_body_chunk_given)).

Definition simple_get : bytes :=
  s2b "GET /hi HTTP/1.1" ++ crlf ++ s2b "Host: x" ++ crlfcrlf.

Definition malformed_request : bytes := s2b "????" ++ crlfcrlf.

Definition chunked_post : bytes :=
  s2b "POST / HTTP/1.1" ++ crlf ++ s2b "Transfer-Encoding: chunked"
  ++ crlfcrlf ++ s2b "5" ++ crlf ++ s2b "hello" ++ crlf
  ++ s2b "6" ++ crlf ++ s2b " world" ++ crlf ++ s2b "0" ++ crlfcrlf.

Definition chunked_head : bytes :=
  s2b "POST / HTTP/1.1" ++ crlf ++ s2b "Transfer-Encoding: chunked"
  ++ crlfcrlf.

(** A parser in [ReadComplete], as the simple GET leaves it. *)
Definition completed_parser : option stla_http_s :=
  stla_http_parse [] (stla_http_group_init false) (first_parser false)
                  simple_get.

(** Acquire, parse a well-formed request, release, and acquire again:
    the second parser is the first one, taken off the free list. *)
Definition recycled_parser (region_tail : bytes)
  : option (stla_http_s * stla_http_group_s) :=
  let g0 := stla_http_group_init false in
  let '(p, g1) := stla_http_init zero_block g0 in
  match stla_http_parse region_tail g1 p simple_get with
  | Some p' => Some (stla_http_init zero_block (stla_http_release g1 p'))
  | None => None
  end.

Definition recycled_then_malformed (region_tail : bytes)
  : option stla_http_s :=
  match recycled_parser region_tail with
  | Some (p, g) => stla_http_parse region_tail g p malformed_request
  | None => None
  end.

Definition chunk_line_a : bytes :=
  chunked_head ++ s2b "a" ++ crlf ++ s2b "0123456789" ++ crlf
  ++ s2b "0" ++ crlfcrlf.

(** A parser waiting for a chunk size that has just been handed the
    view [v] of the size line. *)
Definition at_chunk_size (v : bytes) : stla_http_s :=
  mk_http (mk_async [] None v) None None None None 0 []
          http_state_reading_chunk_size 1 None [on_headers].

Definition sixty_four_a : bytes := repeat "a"%char 64.

(** ** The group and its outstanding parsers *)

(** A group together with the parsers that were acquired from it and
    are not yet released.  Acquire, release and parse run one at a
    time (the group's lock serialises the first two). *)
Record pool_sys : Type := mk_sys {
  grp : stla_http_group_s;
  live : list stla_http_s
}.

Inductive pool_step : pool_sys -> pool_sys -> Prop :=
| step_acquire (s : pool_sys) (block : stla_http_s) :
    pool_step s
      (mk_sys (snd (stla_http_init block (grp s)))
              (fst (stla_http_init block (grp s)) :: live s))
| step_release (s : pool_sys) (l1 l2 : list stla_http_s) (p : stla_http_s) :
    live s = l1 ++ p :: l2 ->
    pool_step s (mk_sys (stla_http_release (grp s) p) (l1 ++ l2))
| step_parse (s : pool_sys) (l1 l2 : list stla_http_s) (p p' : stla_http_s)
    (region_tail d : bytes) :
    live s = l1 ++ p :: l2 ->
    stla_http_parse region_tail (grp s) p d = Some p' ->
    pool_step s (mk_sys (grp s) (l1 ++ p' :: l2)).

Inductive reachable (on_body_chunk_given : bool) : pool_sys -> Prop :=
| reach_init :
    reachable on_body_chunk_given
      (mk_sys (stla_http_group_init on_body_chunk_given) [])
| reach_step (s s' : pool_sys) :
    reachable on_body_chunk_given s -> pool_step s s' ->
    reachable on_body_chunk_given s'.

Definition is_member (p : stla_http_s) : bool := negb (pool_member p =? 0).

(** The pool members the group has built and not destroyed: those on
    the free list and those in use. *)
Definition members (s : pool_sys) : Z :=
  Z.of_nat (List.length
    (filter is_member (parser_pool (grp s) ++ live s))).

(** [n] acquisitions in a row with nothing released. *)
Fixpoint acquire_n (n : nat) (g : stla_http_group_s) : stla_http_group_s :=
  match n with
  | O => g
  | S k => snd (stla_http_init zero_block (acquire_n k g))
  end.

(** ** Reasoning about [on_data] *)

(** A property of the parser with which control leaves a block. *)
Definition flow_sat (P : stla_http_s -> Prop) (f : flow) : Prop :=
  match f with
  | Return p | Next p => P p
  | Spin | Fault => True
  end.

(** The invariant of the pool: the counter counts the pool members
    that exist, it stays below the cap, and only pool members are on
    the free list. *)
Definition pool_inv (s : pool_sys) : Prop :=
  0 <= pool_size (grp s) <= 255
  /\ members s = pool_size (grp s)
  /\ forallb is_member (parser_pool (grp s)) = true.

(** ** Decimal numerals *)

(** The number a string of decimal digits denotes. *)
Definition decimal (ds : bytes) : Z :=
  fold_left (fun acc c => 10 * acc + digit_val c) ds 0.

(** [Content-Length] as [on_data] reads it once the headers are
    stored. *)
Definition content_length_of (p : stla_http_s) : Z :=
  stla_uint64_t (stla_http_param_header p (s2b "Content-Length") None) 0.

Definition transfer_encoding_of (p : stla_http_s) : option bytes :=
  stla_http_param_header p (s2b "Transfer-Encoding") None.




(** ** The state machine behind [on_data]

    The transition table of the parser: what one protocol step does
    to the parser given the view it was handed, and the pull it
    registers next ([None] when the request is over).  The cascade of
    [on_data] is shown below to perform exactly these steps. *)
Section Machine.

Variable region_tail : bytes.
Variable g : stla_http_group_s.

(** [data_length] after [data_length -= 2] in ReadingChunkData. *)
Definition chunk_length (p : stla_http_s) : Z :=
  (view_length p - 2) mod 2 ^ 64.

(** What the parser does with a chunk: the handler is called, or the
    chunk is added to the accumulation buffer. *)
Definition take_chunk (p : stla_http_s) (c : bytes) : stla_http_s :=
  if on_body_chunk_set g then emit p (on_body_chunk c (chunk_length p))
  else set_cache p (Some (match chunk_body_cache p with
                          | Some b => b
                          | None => []
                          end ++ c)).

(** One step: [None] when the step faults. *)
Definition plan (p : stla_http_s) : option (stla_http_s * option pull) :=
  if state p =? http_state_reading_headers then
    let '(p1, ok) := parse_request_and_headers region_tail p (view p) in
    if negb ok then
      Some (emit (set_state p1 http_state_read_complete) on_parsing_error,
            None)
    else
      let p2 := emit (set_state p1 0) on_headers in
      if negb (content_length_of p1 =? 0) then
        Some (set_state p2 http_state_reading_whole_body,
              Some (need_bytes (content_length_of p1)))
      else if is_chunked (transfer_encoding_of p1) then
        Some (set_state p2 http_state_reading_chunk_size,
              Some (need_string crlf))
      else
        Some (emit (set_state p2 http_state_read_complete)
                   (on_request_end None 0), None)
  else if state p =? http_state_reading_whole_body then
    Some (emit (set_state (set_post p (Some (view p)) (view_length p))
                          http_state_read_complete)
               (on_request_end (Some (view p)) (view_length p)), None)
  else if state p =? http_state_reading_chunk_size then
    match sscanf_unsigned (collect_xdigits 63 (view p)) with
    | None =>
        Some (emit (set_state p http_state_read_complete) on_parsing_error,
              None)
    | Some n =>
        if 0 <? n then
          Some (set_state p http_state_reading_chunk_data,
                Some (need_bytes ((n + 2) mod 2 ^ 64)))
        else
          Some (set_state p http_state_reading_footers,
                Some (need_string crlf))
    end
  else if state p =? http_state_reading_chunk_data then
    match bytes_at (view p) (chunk_length p) with
    | Some c =>
        Some (set_state (take_chunk p c) http_state_reading_chunk_size,
              Some (need_string crlf))
    | None => None
    end
  else if state p =? http_state_reading_footers then
    if 0 <? view_length p then Some (p, Some (need_string crlf))
    else Some (end_of_transmission p, None)
  else Some (p, None).

(** Carrying out a planned step: return, or register the pull. *)
Definition exec (pl : option (stla_http_s * option pull)) : flow :=
  match pl with
  | Some (p1, None) => Return p1
  | Some (p1, Some q) => try_advance p1 q
  | None => Fault
  end.

(** The parser with a reader that was just handed the view [v], [rest]
    staying unread. *)
Definition handed (p : stla_http_s) (v rest : bytes) : stla_http_s :=
  set_async p (mk_async rest None v).

(** The parser left waiting for the pull [q]. *)
Definition waiting (p : stla_http_s) (q : pull) : stla_http_s :=
  set_async p (mk_async (unread (async_buffer p)) (Some q)
                        (data (async_buffer p))).

(** A run of the machine from a parser that was just handed a view:
    steps are taken as long as the unread bytes satisfy the pull that
    each step registers. *)
Inductive runs : stla_http_s -> stla_http_s -> Prop :=
| runs_done (p p1 : stla_http_s) :
    plan p = Some (p1, None) -> runs p p1
| runs_wait (p p1 : stla_http_s) (q : pull) :
    plan p = Some (p1, Some q) ->
    satisfy q (unread (async_buffer p1)) = None ->
    runs p (waiting p1 q)
| runs_more (p p1 r : stla_http_s) (q : pull) (v rest : bytes) :
    plan p = Some (p1, Some q) ->
    satisfy q (unread (async_buffer p1)) = Some (v, rest) ->
    runs (handed p1 v rest) r ->
    runs p r.

(** A run that ends in a fault: it comes to a parser in
    ReadingChunkData whose view is shorter than the length that
    [data_length -= 2] leaves, which is a view of fewer than two
    bytes. *)
Inductive overruns : stla_http_s -> Prop :=
| overruns_here (p : stla_http_s) :
    state p = http_state_reading_chunk_data ->
    view_length p < chunk_length p ->
    overruns p
| overruns_later (p p1 : stla_http_s) (q : pull) (v rest : bytes) :
    plan p = Some (p1, Some q) ->
    satisfy q (unread (async_buffer p1)) = Some (v, rest) ->
    overruns (handed p1 v rest) ->
    overruns p.

(** What the reader does with a parser whose unread bytes have grown:
    nothing unless the pending pull is now satisfied. *)
Inductive fed : stla_http_s -> stla_http_s -> Prop :=
| fed_idle (p : stla_http_s) :
    pending (async_buffer p) = None -> fed p p
| fed_short (p : stla_http_s) (q : pull) :
    pending (async_buffer p) = Some q ->
    satisfy q (unread (async_buffer p)) = None ->
    fed p p
| fed_run (p r : stla_http_s) (q : pull) (v rest : bytes) :
    pending (async_buffer p) = Some q ->
    satisfy q (unread (async_buffer p)) = Some (v, rest) ->
    runs (handed p v rest) r ->
    fed p r.

(** The pending pull is satisfied and the run that follows faults. *)
Definition fed_overruns (p : stla_http_s) : Prop :=
  exists q v rest,
    pending (async_buffer p) = Some q
    /\ satisfy q (unread (async_buffer p)) = Some (v, rest)
    /\ overruns (handed p v rest).

End Machine.

(** The five states in which the parser reads. *)
Definition reading (s : Z) : Prop :=
  s = http_state_reading_headers \/ s = http_state_reading_whole_body
  \/ s = http_state_reading_chunk_size \/ s = http_state_reading_chunk_data
  \/ s = http_state_reading_footers.

(** A parser between two calls of [stla_http_parse]: done, with no
    pull pending, or reading, with a pull that the unread bytes do not
    satisfy. *)
Definition at_rest (p : stla_http_s) : Prop :=
  (state p = http_state_read_complete /\ pending (async_buffer p) = None)
  \/ (reading (state p)
      /\ exists q, pending (async_buffer p) = Some q
                   /\ satisfy q (unread (async_buffer p)) = None).

(** The producer's bytes appended to the unread bytes. *)
Definition more_bytes (p : stla_http_s) (d : bytes) : stla_http_s :=
  set_async p (append_bytes (async_buffer p) d).

(** ** Transitions and traces *)

(** The transitions of one step that registers a pull [q]: the state
    before, the state after, and what is known of the pull. *)
Definition follows (s : Z) (q : pull) (s' : Z) : Prop :=
  (s = http_state_reading_headers /\ s' = http_state_reading_whole_body)
  \/ (s = http_state_reading_headers /\ s' = http_state_reading_chunk_size
      /\ q = need_string crlf)
  \/ (s = http_state_reading_chunk_size /\ s' = http_state_reading_chunk_data)
  \/ (s = http_state_reading_chunk_size /\ s' = http_state_reading_footers
      /\ q = need_string crlf)
  \/ (s = http_state_reading_chunk_data /\ s' = http_state_reading_chunk_size
      /\ q = need_string crlf)
  \/ (s = http_state_reading_footers /\ s' = http_state_reading_footers
      /\ q = need_string crlf).

Definition is_chunk (e : event) : Prop :=
  match e with
  | on_body_chunk _ _ => True
  | _ => False
  end.

Definition is_terminal (e : event) : bool :=
  match e with
  | on_request_end _ _ | on_parsing_error => true
  | _ => false
  end.

(** [on_headers], then body chunks. *)
Definition open_trace (t : list event) : Prop :=
  exists cs, t = on_headers :: cs /\ Forall is_chunk cs.

(** A trace that ends in its only terminal callback: an error before
    the headers, or [on_headers], body chunks, and then
    [on_request_end] or [on_parsing_error]. *)
Definition closed_trace (t : list event) : Prop :=
  t = [on_parsing_error]
  \/ exists t0 e, open_trace t0 /\ t = t0 ++ [e] /\ is_terminal e = true.


(** The trace since the parser was initialised, by state. *)
Definition phase (s : Z) (t : list event) : Prop :=
  (s = http_state_reading_headers /\ t = [])
  \/ (reading s /\ s <> http_state_reading_headers /\ open_trace t)
  \/ (s = http_state_read_complete /\ closed_trace t).

Definition since (t0 : list event) (p : stla_http_s) : Prop :=
  exists t, trace p = t0 ++ t /\ phase (state p) t.


(** A parser as [stla_http_init] leaves it. *)
Definition initialised (p : stla_http_s) : Prop :=
  state p = http_state_reading_headers
  /\ unread (async_buffer p) = []
  /\ pending (async_buffer p) = Some (need_string crlfcrlf).

(** A measure that every step of the machine decreases. *)
Definition rank (s : Z) : nat :=
  if s =? http_state_reading_headers then 3
  else if s =? http_state_reading_chunk_size then 2
  else if s =? http_state_reading_chunk_data then 1
  else 0.

Definition measure (p : stla_http_s) : nat :=
  (3 * List.length (unread (async_buffer p)) + rank (state p))%nat.


Definition nonempty (c : bytes) : bool :=
  match c with
  | [] => false
  | _ => true
  end.




(** A parser whose reader holds no unread bytes. *)
Definition cleared (p : stla_http_s) : bool :=
  match unread (async_buffer p) with
  | [] => true
  | _ => false
  end.

(** ** More of stla_conv.c and stla_http.c *)

(** stla_conv.c: [stla_str] and [stla_bool].  A C string is read
    through its first character, NUL for the empty string. *)
Definition stla_str (value default_value : option bytes) : option bytes :=
  match value with
  | Some v => Some v
  | None => default_value
  end.

Definition first_char (v : bytes) : ascii := hd NUL v.

Definition stla_bool (value : option bytes) (default_value : bool) : bool :=
  match value with
  | None => default_value
  | Some v =>
      let c := first_char v in
      if default_value then
        if Ascii.eqb c "0"%char || Ascii.eqb c "f"%char
           || Ascii.eqb c "F"%char
        then false else true
      else
        if Ascii.eqb c "1"%char || Ascii.eqb c "t"%char
           || Ascii.eqb c "T"%char
        then true else false
  end.

(** The values [stla_bool] recognises. *)
Definition reads_false (v : bytes) : bool :=
  Ascii.eqb (first_char v) "0"%char || Ascii.eqb (first_char v) "f"%char
  || Ascii.eqb (first_char v) "F"%char.

Definition reads_true (v : bytes) : bool :=
  Ascii.eqb (first_char v) "1"%char || Ascii.eqb (first_char v) "t"%char
  || Ascii.eqb (first_char v) "T"%char.

(** [stla_http_method], [stla_http_uri] *)
Definition stla_http_method (p : option stla_http_s) : option bytes :=
  match p with
  | Some q => method q
  | None => None
  end.

Definition stla_http_uri (p : option stla_http_s) : option bytes :=
  match p with
  | Some q => uri q
  | None => None
  end.

(** [stla_http_group_destroy] with no other thread at work: each turn
    of the outer loop frees what is on the free list, counting in a
    32-bit counter, and goes round again (after the sleep) while the
    count is below [pool_size].  The result is the number of parsers
    freed when the loop is left, [None] when the fuel of turns is used
    up. *)
Fixpoint stla_http_group_destroy (fuel : nat) (g : stla_http_group_s)
  (num_pool_destroyed : Z) : option Z :=
  match fuel with
  | O => None
  | S fuel' =>
      if num_pool_destroyed <? pool_size g then
        let n := (num_pool_destroyed + Z.of_nat (List.length (parser_pool g))) mod 2 ^ 32 in
        stla_http_group_destroy fuel'
          (mk_group [] (pool_size g) (on_body_chunk_set g)) n
      else Some num_pool_destroyed
  end.

(** The parser that [stla_http_init] makes of a released pool member:
    reading headers, with the first pull pending on a cleared reader
    and no accumulated chunks; every other field as it was. *)
Definition recycled (p : stla_http_s) : stla_http_s :=
  set_async (set_state (set_cache p None) http_state_reading_headers)
            (mk_async [] (Some (need_string crlfcrlf)) []).

(** A header line as it stands on the wire: no line feed and no NUL
    in it. *)
Definition plain_line (l : bytes) : bool :=
  forallb (fun c => negb (Ascii.eqb c LF) && negb (is_nul c)) l.

(** The header block made of the lines [ls], each ended by CRLF. *)
Definition join_lines (ls : list bytes) : bytes :=
  List.concat (map (fun l => l ++ crlf) ls).

(** A token of the request line: not empty, and without white space
    or NUL. *)
Definition is_token (t : bytes) : bool :=
  nonempty t && forallb (fun c => negb (is_nul c || white_space c)) t.

(** A run of blanks or tabs, at least one. *)
Definition is_blank (w : bytes) : bool :=
  nonempty w && forallb white_space w.

(** The text between method and protocol: not empty, without NUL, and
    with no white space at either end (it may hold some inside). *)
Definition is_uri_text (u : bytes) : bool :=
  nonempty u && forallb (fun c => negb (is_nul c)) u
  && negb (white_space (first_char u))
  && negb (white_space (last u NUL)).

(** What the header phase stores about the request. *)
Definition request_fields (p : stla_http_s)
  : option bytes * option bytes * option bytes * list bytes :=
  (method p, uri p, protocol p, headers p).

(** A parser of a chunked POST whose headers are done, waiting for the
    line of the next chunk size. *)
Definition awaiting_chunk : stla_http_s :=
  mk_http (mk_async [] (Some (need_string crlf)) [])
          (Some (s2b "/")) (Some (s2b "POST")) (Some (s2b "HTTP/1.1"))
          None 0 [s2b "Transfer-Encoding: chunked"]
          http_state_reading_chunk_size 1 None [on_headers].

(** ** Waiting, faulting, and requests on the wire *)



(** What registering the pull [q] on [p1] leads to: the parser waits,
    or the run goes on with the view that satisfies the pull. *)
Definition pulls (region_tail : bytes) (g : stla_http_group_s)
  (p1 : stla_http_s) (q : pull) (r : stla_http_s) : Prop :=
  match satisfy q (unread (async_buffer p1)) with
  | Some (v, rest) => runs region_tail g (handed p1 v rest) r
  | None => r = waiting p1 q
  end.

(** The number [on_data] reads off a chunk-size line. *)
Definition read_size (line : bytes) : option Z :=
  sscanf_unsigned (collect_xdigits 63 line).

(** A chunk on the wire: the size line, CRLF, the payload, and the
    two bytes that close it. *)
Record wire_chunk : Type := mk_chunk {
  size_line : bytes;
  payload : bytes;
  chunk_end : bytes
}.

Definition chunk_bytes (c : wire_chunk) : bytes :=
  size_line c ++ crlf ++ payload c ++ chunk_end c.

(** A chunk whose size line the parser reads as the length of its
    payload. *)
Definition well_sized (c : wire_chunk) : Prop :=
  plain_line (size_line c) = true
  /\ read_size (size_line c) = Some (zlen (payload c))
  /\ 0 < zlen (payload c)
  /\ zlen (payload c) + 2 < 2 ^ 64
  /\ List.length (chunk_end c) = 2%nat.

(** A chunked body: chunks, the line of the last chunk (read as 0),
    trailer lines, and the empty line. *)
Definition chunked_body (cs : list wire_chunk) (last : bytes)
  (trailers : list bytes) : bytes :=
  List.concat (map chunk_bytes cs)
  ++ last ++ crlf ++ join_lines trailers ++ crlf.

Definition payloads (cs : list wire_chunk) : bytes :=
  List.concat (map payload cs).



(** What the parser has done with the chunks [cs]: the handler calls,
    or the accumulated payloads. *)
Definition chunk_events (g : stla_http_group_s) (cs : list wire_chunk)
  : list event :=
  if on_body_chunk_set g
  then map (fun c => on_body_chunk (payload c) (zlen (payload c))) cs
  else [].

Definition accumulated (g : stla_http_group_s) (cache : option bytes)
  (cs : list wire_chunk) : option bytes :=
  if on_body_chunk_set g then cache
  else match cs with
       | [] => cache
       | _ => Some (match cache with
                    | Some b => b
                    | None => []
                    end ++ payloads cs)
       end.

(** The arguments of [on_request_end] at the end of a chunked body. *)
Definition end_event (cache : option bytes) : event :=
  match cache with
  | Some b => on_request_end (Some b) (zlen b)
  | None => on_request_end None 0
  end.

(** A chunked request whose size line reads 2^64-1. *)
Definition wrapping_chunk : bytes :=
  chunked_head ++ s2b "18446744073709551615" ++ crlf ++ s2b "x".

(** The parser once it has taken the chunk [body]. *)
Definition chunk_taken (g : stla_http_group_s) (q : stla_http_s)
  (body : bytes) : stla_http_s :=
  if on_body_chunk_set g
  then emit q (on_body_chunk body (zlen body))
  else set_cache q (Some (match chunk_body_cache q with
                          | Some b => b
                          | None => []
                          end ++ body)).

(** A parser that waits for a size line, once the chunk [c] has gone
    through it, [rest] being what follows the chunk. *)
Definition after_chunk (g : stla_http_group_s) (q : stla_http_s)
  (c : wire_chunk) (rest : bytes) : stla_http_s :=
  set_async (chunk_taken g q (payload c))
            (mk_async rest None (payload c ++ chunk_end c)).

Fixpoint after_chunks (g : stla_http_group_s) (q : stla_http_s)
  (cs : list wire_chunk) (rest : bytes) : stla_http_s :=
  match cs with
  | [] => q
  | c :: cs' =>
      after_chunks g
        (after_chunk g q c (List.concat (map chunk_bytes cs') ++ rest))
        cs' rest
  end.

(** * Properties *)

(** ** Re-entering a completed parser *)

(** C9: [stla_http_parse] on a parser whose state includes ReadComplete
    fires [on_parsing_error] once more and does nothing else: the
    reader (unread bytes, pending pull, view), the state and every
    other field are as before, whatever bytes were passed. *)
Theorem parse_when_complete_only_reports :
  forall region_tail g p d,
    has_state p http_state_read_complete = true ->
    exists p',
      stla_http_parse region_tail g p d = Some p'
      /\ p' = emit p on_parsing_error
      /\ trace p' = trace p ++ [on_parsing_error]
      /\ async_buffer p' = async_buffer p
      /\ state p' = state p
      /\ chunk_body_cache p' = chunk_body_cache p
      /\ (post_data p', post_size p') = (post_data p, post_size p).
Proof.
  intros tail g p d Hc.
  exists (emit p on_parsing_error).
  unfold stla_http_parse. rewrite Hc.
  repeat split; reflexivity.
Qed.

Lemma parse_when_complete_only_reports_witness :
  exists p0,
    completed_parser = Some p0
    /\ has_state p0 http_state_read_complete = true
    /\ exists p',
         stla_http_parse [] (stla_http_group_init false) p0 (s2b "more")
         = Some p'
         /\ p' = emit p0 on_parsing_error
         /\ trace p' = trace p0 ++ [on_parsing_error]
         /\ async_buffer p' = async_buffer p0
         /\ state p' = state p0
         /\ chunk_body_cache p' = chunk_body_cache p0
         /\ (post_data p', post_size p') = (post_data p0, post_size p0).
Proof.
  eexists. split; [vm_compute; reflexivity|].
  split; [reflexivity|].
  apply (@parse_when_complete_only_reports [] (stla_http_group_init false)).
  reflexivity.
Defined.

(** ** The chunk-size line *)

(** C2: the size line is not read as hexadecimal.  A chunked request
    whose first size line is "a" ends in [on_parsing_error] right
    after [on_headers]; the size line "10" asks for 10 + 2 bytes and
    "1f" for 1 + 2 bytes, the decimal value of the leading decimal
    digits. *)
Theorem chunk_size_read_as_decimal :
  (exists p,
      stla_http_parse [] (stla_http_group_init false) (first_parser false)
                      chunk_line_a = Some p
      /\ trace p = [on_headers; on_parsing_error]
      /\ state p = http_state_read_complete)
  /\ pending (async_buffer
       match blk_chunk_size (at_chunk_size (s2b "10" ++ crlf)) with
       | Return p | Next p => p
       | Spin | Fault => zero_block
       end) = Some (need_bytes 12)
  /\ pending (async_buffer
       match blk_chunk_size (at_chunk_size (s2b "1f" ++ crlf)) with
       | Return p | Next p => p
       | Spin | Fault => zero_block
       end) = Some (need_bytes 3).
Proof.
  split; [eexists; split; [vm_compute; reflexivity|split; reflexivity]|].
  split; reflexivity.
Qed.

Lemma collect_xdigits_bound (limit : nat) (d : bytes) :
  (List.length (collect_xdigits limit d) <= limit)%nat.
Proof.
  revert d; induction limit as [|l IH]; intros [|c r]; simpl; try lia.
  destruct (isxdigit c); simpl; [specialize (IH r)|]; lia.
Qed.

Lemma collect_xdigits_prefix (limit : nat) (d rest : bytes) :
  (limit <= List.length d)%nat ->
  forallb isxdigit (firstn limit d) = true ->
  collect_xdigits limit (d ++ rest) = firstn limit d.
Proof.
  revert d; induction limit as [|l IH]; intros d Hl Hx.
  - reflexivity.
  - destruct d as [|c r]; simpl in *; [lia|].
    apply andb_true_iff in Hx as [Hc Hr]. rewrite Hc. f_equal.
    apply IH; [lia|assumption].
Qed.

(** C10: a size line of 64 hex digits is cut to its first 63 digits,
    and with the digits "a" the cut line is then reported as an error
    instead of yielding a size. *)
Theorem long_chunk_size_line_reports_error :
  collect_xdigits 63 (sixty_four_a ++ crlf) = repeat "a"%char 63
  /\ blk_chunk_size (at_chunk_size (sixty_four_a ++ crlf))
     = Return (emit (set_state (at_chunk_size (sixty_four_a ++ crlf))
                               http_state_read_complete)
                    on_parsing_error).
Proof. split; vm_compute; reflexivity. Qed.

(** ** The malformed request line *)

(** C3: on a parser taken off the free list after a well-formed
    request, the request line "????" is accepted: [on_headers] and
    [on_request_end] fire, [on_parsing_error] does not.  The trace
    holds the two callbacks of the first request, then the two of the
    malformed one. *)
Theorem malformed_line_accepted_on_recycled_parser :
  exists p,
    recycled_then_malformed [] = Some p
    /\ trace p = [on_headers; on_request_end None 0;
                  on_headers; on_request_end None 0]
    /\ method p = Some (s2b "????")
    /\ state p = http_state_read_complete.
Proof.
  eexists. split; [vm_compute; reflexivity|].
  repeat split; reflexivity.
Qed.

(** ** The request fields *)

Lemma scan_request_line_fields (tail : bytes) (p : stla_http_s)
  (req_line : bytes) :
  let p' := scan_request_line tail p req_line in
  method p' <> None /\ uri p' <> None
  /\ (protocol p <> None -> protocol p' <> None).
Proof.
  unfold scan_request_line.
  set (mem := req_line ++ NUL :: tail).
  set (mem1 := poke mem (skip_token mem (skip_ws mem 0)) NUL).
  set (u := skip_ws mem1 (S (skip_token mem (skip_ws mem 0)))).
  destruct (strrchr (string_at mem1 u) SP) as [s|];
    destruct (strrchr (string_at mem1 u) TAB) as [t|]; simpl;
    try destruct (s <? t)%nat; simpl; repeat split; try discriminate; auto.
Qed.

Lemma parse_request_and_headers_scan (tail : bytes) (p : stla_http_s)
  (v : bytes) :
  exists p1 req_line,
    parse_request_and_headers tail p v
    = (scan_request_line tail p1 req_line,
       all_set (scan_request_line tail p1 req_line))
    /\ protocol p1 = protocol p /\ state p1 = state p
    /\ async_buffer p1 = async_buffer p /\ trace p1 = trace p
    /\ pool_member p1 = pool_member p
    /\ chunk_body_cache p1 = chunk_body_cache p.
Proof.
  unfold parse_request_and_headers.
  destruct (memmem v crlf) as [k|]; eexists; eexists;
    (split; [reflexivity|repeat split]).
Qed.

(** A parser that still holds a protocol pointer accepts every view:
    the test [method && uri && protocol] cannot fail. *)
Lemma stale_protocol_accepts (tail : bytes) (p : stla_http_s) (v : bytes) :
  protocol p <> None ->
  snd (parse_request_and_headers tail p v) = true.
Proof.
  intros Hp.
  destruct (parse_request_and_headers_scan tail p v)
    as (p1 & rl & -> & Hpr & _).
  simpl. rewrite <- Hpr in Hp.
  destruct (scan_request_line_fields tail p1 rl) as (Hm & Hu & Hk).
  specialize (Hk Hp). unfold all_set.
  set (q := scan_request_line tail p1 rl) in *.
  destruct (method q); [|congruence].
  destruct (uri q); [|congruence].
  destruct (protocol q); [reflexivity|congruence].
Qed.

(** C4, as the code has it: every header parse assigns [method] and
    [uri]; it succeeds exactly when [protocol] is non-null afterwards,
    so after a successful header parse the three fields are
    non-null. *)
Theorem request_fields_after_header_parse :
  forall region_tail p v,
    let r := parse_request_and_headers region_tail p v in
    method (fst r) <> None
    /\ uri (fst r) <> None
    /\ (snd r = true <-> protocol (fst r) <> None)
    /\ (snd r = true ->
        exists m u k,
          method (fst r) = Some m /\ uri (fst r) = Some u
          /\ protocol (fst r) = Some k).
Proof.
  intros tail p v r. subst r.
  destruct (parse_request_and_headers_scan tail p v)
    as (p1 & rl & -> & _).
  simpl.
  destruct (scan_request_line_fields tail p1 rl) as (Hm & Hu & _).
  unfold all_set.
  set (q := scan_request_line tail p1 rl) in *.
  destruct (method q) as [m|]; [|congruence].
  destruct (uri q) as [u|]; [|congruence].
  destruct (protocol q) as [k|].
  - repeat split; try discriminate. intros _. now exists m, u, k.
  - repeat split; try discriminate; try congruence.
Qed.

(** C4 as stated fails: after the malformed request, which ends in
    [on_parsing_error] with no successful header parse, [method] and
    [uri] are non-null. *)
Lemma fields_assigned_by_failed_parse :
  exists p,
    stla_http_parse [] (stla_http_group_init false) (first_parser false)
                    malformed_request = Some p
    /\ trace p = [on_parsing_error]
    /\ method p = Some (s2b "????")
    /\ uri p = Some []
    /\ protocol p = None.
Proof.
  eexists. split; [vm_compute; reflexivity|].
  repeat split; reflexivity.
Qed.

(** ** Invariants of [on_data] *)

Lemma bind_sat (P Q : stla_http_s -> Prop) (f : flow)
  (k : stla_http_s -> flow) :
  flow_sat P f ->
  (forall p, P p -> flow_sat Q (k p)) ->
  (forall p, f = Return p -> Q p) ->
  flow_sat Q (bind f k).
Proof.
  destruct f as [p|p| |]; simpl; intros Hf Hk Hr; auto.
Qed.

Lemma bind_sat_same (P : stla_http_s -> Prop) (f : flow)
  (k : stla_http_s -> flow) :
  flow_sat P f ->
  (forall p, P p -> flow_sat P (k p)) ->
  flow_sat P (bind f k).
Proof.
  intros Hf Hk. apply bind_sat with (P := P); auto.
  intros p ->. exact Hf.
Qed.

Section Invariant.

Variable region_tail : bytes.
Variable g : stla_http_group_s.
Variable P : stla_http_s -> Prop.

Hypothesis P_headers : forall p, P p -> flow_sat P (blk_headers region_tail p).
Hypothesis P_whole_body : forall p, P p -> flow_sat P (blk_whole_body p).
Hypothesis P_chunk_size : forall p, P p -> flow_sat P (blk_chunk_size p).
Hypothesis P_chunk_data : forall p, P p -> flow_sat P (blk_chunk_data g p).
Hypothesis P_footer_line :
  forall p, P p -> has_state p http_state_reading_footers = true ->
            flow_sat P (try_advance p (need_string crlf)).
Hypothesis P_end :
  forall p, P p -> has_state p http_state_reading_footers = true ->
            P (end_of_transmission p).

Lemma blk_footers_invariant (fuel : nat) (p : stla_http_s) :
  P p -> flow_sat P (blk_footers fuel p).
Proof.
  revert p; induction fuel as [|f IH]; intros p Hp; simpl; [exact I|].
  destruct (has_state p http_state_reading_footers) eqn:Hs; [|exact Hp].
  destruct (0 <? view_length p).
  - apply bind_sat_same; [now apply P_footer_line|exact IH].
  - simpl. now apply P_end.
Qed.

Lemma turn_invariant (fuel : nat) (p : stla_http_s) :
  P p -> flow_sat P (turn region_tail fuel g p).
Proof.
  intros Hp. unfold turn.
  repeat (apply bind_sat_same; [|first
    [exact P_whole_body | exact P_chunk_size | exact P_chunk_data
    | exact (blk_footers_invariant fuel)]]).
  now apply P_headers.
Qed.

Lemma on_data_invariant (fuel : nat) (p r : stla_http_s) :
  P p -> on_data region_tail fuel g p = Some r -> P r.
Proof.
  revert p; induction fuel as [|f IH]; intros p Hp; [discriminate|].
  cbn [on_data].
  pose proof (turn_invariant (S f) Hp) as Ht.
  destruct (turn region_tail (S f) g p) as [q|q| |]; simpl in Ht.
  - intros [= <-]. exact Ht.
  - now apply IH.
  - discriminate.
  - discriminate.
Qed.

End Invariant.

(** ** What the blocks leave alone *)

Lemma scan_request_line_shape (tail : bytes) (p : stla_http_s) (rl : bytes) :
  exists m u k, scan_request_line tail p rl = set_request p m u k.
Proof.
  unfold scan_request_line.
  set (mem := rl ++ NUL :: tail).
  set (mem1 := poke mem (skip_token mem (skip_ws mem 0)) NUL).
  set (u := skip_ws mem1 (S (skip_token mem (skip_ws mem 0)))).
  destruct (strrchr (string_at mem1 u) SP) as [s|];
    destruct (strrchr (string_at mem1 u) TAB) as [t|];
    try destruct (s <? t)%nat; eexists; eexists; eexists; reflexivity.
Qed.

Lemma parse_request_and_headers_frame (tail : bytes) (p p1 : stla_http_s)
  (v : bytes) (ok : bool) :
  parse_request_and_headers tail p v = (p1, ok) ->
  state p1 = state p /\ async_buffer p1 = async_buffer p
  /\ trace p1 = trace p /\ pool_member p1 = pool_member p
  /\ chunk_body_cache p1 = chunk_body_cache p.
Proof.
  intros H.
  destruct (parse_request_and_headers_scan tail p v)
    as (p0 & rl & E & _ & Hs & Ha & Ht & Hm & Hc).
  rewrite E in H. injection H as <- _.
  destruct (scan_request_line_shape tail p0 rl) as (m & u & k & ->).
  simpl. auto.
Qed.

Lemma try_advance_shape (p : stla_http_s) (q : pull) :
  exists h, try_advance p q = Return (set_async p h)
            \/ try_advance p q = Next (set_async p h).
Proof.
  unfold try_advance. destruct (advance (async_buffer p) q) as [[|] h];
    exists h; auto.
Qed.

Ltac split_flow :=
  repeat match goal with
  | |- context [try_advance ?p ?q] =>
      let h := fresh "h" in
      destruct (try_advance_shape p q) as [h [-> | ->]]
  | |- context [match ?x with _ => _ end] => destruct x eqn:?
  end.

Section PoolMember.

Variable region_tail : bytes.
Variable g : stla_http_group_s.
Variable c : Z.

Let keeps (p : stla_http_s) : Prop := pool_member p = c.

Lemma keeps_headers p : keeps p -> flow_sat keeps (blk_headers region_tail p).
Proof.
  unfold keeps, blk_headers. intros Hp.
  destruct (has_state p http_state_reading_headers); [|exact Hp].
  destruct (parse_request_and_headers region_tail p (view p)) as [p1 ok] eqn:E.
  apply parse_request_and_headers_frame in E as (_ & _ & _ & Hm & _).
  split_flow; simpl; congruence.
Qed.

Lemma keeps_whole_body p : keeps p -> flow_sat keeps (blk_whole_body p).
Proof. unfold keeps, blk_whole_body. intros Hp. split_flow; simpl; auto. Qed.

Lemma keeps_chunk_size p : keeps p -> flow_sat keeps (blk_chunk_size p).
Proof. unfold keeps, blk_chunk_size. intros Hp. split_flow; simpl; auto. Qed.

Lemma keeps_chunk_data p : keeps p -> flow_sat keeps (blk_chunk_data g p).
Proof.
  unfold keeps, blk_chunk_data, stla_buffer_append. intros Hp.
  destruct (has_state p http_state_reading_chunk_data); [|exact Hp].
  cbv zeta.
  destruct (on_body_chunk_set g),
           (bytes_at (view p) ((view_length p - 2) mod 2 ^ 64));
    try exact I; split_flow; simpl; auto.
Qed.

Lemma keeps_footer_line p :
  keeps p -> has_state p http_state_reading_footers = true ->
  flow_sat keeps (try_advance p (need_string crlf)).
Proof. unfold keeps. intros Hp _. split_flow; simpl; auto. Qed.

Lemma keeps_end p :
  keeps p -> has_state p http_state_reading_footers = true ->
  keeps (end_of_transmission p).
Proof.
  unfold keeps, end_of_transmission. intros Hp _.
  simpl. destruct (chunk_body_cache p); simpl; auto.
Qed.

Lemma keeps_on_data fuel p r :
  keeps p -> on_data region_tail fuel g p = Some r -> keeps r.
Proof.
  apply on_data_invariant;
    auto using keeps_headers, keeps_whole_body, keeps_chunk_size,
               keeps_chunk_data, keeps_footer_line, keeps_end.
Qed.

Lemma keeps_deliver fuel p r :
  keeps p -> deliver region_tail fuel g p = Some r -> keeps r.
Proof.
  revert p; induction fuel as [|f IH]; intros p Hp; cbn [deliver];
    [discriminate|].
  destruct (pending (async_buffer p)) as [q|]; [|now intros [= <-]].
  destruct (satisfy q (unread (async_buffer p))) as [[v rest]|];
    [|now intros [= <-]].
  destruct (on_data region_tail (S (List.length rest)) g
              (set_async p (mk_async rest None v))) as [p'|] eqn:E;
    [|discriminate].
  apply IH. eapply keeps_on_data; [|exact E]. exact Hp.
Qed.

End PoolMember.

Lemma stla_http_parse_pool_member (tail : bytes) (g : stla_http_group_s)
  (p p' : stla_http_s) (d : bytes) :
  stla_http_parse tail g p d = Some p' -> pool_member p' = pool_member p.
Proof.
  unfold stla_http_parse, stla_async_buffer_parse.
  destruct (has_state p http_state_read_complete).
  - now intros [= <-].
  - intros H. eapply keeps_deliver with (c := pool_member p); [|exact H].
    reflexivity.
Qed.

(** ** The parser pool *)

Lemma filter_length_middle (A : Type) (f : A -> bool) (l1 l2 : list A)
  (x : A) :
  List.length (filter f (l1 ++ x :: l2))
  = ((if f x then 1 else 0) + List.length (filter f (l1 ++ l2)))%nat.
Proof.
  rewrite !filter_app, !length_app. simpl.
  destruct (f x); simpl; lia.
Qed.

Lemma filter_length_inner (A : Type) (f : A -> bool) (l0 l1 l2 : list A)
  (x : A) :
  List.length (filter f (l0 ++ l1 ++ x :: l2))
  = ((if f x then 1 else 0) + List.length (filter f (l0 ++ l1 ++ l2)))%nat.
Proof.
  rewrite !app_assoc. apply filter_length_middle.
Qed.

Lemma stla_http_init_pool_member (block : stla_http_s)
  (g : stla_http_group_s) :
  pool_member (fst (stla_http_init block g))
  = match parser_pool g with
    | r :: _ => pool_member r
    | [] => if (pool_size g + 1) mod 2 ^ 32 <? max_parser_group
            then 1 else 0
    end.
Proof.
  unfold stla_http_init.
  destruct (parser_pool g) as [|r rest].
  - destruct ((pool_size g + 1) mod 2 ^ 32 <? max_parser_group); reflexivity.
  - simpl.
    destruct (stla_async_buffer_advance_to_string (async_buffer r) crlfcrlf);
      reflexivity.
Qed.

Lemma stla_http_init_group (block : stla_http_s) (g : stla_http_group_s) :
  snd (stla_http_init block g)
  = match parser_pool g with
    | _ :: rest => mk_group rest (pool_size g) (on_body_chunk_set g)
    | [] => if (pool_size g + 1) mod 2 ^ 32 <? max_parser_group
            then mk_group [] ((pool_size g + 1) mod 2 ^ 32)
                          (on_body_chunk_set g)
            else g
    end.
Proof.
  unfold stla_http_init.
  destruct (parser_pool g) as [|r rest].
  - destruct ((pool_size g + 1) mod 2 ^ 32 <? max_parser_group); reflexivity.
  - simpl.
    destruct (stla_async_buffer_advance_to_string (async_buffer r) crlfcrlf);
      reflexivity.
Qed.

Lemma pool_inv_step (s s' : pool_sys) :
  pool_inv s -> pool_step s s' -> pool_inv s'.
Proof.
  intros (Hr & Hm & Hf) Hs. unfold pool_inv, members in *.
  destruct Hs as [s block | s l1 l2 p Hl | s l1 l2 p p' tail d Hl Hp]; simpl.
  - rewrite stla_http_init_group.
    pose proof (stla_http_init_pool_member block (grp s)) as Hpm.
    set (np := fst (stla_http_init block (grp s))) in *.
    destruct (parser_pool (grp s)) as [|r rest] eqn:Ep.
    + unfold max_parser_group in *.
      rewrite Z.mod_small in * by lia.
      destruct (pool_size (grp s) + 1 <? 256) eqn:El.
      * apply Z.ltb_lt in El. simpl. unfold is_member at 1.
        rewrite Hpm. simpl. simpl in Hm. repeat split; try lia.
      * simpl. rewrite Ep. simpl. unfold is_member at 1.
        rewrite Hpm. simpl. simpl in Hm. repeat split; try lia.
    + simpl in *. apply andb_true_iff in Hf as [Hr1 Hf].
      rewrite Hr1 in Hm. simpl in Hm.
      rewrite (filter_length_middle is_member rest (live s) np).
      unfold is_member at 1. rewrite Hpm.
      unfold is_member in Hr1. rewrite Hr1.
      repeat split; try lia. exact Hf.
  - rewrite Hl, filter_length_inner in Hm.
    unfold stla_http_release.
    change (pool_member (set_cache p None)) with (pool_member p).
    unfold is_member in Hm at 1.
    destruct (negb (pool_member p =? 0)) eqn:Em; simpl.
    + assert (Hq : is_member
                (set_async (set_cache p None)
                   (stla_async_buffer_clear (async_buffer p))) = true)
        by exact Em.
      rewrite Hq. simpl. repeat split; try lia. exact Hf.
    + repeat split; try lia. exact Hf.
  - rewrite Hl, filter_length_inner in Hm.
    rewrite filter_length_inner.
    unfold is_member at 1. unfold is_member in Hm at 1.
    rewrite (stla_http_parse_pool_member _ _ _ _ Hp).
    repeat split; try lia. exact Hf.
Qed.

Lemma reachable_pool_inv (b : bool) (s : pool_sys) :
  reachable b s -> pool_inv s.
Proof.
  induction 1 as [|s s' _ IH Hs].
  - unfold pool_inv, members. simpl. repeat split; lia.
  - eapply pool_inv_step; eassumption.
Qed.

Lemma reachable_acquire_n (b : bool) (n : nat) :
  exists l, reachable b (mk_sys (acquire_n n (stla_http_group_init b)) l).
Proof.
  induction n as [|k [l IH]].
  - exists []. constructor.
  - eexists. simpl.
    exact (reach_step IH (step_acquire (mk_sys _ l) zero_block)).
Qed.

(** C5, as the code has it: a pool member is built while
    [pool_size + 1 < max_parser_group], that is up to a pool of 255;
    from then on acquisitions with an empty free list build non-pool
    parsers and leave the counter alone.  In every reachable state the
    counter equals the number of pool members in existence and is at
    most 255, hence within the cap of 256. *)
Theorem pool_discipline :
  forall on_body_chunk_given s,
    reachable on_body_chunk_given s ->
    pool_size (grp s) <= 255
    /\ members s = pool_size (grp s)
    /\ members s <= max_parser_group
    /\ (parser_pool (grp s) = [] ->
        forall block,
          let r := stla_http_init block (grp s) in
          if pool_size (grp s) + 1 <? max_parser_group
          then pool_member (fst r) = 1
               /\ pool_size (snd r) = pool_size (grp s) + 1
               /\ parser_pool (snd r) = []
          else pool_member (fst r) = 0 /\ snd r = grp s).
Proof.
  intros b s Hs. destruct (reachable_pool_inv Hs) as (Hr & Hm & _).
  unfold max_parser_group.
  split; [lia|]. split; [exact Hm|]. split; [lia|].
  intros Hp block.
  rewrite stla_http_init_pool_member, stla_http_init_group, Hp.
  unfold max_parser_group. rewrite Z.mod_small by lia.
  destruct (pool_size (grp s) + 1 <? 256); repeat split.
Qed.

Lemma pool_discipline_witness :
  reachable false (mk_sys (stla_http_group_init false) [])
  /\ pool_size (stla_http_group_init false) <= 255
  /\ pool_member (fst (stla_http_init zero_block
                         (stla_http_group_init false))) = 1.
Proof.
  assert (H : reachable false (mk_sys (stla_http_group_init false) []))
    by constructor.
  split; [exact H|].
  destruct (pool_discipline H) as (Hle & _ & _ & Hacq).
  split; [exact Hle|].
  exact (proj1 (Hacq eq_refl zero_block)).
Defined.

(** C5 as stated fails at a pool of 255: the free list is empty and
    [pool_size] is below [max_parser_group], yet the parser that is
    built is not a pool member and the counter stays at 255. *)
Lemma acquire_at_255_builds_non_member :
  let g := acquire_n 255 (stla_http_group_init false) in
  (exists l, reachable false (mk_sys g l))
  /\ parser_pool g = []
  /\ pool_size g = 255
  /\ pool_size g < max_parser_group
  /\ pool_member (fst (stla_http_init zero_block g)) = 0
  /\ pool_size (snd (stla_http_init zero_block g)) = 255.
Proof.
  split; [apply reachable_acquire_n|].
  vm_compute. repeat split; reflexivity.
Qed.

(** ** Dispatch on the body after the headers *)

Lemma scan_digits_decimal (ds : bytes) (acc : Z) :
  forallb isdigit ds = true ->
  scan_digits ds acc
  = fold_left (fun a c => 10 * a + digit_val c) ds acc.
Proof.
  revert acc; induction ds as [|c r IH]; intros acc H; simpl in *;
    [reflexivity|].
  apply andb_true_iff in H as [Hc Hr]. rewrite Hc. now apply IH.
Qed.

Lemma isdigit_not_space (c : ascii) : isdigit c = true -> isspace c = false.
Proof.
  unfold isdigit, isspace, SP. intros H.
  apply andb_true_iff in H as [H1 H2].
  apply Nat.leb_le in H1. apply Nat.leb_le in H2.
  destruct (Ascii.eqb c " "%char) eqn:E.
  - apply Ascii.eqb_eq in E. subst c. vm_compute in H1. lia.
  - simpl. apply andb_false_iff. right. apply Nat.leb_gt. lia.
Qed.

Lemma isdigit_not_sign (c : ascii) :
  isdigit c = true ->
  Ascii.eqb c "-"%char = false /\ Ascii.eqb c "+"%char = false.
Proof.
  unfold isdigit. intros H.
  apply andb_true_iff in H as [H1 H2].
  apply Nat.leb_le in H1.
  split; apply Ascii.eqb_neq; intros ->; vm_compute in H1; lia.
Qed.

Lemma sscanf_unsigned_decimal (ds : bytes) :
  ds <> [] -> forallb isdigit ds = true -> decimal ds <= UINT64_MAX ->
  sscanf_unsigned ds = Some (decimal ds).
Proof.
  intros Hne Hd Hle. destruct ds as [|c r]; [congruence|].
  pose proof Hd as Hd'. simpl in Hd'.
  apply andb_true_iff in Hd' as [Hc _].
  unfold sscanf_unsigned. simpl skip_space.
  rewrite (isdigit_not_space c Hc).
  destruct (isdigit_not_sign c Hc) as [-> ->].
  unfold convert_unsigned. simpl starts_with_digit. rewrite Hc.
  rewrite scan_digits_decimal by exact Hd.
  fold (decimal (c :: r)).
  destruct (UINT64_MAX <? decimal (c :: r)) eqn:E; [|reflexivity].
  apply Z.ltb_lt in E. lia.
Qed.

Lemma convert_unsigned_none (neg : bool) (s : bytes) :
  starts_with_digit s = false -> convert_unsigned neg s = None.
Proof. unfold convert_unsigned. now intros ->. Qed.

Lemma sscanf_unsigned_no_digit (v : bytes) :
  existsb isdigit v = false -> sscanf_unsigned v = None.
Proof.
  intros H. unfold sscanf_unsigned.
  assert (Hs : existsb isdigit (skip_space v) = false).
  { induction v as [|c r IH]; simpl in *; [reflexivity|].
    apply orb_false_iff in H as [Hc Hr].
    destruct (isspace c); [now apply IH|]. simpl. now rewrite Hc, Hr. }
  destruct (skip_space v) as [|c r]; [reflexivity|].
  simpl in Hs. apply orb_false_iff in Hs as [Hc Hr].
  assert (Hr' : starts_with_digit r = false).
  { destruct r as [|x y]; [reflexivity|]. simpl in *.
    now apply orb_false_iff in Hr as [-> _]. }
  rewrite !convert_unsigned_none by (simpl; assumption).
  destruct (Ascii.eqb c "-"%char), (Ascii.eqb c "+"%char); reflexivity.
Qed.


Lemma has_state_eq (p : stla_http_s) (s bit : Z) :
  state p = s -> has_state p bit = negb (Z.land s bit =? 0).
Proof. unfold has_state. now intros ->. Qed.

Lemma param_header_headers (p q : stla_http_s) (key : bytes)
  (d : option bytes) :
  headers p = headers q ->
  stla_http_param_header p key d = stla_http_param_header q key d.
Proof.
  unfold stla_http_param_header, get_header_param. now intros ->.
Qed.

(** [blk_headers] after a successful parse of the request line. *)
Lemma blk_headers_accepted (tail : bytes) (p p1 : stla_http_s) :
  state p = http_state_reading_headers ->
  parse_request_and_headers tail p (view p) = (p1, true) ->
  blk_headers tail p
  = let p2 := emit (set_state p1 0) on_headers in
    if negb (content_length_of p1 =? 0) then
      try_advance (set_state p2 http_state_reading_whole_body)
                  (need_bytes (content_length_of p1))
    else if is_chunked (transfer_encoding_of p1) then
      try_advance (set_state p2 http_state_reading_chunk_size)
                  (need_string crlf)
    else Return (emit (set_state p2 http_state_read_complete)
                      (on_request_end None 0)).
Proof.
  intros Hs Hp. unfold blk_headers.
  rewrite (has_state_eq p http_state_reading_headers Hs).
  change (negb (Z.land http_state_reading_headers
                       http_state_reading_headers =? 0)) with true.
  cbv iota. rewrite Hp.
  destruct (parse_request_and_headers_frame _ _ _ Hp) as (Hs1 & _).
  cbv beta iota zeta. change (negb true) with false. cbv iota.
  cbn [state set_state emit].
  rewrite Hs1, Hs.
  change (Z.lxor http_state_reading_headers http_state_reading_headers)
    with 0.
  unfold content_length_of, transfer_encoding_of.
  rewrite (param_header_headers (emit (set_state p1 0) on_headers) p1)
    by reflexivity.
  rewrite (param_header_headers (emit (set_state p1 0) on_headers) p1)
    by reflexivity.
  reflexivity.
Qed.



(** ** The cascade performs the steps of the machine *)

Section Refinement.

Variable region_tail : bytes.
Variable g : stla_http_group_s.

Lemma blk_headers_skip p :
  reading (state p) -> state p <> http_state_reading_headers ->
  blk_headers region_tail p = Next p.
Proof.
  unfold blk_headers, has_state.
  intros [H|[H|[H|[H|H]]]] Hn; rewrite H in *; try congruence; reflexivity.
Qed.

Lemma blk_whole_body_skip p :
  reading (state p) -> state p <> http_state_reading_whole_body ->
  blk_whole_body p = Next p.
Proof.
  unfold blk_whole_body, has_state.
  intros [H|[H|[H|[H|H]]]] Hn; rewrite H in *; try congruence; reflexivity.
Qed.

Lemma blk_chunk_size_skip p :
  reading (state p) -> state p <> http_state_reading_chunk_size ->
  blk_chunk_size p = Next p.
Proof.
  unfold blk_chunk_size, has_state.
  intros [H|[H|[H|[H|H]]]] Hn; rewrite H in *; try congruence; reflexivity.
Qed.

Lemma blk_chunk_data_skip p :
  reading (state p) -> state p <> http_state_reading_chunk_data ->
  blk_chunk_data g p = Next p.
Proof.
  unfold blk_chunk_data, has_state.
  intros [H|[H|[H|[H|H]]]] Hn; rewrite H in *; try congruence; reflexivity.
Qed.

Lemma blk_footers_skip fuel p :
  reading (state p) -> state p <> http_state_reading_footers ->
  blk_footers (S fuel) p = Next p.
Proof.
  cbn [blk_footers]. unfold has_state.
  intros [H|[H|[H|[H|H]]]] Hn; rewrite H in *; try congruence; reflexivity.
Qed.

Lemma blk_headers_plan p :
  state p = http_state_reading_headers ->
  blk_headers region_tail p = exec (plan region_tail g p).
Proof.
  intros Hs. unfold plan. rewrite Hs. cbn [Z.eqb http_state_reading_headers].
  change (http_state_reading_headers =? http_state_reading_headers) with true.
  cbv iota.
  destruct (parse_request_and_headers region_tail p (view p)) as [p1 [|]] eqn:E.
  - rewrite (blk_headers_accepted region_tail p Hs E).
    cbv zeta. cbn [negb].
    destruct (negb (content_length_of p1 =? 0)); [reflexivity|].
    destruct (is_chunked (transfer_encoding_of p1)); reflexivity.
  - unfold blk_headers.
    rewrite (has_state_eq p http_state_reading_headers Hs). rewrite E.
    destruct (parse_request_and_headers_frame _ _ _ E) as (Hs1 & _).
    cbn. rewrite Hs1, Hs. reflexivity.
Qed.

Lemma blk_whole_body_plan p :
  state p = http_state_reading_whole_body ->
  blk_whole_body p = exec (plan region_tail g p).
Proof.
  intros Hs. unfold plan, blk_whole_body.
  rewrite (has_state_eq p http_state_reading_whole_body Hs), Hs.
  cbn. rewrite Hs. reflexivity.
Qed.

Lemma blk_chunk_size_plan p :
  state p = http_state_reading_chunk_size ->
  blk_chunk_size p = exec (plan region_tail g p).
Proof.
  intros Hs. unfold plan, blk_chunk_size.
  rewrite (has_state_eq p http_state_reading_chunk_size Hs), Hs.
  change (negb (Z.land http_state_reading_chunk_size
                       http_state_reading_chunk_size =? 0)) with true.
  change (http_state_reading_chunk_size =? http_state_reading_headers)
    with false.
  change (http_state_reading_chunk_size =? http_state_reading_whole_body)
    with false.
  change (http_state_reading_chunk_size =? http_state_reading_chunk_size)
    with true.
  cbv iota.
  destruct (sscanf_unsigned (collect_xdigits 63 (view p))) as [n|];
    [destruct (0 <? n)|]; reflexivity.
Qed.

Lemma blk_chunk_data_plan p :
  state p = http_state_reading_chunk_data ->
  blk_chunk_data g p = exec (plan region_tail g p).
Proof.
  intros Hs. unfold plan, blk_chunk_data.
  rewrite (has_state_eq p http_state_reading_chunk_data Hs), Hs.
  change (negb (Z.land http_state_reading_chunk_data
                       http_state_reading_chunk_data =? 0)) with true.
  change (http_state_reading_chunk_data =? http_state_reading_headers)
    with false.
  change (http_state_reading_chunk_data =? http_state_reading_whole_body)
    with false.
  change (http_state_reading_chunk_data =? http_state_reading_chunk_size)
    with false.
  change (http_state_reading_chunk_data =? http_state_reading_chunk_data)
    with true.
  cbv iota zeta. unfold take_chunk, chunk_length, stla_buffer_append.
  destruct (bytes_at (view p) ((view_length p - 2) mod 2 ^ 64)) as [c|];
    destruct (on_body_chunk_set g); cbn [state emit set_cache exec];
    try rewrite Hs; reflexivity.
Qed.

Lemma blk_footers_plan fuel p :
  state p = http_state_reading_footers ->
  blk_footers (S fuel) p = exec (plan region_tail g p) >>= blk_footers fuel.
Proof.
  intros Hs. unfold plan. cbn [blk_footers].
  rewrite (has_state_eq p http_state_reading_footers Hs), Hs.
  change (negb (Z.land http_state_reading_footers
                       http_state_reading_footers =? 0)) with true.
  change (http_state_reading_footers =? http_state_reading_headers)
    with false.
  change (http_state_reading_footers =? http_state_reading_whole_body)
    with false.
  change (http_state_reading_footers =? http_state_reading_chunk_size)
    with false.
  change (http_state_reading_footers =? http_state_reading_chunk_data)
    with false.
  change (http_state_reading_footers =? http_state_reading_footers)
    with true.
  cbv iota.
  destruct (0 <? view_length p); reflexivity.
Qed.

End Refinement.

(** ** The machine does not look at the unread bytes *)

Lemma scan_request_line_set_async (tail : bytes) (p : stla_http_s)
  (h : stla_async_buffer_s) (rl : bytes) :
  scan_request_line tail (set_async p h) rl
  = set_async (scan_request_line tail p rl) h.
Proof.
  unfold scan_request_line.
  set (mem := rl ++ NUL :: tail).
  set (mem1 := poke mem (skip_token mem (skip_ws mem 0)) NUL).
  set (u := skip_ws mem1 (S (skip_token mem (skip_ws mem 0)))).
  destruct (strrchr (string_at mem1 u) SP) as [s|];
    destruct (strrchr (string_at mem1 u) TAB) as [t|];
    try destruct (s <? t)%nat; reflexivity.
Qed.

Lemma parse_request_and_headers_set_async (tail : bytes) (p : stla_http_s)
  (h : stla_async_buffer_s) (v : bytes) :
  parse_request_and_headers tail (set_async p h) v
  = (set_async (fst (parse_request_and_headers tail p v)) h,
     snd (parse_request_and_headers tail p v)).
Proof.
  unfold parse_request_and_headers.
  destruct (memmem v crlf) as [k|]; cbn [fst snd].
  - change (set_headers (set_async p h)
              (header_lines (List.length v) (skipn (k + 2) v)))
      with (set_async
              (set_headers p (header_lines (List.length v) (skipn (k + 2) v)))
              h).
    rewrite scan_request_line_set_async. reflexivity.
  - rewrite scan_request_line_set_async. reflexivity.
Qed.

Section Independence.

Variable region_tail : bytes.
Variable g : stla_http_group_s.

Lemma bytes_at_none (d : bytes) (n : Z) :
  bytes_at d n = None <-> zlen d < n.
Proof.
  unfold bytes_at. destruct (n <=? zlen d) eqn:E.
  - apply Z.leb_le in E. split; [discriminate|lia].
  - apply Z.leb_gt in E. split; [intros _; exact E|reflexivity].
Qed.

Lemma plan_keeps_reader (p p1 : stla_http_s) (o : option pull) :
  plan region_tail g p = Some (p1, o) -> async_buffer p1 = async_buffer p.
Proof.
  unfold plan.
  destruct (state p =? http_state_reading_headers).
  - destruct (parse_request_and_headers region_tail p (view p))
      as [q1 ok] eqn:E.
    apply parse_request_and_headers_frame in E as (_ & Ha & _).
    destruct (negb ok); [intros [= <- <-]; exact Ha|]. cbv zeta.
    destruct (negb (content_length_of q1 =? 0));
      [intros [= <- <-]; exact Ha|].
    destruct (is_chunked (transfer_encoding_of q1));
      intros [= <- <-]; exact Ha.
  - destruct (state p =? http_state_reading_whole_body);
      [intros [= <- <-]; reflexivity|].
    destruct (state p =? http_state_reading_chunk_size).
    { destruct (sscanf_unsigned (collect_xdigits 63 (view p))) as [n|];
        [destruct (0 <? n)|]; intros [= <- <-]; reflexivity. }
    destruct (state p =? http_state_reading_chunk_data).
    { destruct (bytes_at (view p) (chunk_length p)) as [c|]; [|discriminate].
      intros [= <- <-]. unfold take_chunk.
      destruct (on_body_chunk_set g); reflexivity. }
    destruct (state p =? http_state_reading_footers);
      [|intros [= <- <-]; reflexivity].
    destruct (0 <? view_length p); intros [= <- <-]; [reflexivity|].
    unfold end_of_transmission. cbn.
    destruct (chunk_body_cache p); reflexivity.
Qed.


End Independence.

(** ** Steps of the machine *)

Ltac eval_tests :=
  repeat match goal with
  | |- context [Z.eqb ?a ?b] =>
      let v := eval vm_compute in (Z.eqb a b) in
      match v with
      | true => change (Z.eqb a b) with true
      | false => change (Z.eqb a b) with false
      end
  end; cbv iota.

Ltac plan_cases p Hr :=
  unfold plan;
  destruct Hr as [Hr|[Hr|[Hr|[Hr|Hr]]]]; rewrite Hr; eval_tests.

Section Steps.

Variable region_tail : bytes.
Variable g : stla_http_group_s.

Lemma plan_step (p p1 : stla_http_s) (o : option pull) :
  reading (state p) -> plan region_tail g p = Some (p1, o) ->
  match o with
  | None => state p1 = http_state_read_complete
  | Some q => follows (state p) q (state p1)
  end.
Proof.
  intros Hr. pose proof Hr as Hr'. unfold follows.
  plan_cases p Hr.
  - destruct (parse_request_and_headers region_tail p (view p))
      as [q1 ok] eqn:E.
    destruct ok; cbn [negb]; cbv iota zeta.
    + destruct (negb (content_length_of q1 =? 0)).
      { intros [= <- <-]. left. split; reflexivity. }
      destruct (is_chunked (transfer_encoding_of q1)).
      { intros [= <- <-]. right. left. repeat split. }
      intros [= <- <-]. reflexivity.
    + intros [= <- <-]. reflexivity.
  - intros [= <- <-]. reflexivity.
  - destruct (sscanf_unsigned (collect_xdigits 63 (view p))) as [n|].
    + destruct (0 <? n); intros [= <- <-].
      * right. right. left. split; reflexivity.
      * right. right. right. left. repeat split.
    + intros [= <- <-]. reflexivity.
  - destruct (bytes_at (view p) (chunk_length p)) as [c|]; [|discriminate].
    intros [= <- <-].
    do 4 right. left. repeat split.
  - destruct (0 <? view_length p); intros [= <- <-].
    + do 5 right. repeat split; assumption.
    + unfold end_of_transmission. cbn.
      destruct (chunk_body_cache p); cbn; rewrite Hr; reflexivity.
Qed.

(** The step faults in ReadingChunkData only, on a view shorter than
    the chunk length. *)
Lemma plan_none (p : stla_http_s) :
  reading (state p) ->
  (plan region_tail g p = None
   <-> state p = http_state_reading_chunk_data
       /\ view_length p < chunk_length p).
Proof.
  intros Hr. pose proof Hr as Hr'.
  plan_cases p Hr.
  - split; [|intros [[=] _]].
    destruct (parse_request_and_headers region_tail p (view p)) as [q1 ok].
    destruct (negb ok); [discriminate|]. cbv zeta.
    destruct (negb (content_length_of q1 =? 0)); [discriminate|].
    destruct (is_chunked (transfer_encoding_of q1)); discriminate.
  - split; [discriminate|intros [[=] _]].
  - split; [|intros [[=] _]].
    destruct (sscanf_unsigned (collect_xdigits 63 (view p))) as [n|];
      [destruct (0 <? n)|]; discriminate.
  - destruct (bytes_at (view p) (chunk_length p)) as [c|] eqn:E.
    + split; [discriminate|]. intros [_ H].
      assert (E' : bytes_at (view p) (chunk_length p) = None)
        by (apply bytes_at_none; exact H).
      congruence.
    + split; [|reflexivity]. intros _. split; [reflexivity|].
      now apply bytes_at_none.
  - split; [|intros [[=] _]].
    destruct (0 <? view_length p); discriminate.
Qed.

Lemma follows_reading (s s' : Z) (q : pull) :
  follows s q s' -> reading s' /\ reading s.
Proof.
  unfold follows, reading.
  intros [(-> & ->)|[(-> & -> & _)|[(-> & ->)|[(-> & -> & _)|
         [(-> & -> & _)|(-> & -> & _)]]]]]; split; tauto.
Qed.

End Steps.

(** ** The reader: satisfied pulls stay satisfied *)

Lemma is_prefix_length (d u : bytes) :
  is_prefix d u = true -> (List.length d <= List.length u)%nat.
Proof.
  revert u; induction d as [|x d IH]; intros [|y u]; simpl; try lia;
    try discriminate.
  intros H. apply andb_true_iff in H as [_ H]. apply IH in H. lia.
Qed.

Lemma is_prefix_app (d u b : bytes) :
  is_prefix d u = true -> is_prefix d (u ++ b) = true.
Proof.
  revert u; induction d as [|x d IH]; intros [|y u]; simpl; auto;
    try discriminate.
  intros H. apply andb_true_iff in H as [-> H]. simpl. now apply IH.
Qed.

Lemma is_prefix_false_app (d u b : bytes) :
  is_prefix d u = false -> (List.length d <= List.length u)%nat ->
  is_prefix d (u ++ b) = false.
Proof.
  revert u; induction d as [|x d IH]; intros [|y u]; simpl; try discriminate;
    try lia.
  intros H Hl. apply andb_false_iff in H as [H|H].
  - now rewrite H.
  - rewrite IH; [apply andb_false_r|exact H|lia].
Qed.

Lemma memmem_bound (u d : bytes) (k : nat) :
  memmem u d = Some k -> (k + List.length d <= List.length u)%nat.
Proof.
  revert k; induction u as [|y u IH]; intros k; simpl.
  - destruct (is_prefix d []) eqn:E; [|discriminate].
    intros [= <-]. apply is_prefix_length in E. simpl in *. lia.
  - destruct (is_prefix d (y :: u)) eqn:E.
    + intros [= <-]. apply is_prefix_length in E. simpl in *. lia.
    + destruct (memmem u d) as [j|]; [|discriminate].
      intros [= <-]. specialize (IH j eq_refl). lia.
Qed.

Lemma memmem_app (u d b : bytes) (k : nat) :
  memmem u d = Some k -> memmem (u ++ b) d = Some k.
Proof.
  revert k; induction u as [|y u IH]; intros k H.
  - simpl in H. destruct (is_prefix d []) eqn:E; [|discriminate].
    injection H as <-. destruct d; [|discriminate].
    destruct b; reflexivity.
  - pose proof (memmem_bound _ _ H) as Hb.
    simpl in H. simpl app. cbn [memmem].
    destruct (is_prefix d (y :: u)) eqn:E.
    + injection H as <-.
      change (y :: u ++ b) with ((y :: u) ++ b).
      now rewrite is_prefix_app.
    + change (y :: u ++ b) with ((y :: u) ++ b).
      rewrite is_prefix_false_app; [|exact E|lia].
      destruct (memmem u d) as [j|]; [|discriminate].
      injection H as <-. now rewrite (IH j eq_refl).
Qed.

Lemma is_prefix_firstn (d l : bytes) :
  is_prefix d l = true -> firstn (List.length d) l = d.
Proof.
  revert l; induction d as [|x d IH]; intros [|z l]; simpl;
    try discriminate; try reflexivity.
  intros H. apply andb_true_iff in H as [Hx Hd].
  apply Ascii.eqb_eq in Hx. subst z. f_equal. now apply IH.
Qed.

Lemma memmem_at (u d : bytes) (k : nat) :
  memmem u d = Some k -> firstn (List.length d) (skipn k u) = d.
Proof.
  revert k; induction u as [|y u IH]; intros k; cbn [memmem].
  - destruct (is_prefix d []) eqn:P; [|discriminate].
    intros [= <-]. now apply is_prefix_firstn.
  - destruct (is_prefix d (y :: u)) eqn:P.
    + intros [= <-]. now apply is_prefix_firstn.
    + destruct (memmem u d) as [j|]; [|discriminate].
      intros [= <-]. cbn [skipn]. now apply IH.
Qed.

(** What a satisfied pull has consumed: the view, and for a pull by
    delimiter the delimiter behind it. *)
Lemma satisfy_split (q : pull) (u v rest : bytes) :
  satisfy q u = Some (v, rest) ->
  u = v ++ match q with
           | need_bytes _ => []
           | need_string d => d
           end ++ rest.
Proof.
  destruct q as [n|d]; simpl.
  - destruct (n <=? zlen u); [|discriminate].
    intros [= <- <-]. symmetry. apply firstn_skipn.
  - destruct (memmem u d) as [k|] eqn:E; [|discriminate].
    intros [= <- <-].
    rewrite <- (firstn_skipn k u) at 1. f_equal.
    rewrite <- (firstn_skipn (List.length d) (skipn k u)) at 1.
    rewrite skipn_skipn, (Nat.add_comm (List.length d) k). f_equal.
    now apply memmem_at.
Qed.

Lemma satisfy_shorter (q : pull) (u v rest : bytes) :
  satisfy q u = Some (v, rest) -> (List.length rest <= List.length u)%nat.
Proof.
  intros H. apply satisfy_split in H. subst u. rewrite !length_app. lia.
Qed.

Lemma satisfy_crlf_shorter (u v rest : bytes) :
  satisfy (need_string crlf) u = Some (v, rest) ->
  (List.length rest + 2 <= List.length u)%nat.
Proof.
  intros H. apply satisfy_split in H. subst u.
  rewrite !length_app. cbn [List.length crlf]. lia.
Qed.


(** ** One turn of the loop, by state *)

Section Turns.

Variable region_tail : bytes.
Variable g : stla_http_group_s.

Lemma exec_done (p1 : stla_http_s) : exec (Some (p1, None)) = Return p1.
Proof. reflexivity. Qed.

Lemma exec_wait (p1 : stla_http_s) (q : pull) :
  satisfy q (unread (async_buffer p1)) = None ->
  exec (Some (p1, Some q)) = Return (waiting p1 q).
Proof.
  intros H. unfold exec, try_advance, advance. now rewrite H.
Qed.

Lemma exec_more (p1 : stla_http_s) (q : pull) (v rest : bytes) :
  satisfy q (unread (async_buffer p1)) = Some (v, rest) ->
  exec (Some (p1, Some q)) = Next (handed p1 v rest).
Proof.
  intros H. unfold exec, try_advance, advance. now rewrite H.
Qed.

(** The cascade from the test that matches the state on. *)
Lemma turn_from_state (fuel : nat) (p : stla_http_s) :
  reading (state p) ->
  turn region_tail (S fuel) g p
  = if state p =? http_state_reading_headers then
      exec (plan region_tail g p) >>= blk_whole_body >>= blk_chunk_size
      >>= blk_chunk_data g >>= blk_footers (S fuel)
    else if state p =? http_state_reading_whole_body then
      exec (plan region_tail g p) >>= blk_chunk_size
      >>= blk_chunk_data g >>= blk_footers (S fuel)
    else if state p =? http_state_reading_chunk_size then
      exec (plan region_tail g p) >>= blk_chunk_data g
      >>= blk_footers (S fuel)
    else if state p =? http_state_reading_chunk_data then
      exec (plan region_tail g p) >>= blk_footers (S fuel)
    else exec (plan region_tail g p) >>= blk_footers fuel.
Proof.
  intros Hr. unfold turn. pose proof Hr as Hr'.
  destruct Hr as [H|[H|[H|[H|H]]]].
  - rewrite (blk_headers_plan region_tail g p H), H. reflexivity.
  - rewrite blk_headers_skip by (auto; rewrite H; discriminate).
    cbn [bind]. rewrite (blk_whole_body_plan region_tail g p H), H.
    reflexivity.
  - rewrite blk_headers_skip by (auto; rewrite H; discriminate).
    cbn [bind]. rewrite blk_whole_body_skip by (auto; rewrite H; discriminate).
    cbn [bind]. rewrite (blk_chunk_size_plan region_tail g p H), H.
    reflexivity.
  - rewrite blk_headers_skip by (auto; rewrite H; discriminate).
    cbn [bind]. rewrite blk_whole_body_skip by (auto; rewrite H; discriminate).
    cbn [bind]. rewrite blk_chunk_size_skip by (auto; rewrite H; discriminate).
    cbn [bind]. rewrite (blk_chunk_data_plan region_tail g p H), H.
    reflexivity.
  - rewrite blk_headers_skip by (auto; rewrite H; discriminate).
    cbn [bind]. rewrite blk_whole_body_skip by (auto; rewrite H; discriminate).
    cbn [bind]. rewrite blk_chunk_size_skip by (auto; rewrite H; discriminate).
    cbn [bind]. rewrite blk_chunk_data_skip by (auto; rewrite H; discriminate).
    cbn [bind]. rewrite (blk_footers_plan region_tail g fuel p H), H.
    reflexivity.
Qed.

Lemma turn_returns (fuel : nat) (p r : stla_http_s) :
  reading (state p) ->
  exec (plan region_tail g p) = Return r ->
  turn region_tail (S fuel) g p = Return r.
Proof.
  intros Hr He. rewrite (turn_from_state fuel p Hr), He.
  repeat match goal with |- context [if ?c then _ else _] => destruct c end;
    reflexivity.
Qed.

Lemma turn_continues (fuel : nat) (p p2 : stla_http_s) :
  reading (state p) ->
  exec (plan region_tail g p) = Next p2 ->
  reading (state p2) ->
  (state p = http_state_reading_headers ->
   state p2 <> http_state_reading_headers) ->
  (state p = http_state_reading_chunk_size ->
   state p2 = http_state_reading_chunk_data
   \/ state p2 = http_state_reading_footers) ->
  (state p = http_state_reading_chunk_data ->
   state p2 = http_state_reading_chunk_size) ->
  (state p = http_state_reading_footers ->
   state p2 = http_state_reading_footers) ->
  state p <> http_state_reading_whole_body ->
  if (state p =? http_state_reading_chunk_data)
  then turn region_tail (S fuel) g p = Next p2
  else if (state p =? http_state_reading_footers)
  then turn region_tail (S fuel) g p = blk_footers fuel p2
  else turn region_tail (S fuel) g p = turn region_tail (S fuel) g p2.
Proof.
  intros Hr He Hr2 H1 H2 H3 H4 H5.
  rewrite (turn_from_state fuel p Hr), He.
  destruct Hr as [H|[H|[H|[H|H]]]]; rewrite H; eval_tests; cbn [bind].
  - specialize (H1 H). unfold turn.
    rewrite blk_headers_skip by assumption. reflexivity.
  - congruence.
  - unfold turn.
    rewrite blk_headers_skip
      by (auto; destruct (H2 H) as [-> | ->]; discriminate).
    cbn [bind].
    rewrite blk_whole_body_skip
      by (auto; destruct (H2 H) as [-> | ->]; discriminate).
    cbn [bind].
    rewrite blk_chunk_size_skip
      by (auto; destruct (H2 H) as [-> | ->]; discriminate).
    reflexivity.
  - rewrite blk_footers_skip by (auto; rewrite (H3 H); discriminate).
    reflexivity.
  - reflexivity.
Qed.

End Turns.

(** ** [on_data] computes the runs of the machine *)

Section Completeness.

Variable region_tail : bytes.
Variable g : stla_http_group_s.

Lemma on_data_unfold (fuel : nat) (p : stla_http_s) :
  on_data region_tail (S fuel) g p
  = match turn region_tail (S fuel) g p with
    | Return p' => Some p'
    | Next p' => on_data region_tail fuel g p'
    | Spin | Fault => None
    end.
Proof. reflexivity. Qed.

Ltac by_transition Hfo E E' Hq Ht :=
  unfold follows in Hfo;
  destruct Hfo as [(E & E')|[(E & E' & Hq)|[(E & E')|[(E & E' & Hq)|
                   [(E & E' & Hq)|(E & E' & Hq)]]]]];
    rewrite E in Ht; revert Ht; eval_tests; intros Ht;
    (lapply Ht; [clear Ht; intros Ht|rewrite E'; discriminate]);
    (lapply Ht; [clear Ht; intros Ht|intros [=]; auto]);
    (lapply Ht; [clear Ht; intros Ht|intros [=]; auto]);
    (lapply Ht; [clear Ht; intros Ht|intros [=]; auto]);
    (lapply Ht; [clear Ht; intros Ht|discriminate]).

Lemma runs_on_data (p r : stla_http_s) :
  runs region_tail g p r ->
  reading (state p) ->
  forall fuel,
    (List.length (unread (async_buffer p)) < fuel)%nat ->
    on_data region_tail fuel g p = Some r
    /\ (state p = http_state_reading_footers ->
        blk_footers fuel p = Return r).
Proof.
  induction 1 as [p p1 Hp | p p1 q Hp Hs | p p1 r q v rest Hp Hs Hrun IH];
    intros Hr [|f] Hf; try lia.
  - assert (He : exec (plan region_tail g p) = Return p1)
      by (rewrite Hp; reflexivity).
    split.
    + rewrite on_data_unfold, (turn_returns region_tail g f p Hr He).
      reflexivity.
    + intros H. rewrite (blk_footers_plan region_tail g f p H), He.
      reflexivity.
  - assert (He : exec (plan region_tail g p) = Return (waiting p1 q))
      by (rewrite Hp; apply exec_wait; exact Hs).
    split.
    + rewrite on_data_unfold, (turn_returns region_tail g f p Hr He).
      reflexivity.
    + intros H. rewrite (blk_footers_plan region_tail g f p H), He.
      reflexivity.
  - assert (He : exec (plan region_tail g p) = Next (handed p1 v rest))
      by (rewrite Hp; apply exec_more; exact Hs).
    pose proof (plan_step region_tail g p Hr Hp) as Hfo. cbv beta iota in Hfo.
    pose proof (plan_keeps_reader region_tail g p Hp) as Hk.
    rewrite Hk in Hs.
    pose proof (satisfy_shorter _ _ Hs) as Hlen.
    destruct (follows_reading Hfo) as [Hr2 _].
    change (state p1) with (state (handed p1 v rest)) in Hfo, Hr2.
    specialize (IH Hr2).
    assert (Ht := turn_continues region_tail g f p Hr He Hr2).
    by_transition Hfo E E' Hq Ht.
    + split; [|rewrite E; discriminate].
      rewrite on_data_unfold, Ht, <- on_data_unfold.
      apply IH. cbn. lia.
    + split; [|rewrite E; discriminate].
      rewrite on_data_unfold, Ht, <- on_data_unfold.
      apply IH. cbn. lia.
    + split; [|rewrite E; discriminate].
      rewrite on_data_unfold, Ht, <- on_data_unfold.
      apply IH. cbn. lia.
    + split; [|rewrite E; discriminate].
      rewrite on_data_unfold, Ht, <- on_data_unfold.
      apply IH. cbn. lia.
    + subst q. apply satisfy_crlf_shorter in Hs.
      split; [|rewrite E; discriminate].
      rewrite on_data_unfold, Ht.
      apply IH. cbn. lia.
    + subst q. apply satisfy_crlf_shorter in Hs.
      assert (Hf' : (List.length (unread (async_buffer (handed p1 v rest)))
                     < f)%nat) by (cbn; lia).
      destruct (IH f Hf') as [_ IHf]. specialize (IHf E').
      split.
      * rewrite on_data_unfold, Ht, IHf. reflexivity.
      * intros _. rewrite (blk_footers_plan region_tail g f p E), He.
        exact IHf.
Qed.

(** No fault lies ahead of a parser in ReadingFooters. *)
Lemma footers_never_overrun (p : stla_http_s) :
  overruns region_tail g p -> state p = http_state_reading_footers -> False.
Proof.
  induction 1 as [p Hs Hv | p p1 q v rest Hp Hs Hov IH]; intros Hst.
  - rewrite Hst in Hs. discriminate Hs.
  - apply IH.
    assert (Hr : reading (state p)) by (rewrite Hst; do 4 right; reflexivity).
    pose proof (plan_step region_tail g p Hr Hp) as Hfo. cbv beta iota in Hfo.
    unfold follows in Hfo. rewrite Hst in Hfo.
    destruct Hfo as [([=] & _)|[([=] & _)|[([=] & _)|[([=] & _)|
                     [([=] & _)|(_ & E' & _)]]]]].
    exact E'.
Qed.

(** A run that faults gives [on_data] no result, whatever the fuel. *)
Lemma overruns_on_data (p : stla_http_s) :
  overruns region_tail g p ->
  reading (state p) ->
  forall fuel, on_data region_tail fuel g p = None.
Proof.
  induction 1 as [p Hst Hv | p p1 q v rest Hp Hs Hov IH];
    intros Hr [|f]; try reflexivity.
  - assert (Hn : plan region_tail g p = None)
      by (apply plan_none; [exact Hr|split; assumption]).
    rewrite on_data_unfold, (turn_from_state region_tail g f p Hr), Hst, Hn.
    reflexivity.
  - assert (He : exec (plan region_tail g p) = Next (handed p1 v rest))
      by (rewrite Hp; apply exec_more; exact Hs).
    pose proof (plan_step region_tail g p Hr Hp) as Hfo. cbv beta iota in Hfo.
    destruct (follows_reading Hfo) as [Hr2 _].
    change (state p1) with (state (handed p1 v rest)) in Hfo, Hr2.
    specialize (IH Hr2).
    assert (Ht := turn_continues region_tail g f p Hr He Hr2).
    by_transition Hfo E E' Hq Ht.
    + rewrite on_data_unfold, Ht, <- on_data_unfold. apply IH.
    + rewrite on_data_unfold, Ht, <- on_data_unfold. apply IH.
    + rewrite on_data_unfold, Ht, <- on_data_unfold. apply IH.
    + rewrite on_data_unfold, Ht, <- on_data_unfold. apply IH.
    + rewrite on_data_unfold, Ht. apply IH.
    + destruct (footers_never_overrun Hov E').
Qed.

End Completeness.

(** ** Every run ends, in a result or in a fault *)

Section Termination.

Variable region_tail : bytes.
Variable g : stla_http_group_s.

Lemma step_decreases (p p1 : stla_http_s) (q : pull) (v rest : bytes) :
  reading (state p) ->
  plan region_tail g p = Some (p1, Some q) ->
  satisfy q (unread (async_buffer p1)) = Some (v, rest) ->
  (measure (handed p1 v rest) < measure p)%nat
  /\ reading (state (handed p1 v rest)).
Proof.
  intros Hr Hp Hs.
  pose proof (plan_step region_tail g p Hr Hp) as Hfo. cbv beta iota in Hfo.
  pose proof (plan_keeps_reader region_tail g p Hp) as Hk.
  rewrite Hk in Hs.
  pose proof (satisfy_shorter _ _ Hs) as Hlen.
  split; [|exact (proj1 (follows_reading Hfo))].
  unfold measure. cbn [handed set_async async_buffer unread state].
  unfold follows in Hfo.
  destruct Hfo as [(E & E')|[(E & E' & Eq)|[(E & E')|[(E & E' & Eq)|
                   [(E & E' & Eq)|(E & E' & Eq)]]]]];
    rewrite E, E'; try (subst q; apply satisfy_crlf_shorter in Hs);
    unfold rank; eval_tests; lia.
Qed.

Lemma runs_or_overruns_upto (n : nat) (p : stla_http_s) :
  (measure p < n)%nat -> reading (state p) ->
  (exists r, runs region_tail g p r) \/ overruns region_tail g p.
Proof.
  revert p; induction n as [|n IH]; intros p Hm Hr; [lia|].
  destruct (plan region_tail g p) as [[p1 [q|]]|] eqn:Hp.
  - destruct (satisfy q (unread (async_buffer p1))) as [[v rest]|] eqn:Hs.
    + destruct (step_decreases p Hr Hp Hs) as [Hd Hr2].
      destruct (IH (handed p1 v rest)) as [[r Hrun]|Hov]; [lia|exact Hr2| |].
      * left. exists r. eapply runs_more; eassumption.
      * right. eapply overruns_later; eassumption.
    + left. exists (waiting p1 q). now apply runs_wait.
  - left. exists p1. now apply runs_done.
  - right. apply plan_none in Hp as [H1 H2]; [|exact Hr].
    now apply overruns_here.
Qed.

(** From every reading state the machine runs to a result, unless it
    comes to a chunk that runs out of its view. *)
Lemma runs_or_overruns (p : stla_http_s) :
  reading (state p) ->
  (exists r, runs region_tail g p r) \/ overruns region_tail g p.
Proof. apply (runs_or_overruns_upto (n := S (measure p))). lia. Qed.

Lemma runs_deterministic (p r r' : stla_http_s) :
  runs region_tail g p r -> runs region_tail g p r' -> r = r'.
Proof.
  induction 1 as [p p1 Hp | p p1 q Hp Hs | p p1 r q v rest Hp Hs Hrun IH];
    intros H';
    inversion H' as [? ? Hp' | ? ? ? Hp' Hs' | ? ? ? ? ? ? Hp' Hs' Hrun'];
    subst; rewrite Hp in Hp'; inversion Hp'; subst; try congruence.
  rewrite Hs in Hs'. inversion Hs'; subst. now apply IH.
Qed.

(** A run has a result or faults, not both. *)
Lemma runs_not_overruns (p r : stla_http_s) :
  runs region_tail g p r -> reading (state p) ->
  overruns region_tail g p -> False.
Proof.
  intros Hrun Hr Hov.
  pose proof (overruns_on_data Hov Hr
                (S (List.length (unread (async_buffer p))))) as Hn.
  destruct (runs_on_data Hrun Hr
              (fuel := S (List.length (unread (async_buffer p)))))
    as [Hs _]; [lia|].
  congruence.
Qed.

(** A run started with no pull pending ends at rest. *)
Lemma runs_at_rest (p r : stla_http_s) :
  runs region_tail g p r ->
  reading (state p) -> pending (async_buffer p) = None ->
  at_rest r.
Proof.
  induction 1 as [p p1 Hp | p p1 q Hp Hs | p p1 r q v rest Hp Hs Hrun IH];
    intros Hr Hn.
  - left. split.
    + exact (plan_step region_tail g p Hr Hp).
    + now rewrite (plan_keeps_reader region_tail g p Hp).
  - right. pose proof (plan_step region_tail g p Hr Hp) as Hfo.
    cbv beta iota in Hfo. split.
    + exact (proj1 (follows_reading Hfo)).
    + exists q. split; [reflexivity|exact Hs].
  - apply IH; [|reflexivity].
    exact (proj2 (step_decreases p Hr Hp Hs)).
Qed.

End Termination.

(** ** Feeding more bytes to a run *)

Section Extension.

Variable region_tail : bytes.
Variable g : stla_http_group_s.






Lemma fed_or_overruns (p : stla_http_s) :
  at_rest p ->
  forall d,
    (exists r, fed region_tail g (more_bytes p d) r)
    \/ fed_overruns region_tail g (more_bytes p d).
Proof.
  intros [[Hs Hn]|[Hr (q & Hq & _)]] d.
  - left. exists (more_bytes p d). now apply fed_idle.
  - destruct (satisfy q (unread (async_buffer (more_bytes p d))))
      as [[v rest]|] eqn:Hs.
    + destruct (runs_or_overruns region_tail g
                  (handed (more_bytes p d) v rest)) as [[r Hrun]|Hov];
        [exact Hr| |].
      * left. exists r. eapply fed_run; [exact Hq|exact Hs|exact Hrun].
      * right. exists q, v, rest. repeat split; assumption.
    + left. exists (more_bytes p d). eapply fed_short; [exact Hq|exact Hs].
Qed.

Lemma fed_at_rest (p r : stla_http_s) (d : bytes) :
  at_rest p -> fed region_tail g (more_bytes p d) r -> at_rest r.
Proof.
  intros Hp H.
  inversion H as [? Hpe | ? q Hpe Hs | ? ? q v rest Hpe Hs Hrun]; subst.
  - destruct Hp as [[Hs Hn]|[Hr (q & Hq & _)]].
    + left. split; assumption.
    + cbn in Hpe. congruence.
  - destruct Hp as [[Hs' Hn]|[Hr (q' & Hq & _)]].
    + cbn in Hpe. congruence.
    + right. split; [exact Hr|]. exists q. split; assumption.
  - destruct Hp as [[Hs' Hn]|[Hr (q' & Hq & _)]].
    + cbn in Hpe. congruence.
    + eapply runs_at_rest; [exact Hrun|exact Hr|reflexivity].
Qed.





End Extension.

(** ** The order of the callbacks *)




Section Order.

Variable region_tail : bytes.
Variable g : stla_http_group_s.
Variable t0 : list event.





End Order.

Section Feeding.

Variable region_tail : bytes.
Variable g : stla_http_group_s.




Lemma deliver_at_rest (fuel : nat) (p : stla_http_s) :
  at_rest p -> deliver region_tail (S fuel) g p = Some p.
Proof.
  cbn [deliver]. intros [[_ Hn]|[_ (q & Hq & Hs)]].
  - now rewrite Hn.
  - now rewrite Hq, Hs.
Qed.

(** The reader's [parse] computes [fed]. *)
Lemma async_parse_fed (p r : stla_http_s) (d : bytes) :
  at_rest p -> fed region_tail g (more_bytes p d) r ->
  stla_async_buffer_parse region_tail g p d = Some r.
Proof.
  intros Hp H. unfold stla_async_buffer_parse.
  change (set_async p (append_bytes (async_buffer p) d))
    with (more_bytes p d).
  inversion H as [? Hpe | ? q Hpe Hs | ? ? q v rest Hpe Hs Hrun]; subst.
  - cbn [deliver]. now rewrite Hpe.
  - cbn [deliver]. now rewrite Hpe, Hs.
  - destruct Hp as [[Hs' Hn]|[Hr _]]; [cbn in Hpe; congruence|].
    cbn [deliver]. rewrite Hpe, Hs.
    change (set_async (more_bytes p d) (mk_async rest None v))
      with (handed (more_bytes p d) v rest).
    assert (Hod : on_data region_tail (S (List.length rest)) g
                    (handed (more_bytes p d) v rest) = Some r).
    { eapply runs_on_data; [exact Hrun|exact Hr|cbn; lia]. }
    rewrite Hod. apply deliver_at_rest.
    eapply runs_at_rest; [exact Hrun|exact Hr|reflexivity].
Qed.

(** It has no result when the run it starts faults. *)
Lemma async_parse_overruns (p : stla_http_s) (d : bytes) :
  at_rest p -> fed_overruns region_tail g (more_bytes p d) ->
  stla_async_buffer_parse region_tail g p d = None.
Proof.
  intros Hp (q & v & rest & Hpe & Hs & Hov). unfold stla_async_buffer_parse.
  change (set_async p (append_bytes (async_buffer p) d))
    with (more_bytes p d).
  destruct Hp as [[Hs' Hn]|[Hr _]]; [cbn in Hpe; congruence|].
  cbn [deliver]. rewrite Hpe, Hs.
  change (set_async (more_bytes p d) (mk_async rest None v))
    with (handed (more_bytes p d) v rest).
  now rewrite (overruns_on_data Hov Hr).
Qed.

Lemma at_rest_complete (p : stla_http_s) :
  at_rest p ->
  has_state p http_state_read_complete = false -> reading (state p).
Proof.
  intros [[Hs _]|[Hr _]] H; [|exact Hr].
  unfold has_state in H. rewrite Hs in H. discriminate H.
Qed.

Lemma http_parse_fed (p r : stla_http_s) (d : bytes) :
  at_rest p -> has_state p http_state_read_complete = false ->
  fed region_tail g (more_bytes p d) r ->
  stla_http_parse region_tail g p d = Some r.
Proof.
  intros Hp Hc H. unfold stla_http_parse. rewrite Hc.
  now apply async_parse_fed.
Qed.

Lemma http_parse_overruns (p : stla_http_s) (d : bytes) :
  at_rest p -> has_state p http_state_read_complete = false ->
  fed_overruns region_tail g (more_bytes p d) ->
  stla_http_parse region_tail g p d = None.
Proof.
  intros Hp Hc H. unfold stla_http_parse. rewrite Hc.
  now apply async_parse_overruns.
Qed.

(** A parse call on a parser at rest that is not complete returns and
    leaves the parser at rest, unless the run it starts faults; the
    fuel is never what stops it. *)
Lemma http_parse_cases (p : stla_http_s) (d : bytes) :
  at_rest p -> has_state p http_state_read_complete = false ->
  (exists r,
      stla_http_parse region_tail g p d = Some r
      /\ fed region_tail g (more_bytes p d) r /\ at_rest r)
  \/ (stla_http_parse region_tail g p d = None
      /\ fed_overruns region_tail g (more_bytes p d)).
Proof.
  intros Hp Hc.
  destruct (@fed_or_overruns region_tail g p Hp d) as [[r Hr]|Hov].
  - left. exists r. split; [now apply http_parse_fed|].
    split; [exact Hr|eapply fed_at_rest; eassumption].
  - right. split; [now apply http_parse_overruns|exact Hov].
Qed.

Lemma http_parse_some (p r : stla_http_s) (d : bytes) :
  at_rest p -> has_state p http_state_read_complete = false ->
  stla_http_parse region_tail g p d = Some r ->
  fed region_tail g (more_bytes p d) r /\ at_rest r.
Proof.
  intros Hp Hc H.
  destruct (http_parse_cases d Hp Hc) as [(r' & Hr' & Hf & Ha)|[Hn _]];
    [|congruence].
  assert (r' = r) by congruence. subst r'. split; assumption.
Qed.


End Feeding.

Lemma initialised_at_rest (p : stla_http_s) :
  initialised p ->
  at_rest p /\ has_state p http_state_read_complete = false
  /\ since (trace p) p.
Proof.
  intros (Hs & Hu & Hq). split; [|split].
  - right. split; [left; exact Hs|].
    exists (need_string crlfcrlf). split; [exact Hq|].
    rewrite Hu. reflexivity.
  - unfold has_state. rewrite Hs. reflexivity.
  - exists []. split; [now rewrite app_nil_r|].
    left. split; [exact Hs|reflexivity].
Qed.

Lemma stla_http_init_initialised (block : stla_http_s)
  (gr : stla_http_group_s) :
  forallb cleared (parser_pool gr) = true ->
  initialised (fst (stla_http_init block gr)).
Proof.
  unfold stla_http_init, initialised, cleared. intros Hf.
  destruct (parser_pool gr) as [|r rest].
  - destruct ((pool_size gr + 1) mod 2 ^ 32 <? max_parser_group);
      repeat split.
  - cbn in Hf. apply andb_true_iff in Hf as [Hr _].
    cbn. unfold stla_async_buffer_advance_to_string, advance.
    cbn. destruct (unread (async_buffer r)); [|discriminate].
    cbn. repeat split.
Qed.

(** ** Chunking *)











(** ** Sequences of calls *)



(** ** Callback ordering *)






(** ** Supporting facts *)

(** The fuel of [header_lines] is enough: more fuel changes nothing. *)
Lemma header_lines_fuel (f1 f2 : nat) (p : bytes) :
  (List.length p <= f1)%nat -> (List.length p <= f2)%nat ->
  header_lines f1 p = header_lines f2 p.
Proof.
  revert f2 p; induction f1 as [|f1 IH]; intros [|f2] [|c p] H1 H2;
    cbn [header_lines List.length] in *; try lia; try reflexivity.
  destruct (memmem (c :: p) crlf) as [k|] eqn:E; [|reflexivity].
  f_equal. apply memmem_bound in E. cbn [List.length crlf] in E.
  pose proof (length_skipn (k + 2) (c :: p)) as Hs.
  cbn [List.length] in Hs.
  apply IH; lia.
Qed.

Lemma free_list_cleared (b : bool) (s : pool_sys) :
  reachable b s -> forallb cleared (parser_pool (grp s)) = true.
Proof.
  induction 1 as [|s s' _ IH Hs]; [reflexivity|].
  destruct Hs as [s block | s l1 l2 p Hl | s l1 l2 p p' tail d Hl Hp];
    cbn [grp].
  - rewrite stla_http_init_group.
    destruct (parser_pool (grp s)) as [|r rest] eqn:Ep.
    + destruct ((pool_size (grp s) + 1) mod 2 ^ 32 <? max_parser_group);
        [reflexivity|now rewrite Ep].
    + cbn in IH. apply andb_true_iff in IH as [_ IH]. exact IH.
  - unfold stla_http_release.
    destruct (negb (pool_member (set_cache p None) =? 0)); [|exact IH].
    cbn. exact IH.
  - exact IH.
Qed.

(** Every parser that [stla_http_init] hands out, new or recycled, is
    initialised: it reads headers, nothing is unread, and the pull for
    the end of the header block is pending. *)
Lemma acquired_parser_initialised (b : bool) (s : pool_sys)
  (block : stla_http_s) :
  reachable b s -> initialised (fst (stla_http_init block (grp s))).
Proof.
  intros H. apply stla_http_init_initialised.
  exact (free_list_cleared H).
Qed.

(** ** Lines and chunks on the wire *)

Ltac norm_app := repeat first [rewrite <- app_assoc | progress cbn [app]].

Ltac norm_len :=
  repeat first [rewrite length_app | progress cbn [List.length]]; lia.

Lemma cstr_plain (l : bytes) :
  forallb (fun c => negb (is_nul c)) l = true -> cstr l = l.
Proof.
  induction l as [|c r IH]; intros H; [reflexivity|].
  cbn [forallb] in H. apply andb_true_iff in H as [Hc Hr].
  apply negb_true_iff in Hc. cbn [cstr]. rewrite Hc. f_equal. now apply IH.
Qed.

Lemma plain_line_no_nul (l : bytes) :
  plain_line l = true -> forallb (fun c => negb (is_nul c)) l = true.
Proof.
  unfold plain_line. induction l as [|c r IH]; intros H; [reflexivity|].
  cbn [forallb] in *. apply andb_true_iff in H as [Hc Hr].
  apply andb_true_iff in Hc as [_ Hc]. rewrite Hc. now apply IH.
Qed.

Lemma is_prefix_crlf (c : ascii) (s : bytes) :
  is_prefix crlf (c :: s)
  = Ascii.eqb CR c && match s with
                      | y :: _ => Ascii.eqb LF y
                      | [] => false
                      end.
Proof.
  cbn. destruct s as [|y s]; [reflexivity|]. now rewrite andb_true_r.
Qed.

(** The first CRLF of a line without line feed, followed by CRLF, is
    the one that ends it. *)
Lemma memmem_line (l rest : bytes) :
  plain_line l = true -> memmem (l ++ crlf ++ rest) crlf = Some (List.length l).
Proof.
  unfold plain_line.
  induction l as [|c r IH]; intros H; [reflexivity|].
  cbn [forallb] in H. apply andb_true_iff in H as [Hc Hr].
  apply andb_true_iff in Hc as [Hlf _]. apply negb_true_iff in Hlf.
  specialize (IH Hr).
  change ((c :: r) ++ crlf ++ rest) with (c :: (r ++ crlf ++ rest)).
  cbn [memmem]. rewrite is_prefix_crlf.
  assert (Hn : match r ++ crlf ++ rest with
               | y :: _ => Ascii.eqb LF y
               | [] => false
               end = false).
  { destruct r as [|y r']; [reflexivity|].
    cbn [forallb] in Hr. apply andb_true_iff in Hr as [Hy _].
    apply andb_true_iff in Hy as [Hy _]. apply negb_true_iff in Hy.
    cbn [app]. now rewrite Ascii.eqb_sym. }
  rewrite Hn, andb_false_r, IH. reflexivity.
Qed.

Lemma memmem_no_lf (l : bytes) :
  plain_line l = true -> memmem l crlf = None.
Proof.
  unfold plain_line.
  induction l as [|c r IH]; intros H; [reflexivity|].
  cbn [forallb] in H. apply andb_true_iff in H as [Hc Hr].
  cbn [memmem]. rewrite is_prefix_crlf, (IH Hr).
  destruct r as [|y r']; [now rewrite andb_false_r|].
  cbn [forallb] in Hr. apply andb_true_iff in Hr as [Hy _].
  apply andb_true_iff in Hy as [Hy _]. apply negb_true_iff in Hy.
  rewrite (Ascii.eqb_sym LF y), Hy, andb_false_r. reflexivity.
Qed.

Lemma isdigit_isxdigit (ds : bytes) :
  forallb isdigit ds = true -> forallb isxdigit ds = true.
Proof.
  induction ds as [|c r IH]; [reflexivity|].
  cbn [forallb]. intros H. apply andb_true_iff in H as [Hc Hr].
  unfold isxdigit at 1. rewrite Hc. cbn [orb andb]. now apply IH.
Qed.

Lemma collect_xdigits_stop (limit : nat) (ds rest : bytes) :
  (List.length ds <= limit)%nat ->
  forallb isxdigit ds = true ->
  isxdigit (first_char rest) = false ->
  collect_xdigits limit (ds ++ rest) = ds.
Proof.
  revert limit. induction ds as [|c r IH]; intros limit Hl Hd Hr.
  - cbn [app]. destruct limit as [|l]; [now destruct rest|].
    destruct rest as [|x rest]; [reflexivity|].
    cbn in Hr. cbn [collect_xdigits]. now rewrite Hr.
  - cbn [forallb] in Hd. apply andb_true_iff in Hd as [Hc Hd].
    destruct limit as [|l]; [cbn in Hl; lia|].
    cbn [app collect_xdigits]. rewrite Hc. f_equal.
    apply IH; [cbn in Hl; lia|exact Hd|exact Hr].
Qed.

Lemma firstn_exact (A : Type) (a b : list A) :
  firstn (List.length a) (a ++ b) = a.
Proof.
  rewrite firstn_app, Nat.sub_diag, firstn_all. cbn [firstn].
  apply app_nil_r.
Qed.

Lemma skipn_exact (A : Type) (a b : list A) :
  skipn (List.length a) (a ++ b) = b.
Proof.
  rewrite skipn_app, Nat.sub_diag, skipn_all. reflexivity.
Qed.

(** ** Whole requests *)

Section Wire.

Variable region_tail : bytes.
Variable g : stla_http_group_s.

Lemma runs_pulls (p p1 r : stla_http_s) (q : pull) :
  plan region_tail g p = Some (p1, Some q) ->
  pulls region_tail g p1 q r ->
  runs region_tail g p r.
Proof.
  unfold pulls. intros Hp H.
  destruct (satisfy q (unread (async_buffer p1))) as [[v rest]|] eqn:Hs.
  - eapply runs_more; eassumption.
  - subst r. now apply runs_wait.
Qed.

Lemma satisfy_line (line rest : bytes) :
  plain_line line = true ->
  satisfy (need_string crlf) (line ++ crlf ++ rest) = Some (line, rest).
Proof.
  intros Hl. unfold satisfy. rewrite (memmem_line _ rest Hl).
  rewrite firstn_exact. f_equal. f_equal.
  change (List.length crlf) with 2%nat.
  rewrite app_assoc.
  replace (List.length line + 2)%nat with (List.length (line ++ crlf))
    by (rewrite length_app; reflexivity).
  apply skipn_exact.
Qed.

Lemma satisfy_bytes (v rest : bytes) (n : Z) :
  zlen v = n -> satisfy (need_bytes n) (v ++ rest) = Some (v, rest).
Proof.
  intros Hn. unfold satisfy.
  assert (Hle : (n <=? zlen (v ++ rest)) = true).
  { apply Z.leb_le. unfold zlen in *. rewrite length_app. lia. }
  rewrite Hle.
  assert (Hk : Z.to_nat n = List.length v) by (unfold zlen in Hn; lia).
  now rewrite Hk, firstn_exact, skipn_exact.
Qed.

Lemma pulls_line (p1 r : stla_http_s) (line rest : bytes) :
  unread (async_buffer p1) = line ++ crlf ++ rest ->
  plain_line line = true ->
  runs region_tail g (handed p1 line rest) r ->
  pulls region_tail g p1 (need_string crlf) r.
Proof.
  intros Hu Hl H. unfold pulls. now rewrite Hu, (@satisfy_line line rest Hl).
Qed.

Lemma pulls_bytes (p1 r : stla_http_s) (v rest : bytes) (n : Z) :
  unread (async_buffer p1) = v ++ rest -> zlen v = n ->
  runs region_tail g (handed p1 v rest) r ->
  pulls region_tail g p1 (need_bytes n) r.
Proof.
  intros Hu Hn H. unfold pulls. now rewrite Hu, (@satisfy_bytes v rest n Hn).
Qed.

Lemma plan_at_chunk_size (p : stla_http_s) :
  state p = http_state_reading_chunk_size ->
  plan region_tail g p
  = match read_size (view p) with
    | None =>
        Some (emit (set_state p http_state_read_complete) on_parsing_error,
              None)
    | Some n =>
        if 0 <? n then
          Some (set_state p http_state_reading_chunk_data,
                Some (need_bytes ((n + 2) mod 2 ^ 64)))
        else
          Some (set_state p http_state_reading_footers,
                Some (need_string crlf))
    end.
Proof. intros H. unfold plan. rewrite H. reflexivity. Qed.

Lemma plan_at_chunk_data (p : stla_http_s) :
  state p = http_state_reading_chunk_data ->
  plan region_tail g p
  = match bytes_at (view p) (chunk_length p) with
    | Some c =>
        Some (set_state (take_chunk g p c) http_state_reading_chunk_size,
              Some (need_string crlf))
    | None => None
    end.
Proof. intros H. unfold plan. rewrite H. reflexivity. Qed.

Lemma plan_at_footers (p : stla_http_s) :
  state p = http_state_reading_footers ->
  plan region_tail g p
  = if 0 <? view_length p then Some (p, Some (need_string crlf))
    else Some (end_of_transmission p, None).
Proof. intros H. unfold plan. rewrite H. reflexivity. Qed.


(** The chunk of a view that holds the payload and two more bytes. *)
Lemma bytes_at_payload (body e : bytes) :
  List.length e = 2%nat -> zlen body + 2 < 2 ^ 64 ->
  (zlen (body ++ e) - 2) mod 2 ^ 64 = zlen body
  /\ bytes_at (body ++ e) (zlen body) = Some body.
Proof.
  intros He Hb.
  assert (Hl : zlen (body ++ e) = zlen body + 2).
  { unfold zlen. rewrite length_app, He. lia. }
  split.
  - rewrite Hl. replace (zlen body + 2 - 2) with (zlen body) by lia.
    apply Z.mod_small. unfold zlen in *. lia.
  - unfold bytes_at. rewrite Hl.
    destruct (zlen body <=? zlen body + 2) eqn:E;
      [|apply Z.leb_gt in E; lia].
    unfold zlen at 1. now rewrite Nat2Z.id, firstn_exact.
Qed.

(** One chunk goes through a parser that was about to pull a size
    line. *)
Lemma chunk_step (q r : stla_http_s) (c : wire_chunk) (rest : bytes) :
  state q = http_state_reading_chunk_size ->
  well_sized c ->
  unread (async_buffer q) = chunk_bytes c ++ rest ->
  pulls region_tail g (after_chunk g q c rest) (need_string crlf) r ->
  pulls region_tail g q (need_string crlf) r.
Proof.
  intros Hs (Hl & Hn & Hpos & Hbig & He) Hu H.
  destruct (@bytes_at_payload (payload c) (chunk_end c) He Hbig)
    as [Hcl Hba].
  set (X := payload c ++ chunk_end c ++ rest).
  apply (@pulls_line q r (size_line c) X); [|exact Hl|].
  { rewrite Hu. unfold chunk_bytes, X. norm_app. reflexivity. }
  set (h1 := handed q (size_line c) X).
  apply (@runs_pulls h1 (set_state h1 http_state_reading_chunk_data) r
           (need_bytes ((zlen (payload c) + 2) mod 2 ^ 64))).
  { rewrite plan_at_chunk_size by exact Hs.
    change (view h1) with (size_line c). rewrite Hn.
    destruct (0 <? zlen (payload c)) eqn:E;
      [reflexivity|apply Z.ltb_ge in E; lia]. }
  rewrite Z.mod_small by (unfold zlen in *; lia).
  apply (@pulls_bytes _ r (payload c ++ chunk_end c) rest).
  { unfold X. cbn. norm_app. reflexivity. }
  { unfold zlen. rewrite length_app, He. unfold zlen. lia. }
  set (h2 := handed (set_state h1 http_state_reading_chunk_data)
                    (payload c ++ chunk_end c) rest).
  apply (@runs_pulls h2 (after_chunk g q c rest) r (need_string crlf));
    [|exact H].
  rewrite plan_at_chunk_data by reflexivity.
  unfold chunk_length. change (view_length h2)
    with (zlen (payload c ++ chunk_end c)).
  change (view h2) with (payload c ++ chunk_end c).
  rewrite Hcl, Hba. f_equal. f_equal.
  unfold take_chunk, chunk_length, after_chunk, chunk_taken.
  change (view_length h2) with (zlen (payload c ++ chunk_end c)).
  rewrite Hcl.
  destruct q as [a u m pr pd ps hs st pm cache tr]. cbn in Hs. subst st.
  unfold h2, h1, handed. cbn.
  destruct (on_body_chunk_set g); reflexivity.
Qed.

Lemma after_chunk_fields (q : stla_http_s) (c : wire_chunk) (rest : bytes) :
  state (after_chunk g q c rest) = state q
  /\ unread (async_buffer (after_chunk g q c rest)) = rest
  /\ trace (after_chunk g q c rest) = trace q ++ chunk_events g [c]
  /\ chunk_body_cache (after_chunk g q c rest)
     = accumulated g (chunk_body_cache q) [c]
  /\ request_fields (after_chunk g q c rest) = request_fields q.
Proof.
  unfold after_chunk, chunk_taken, chunk_events, accumulated, payloads.
  destruct (on_body_chunk_set g); cbn; rewrite ?app_nil_r; repeat split.
Qed.

Lemma chunk_events_cons (c : wire_chunk) (cs : list wire_chunk) :
  chunk_events g (c :: cs) = chunk_events g [c] ++ chunk_events g cs.
Proof. unfold chunk_events. destruct (on_body_chunk_set g); reflexivity. Qed.

Lemma accumulated_cons (cache : option bytes) (c : wire_chunk)
  (cs : list wire_chunk) :
  accumulated g cache (c :: cs) = accumulated g (accumulated g cache [c]) cs.
Proof.
  unfold accumulated, payloads.
  destruct (on_body_chunk_set g); [reflexivity|].
  destruct cs as [|c' cs']; cbn [map List.concat].
  - reflexivity.
  - now rewrite app_nil_r, app_assoc.
Qed.

Lemma after_chunks_fields (cs : list wire_chunk) (q : stla_http_s)
  (rest : bytes) :
  state (after_chunks g q cs rest) = state q
  /\ trace (after_chunks g q cs rest) = trace q ++ chunk_events g cs
  /\ chunk_body_cache (after_chunks g q cs rest)
     = accumulated g (chunk_body_cache q) cs
  /\ request_fields (after_chunks g q cs rest) = request_fields q.
Proof.
  revert q. induction cs as [|c cs IH]; intros q; cbn [after_chunks].
  - unfold chunk_events, accumulated.
    destruct (on_body_chunk_set g); cbn [map]; rewrite app_nil_r;
      repeat split.
  - destruct (IH (after_chunk g q c (List.concat (map chunk_bytes cs) ++ rest)))
      as (Hs & Ht & Hc & Hf).
    destruct (after_chunk_fields q c (List.concat (map chunk_bytes cs) ++ rest))
      as (Hs1 & _ & Ht1 & Hc1 & Hf1).
    split; [congruence|]. split; [|split; [|congruence]].
    + rewrite Ht, Ht1, (chunk_events_cons c cs). now rewrite app_assoc.
    + rewrite Hc, Hc1. symmetry. apply accumulated_cons.
Qed.

(** The chunks of a body go through the parser one after the other. *)
Lemma chunks_run (cs : list wire_chunk) (q r : stla_http_s) (rest : bytes) :
  state q = http_state_reading_chunk_size ->
  Forall well_sized cs ->
  unread (async_buffer q) = List.concat (map chunk_bytes cs) ++ rest ->
  pulls region_tail g (after_chunks g q cs rest) (need_string crlf) r ->
  pulls region_tail g q (need_string crlf) r.
Proof.
  revert q. induction cs as [|c cs IH]; intros q Hs Hw Hu H; [exact H|].
  inversion Hw as [|? ? Hc Hcs]; subst.
  cbn [map List.concat] in Hu. rewrite <- app_assoc in Hu.
  apply (@chunk_step q r c (List.concat (map chunk_bytes cs) ++ rest));
    [exact Hs|exact Hc|exact Hu|].
  apply IH; [|exact Hcs|reflexivity|exact H].
  now rewrite (proj1 (after_chunk_fields q c _)).
Qed.

(** Trailer lines are passed over, and the empty line ends the
    request. *)
Lemma footers_run (trailers : list bytes) (q : stla_http_s) (rest : bytes) :
  state q = http_state_reading_footers ->
  forallb plain_line trailers = true ->
  forallb nonempty trailers = true ->
  unread (async_buffer q) = join_lines trailers ++ crlf ++ rest ->
  pulls region_tail g q (need_string crlf)
        (end_of_transmission (handed q [] rest)).
Proof.
  revert q. induction trailers as [|t ts IH]; intros q Hs Hp Hn Hu.
  - apply (@pulls_line q _ [] rest); [exact Hu|reflexivity|].
    apply runs_done. rewrite plan_at_footers by exact Hs. reflexivity.
  - cbn [forallb] in Hp, Hn.
    apply andb_true_iff in Hp as [Hpt Hps].
    apply andb_true_iff in Hn as [Hnt Hns].
    set (X := join_lines ts ++ crlf ++ rest).
    apply (@pulls_line q _ t X); [|exact Hpt|].
    { rewrite Hu. unfold join_lines, X. cbn [map List.concat].
      norm_app. reflexivity. }
    apply (@runs_pulls (handed q t X) (handed q t X) _ (need_string crlf)).
    { rewrite plan_at_footers by exact Hs.
      change (view_length (handed q t X)) with (zlen t).
      destruct t as [|x t']; [discriminate Hnt|]. reflexivity. }
    exact (IH (handed q t X) Hs Hps Hns eq_refl).
Qed.

(** The line of the last chunk takes the parser to the footers. *)
Lemma last_chunk_run (q : stla_http_s) (last : bytes)
  (trailers : list bytes) (rest : bytes) :
  state q = http_state_reading_chunk_size ->
  plain_line last = true -> read_size last = Some 0 ->
  forallb plain_line trailers = true ->
  forallb nonempty trailers = true ->
  unread (async_buffer q) = last ++ crlf ++ join_lines trailers ++ crlf ++ rest ->
  pulls region_tail g q (need_string crlf)
        (end_of_transmission
           (handed (set_state q http_state_reading_footers) [] rest)).
Proof.
  intros Hs Hl Hz Hp Hn Hu.
  set (X := join_lines trailers ++ crlf ++ rest).
  apply (@pulls_line q _ last X); [exact Hu|exact Hl|].
  apply (@runs_pulls (handed q last X)
           (set_state (handed q last X) http_state_reading_footers) _
           (need_string crlf)).
  { rewrite plan_at_chunk_size by exact Hs.
    change (view (handed q last X)) with last. now rewrite Hz. }
  exact (@footers_run trailers
           (set_state (handed q last X) http_state_reading_footers) rest
           eq_refl Hp Hn eq_refl).
Qed.

Lemma end_of_transmission_fields (p : stla_http_s) :
  state p = http_state_reading_footers ->
  state (end_of_transmission p) = http_state_read_complete
  /\ async_buffer (end_of_transmission p) = async_buffer p
  /\ trace (end_of_transmission p)
     = trace p ++ [end_event (chunk_body_cache p)]
  /\ request_fields (end_of_transmission p) = request_fields p
  /\ (post_data (end_of_transmission p), post_size (end_of_transmission p))
     = match chunk_body_cache p with
       | Some b => (Some b, zlen b)
       | None => (None, 0)
       end.
Proof.
  intros Hs. unfold end_of_transmission, end_event.
  cbn [chunk_body_cache set_post set_state].
  destruct (chunk_body_cache p) as [b|]; cbn; rewrite Hs; repeat split.
Qed.

Lemma after_chunks_unread (cs : list wire_chunk) (q : stla_http_s)
  (rest : bytes) :
  unread (async_buffer q) = List.concat (map chunk_bytes cs) ++ rest ->
  unread (async_buffer (after_chunks g q cs rest)) = rest.
Proof.
  revert q. induction cs as [|c cs IH]; intros q Hu; [exact Hu|].
  cbn [after_chunks]. now apply IH.
Qed.

(** A whole chunked body, from the first size line to the empty
    line. *)
Lemma chunked_body_run (q : stla_http_s) (cs : list wire_chunk)
  (last : bytes) (trailers : list bytes) :
  state q = http_state_reading_chunk_size ->
  Forall well_sized cs ->
  plain_line last = true -> read_size last = Some 0 ->
  forallb plain_line trailers = true ->
  forallb nonempty trailers = true ->
  unread (async_buffer q) = chunked_body cs last trailers ->
  exists r,
    pulls region_tail g q (need_string crlf) r
    /\ state r = http_state_read_complete
    /\ pending (async_buffer r) = None
    /\ unread (async_buffer r) = []
    /\ trace r
       = trace q ++ chunk_events g cs
         ++ [end_event (accumulated g (chunk_body_cache q) cs)]
    /\ request_fields r = request_fields q
    /\ (post_data r, post_size r)
       = match accumulated g (chunk_body_cache q) cs with
         | Some b => (Some b, zlen b)
         | None => (None, 0)
         end.
Proof.
  intros Hs Hw Hl Hz Hp Hn Hu.
  set (X := last ++ crlf ++ join_lines trailers ++ crlf).
  set (Q := after_chunks g q cs X).
  destruct (after_chunks_fields cs q X) as (HQs & HQt & HQc & HQf).
  pose proof (@after_chunks_unread cs q X Hu) as HQu.
  fold Q in HQs, HQt, HQc, HQf, HQu.
  exists (end_of_transmission
            (handed (set_state Q http_state_reading_footers) [] [])).
  split.
  - apply (@chunks_run cs q _ X); [exact Hs|exact Hw|exact Hu|].
    fold Q.
    apply (@last_chunk_run Q last trailers []); try assumption.
    now rewrite HQs.
  - destruct (end_of_transmission_fields
                (handed (set_state Q http_state_reading_footers) [] [])
                eq_refl) as (Es & Ea & Et & Ef & Epost).
    rewrite Es, Ea, Et, Ef, Epost.
    cbn [handed set_async set_state async_buffer
         pending unread trace chunk_body_cache].
    rewrite HQt, HQc, <- app_assoc.
    repeat split. exact HQf.
Qed.

Lemma plan_at_headers (p p1 : stla_http_s) (ok : bool) :
  state p = http_state_reading_headers ->
  parse_request_and_headers region_tail p (view p) = (p1, ok) ->
  plan region_tail g p
  = if negb ok then
      Some (emit (set_state p1 http_state_read_complete) on_parsing_error,
            None)
    else
      let p2 := emit (set_state p1 0) on_headers in
      if negb (content_length_of p1 =? 0) then
        Some (set_state p2 http_state_reading_whole_body,
              Some (need_bytes (content_length_of p1)))
      else if is_chunked (transfer_encoding_of p1) then
        Some (set_state p2 http_state_reading_chunk_size,
              Some (need_string crlf))
      else
        Some (emit (set_state p2 http_state_read_complete)
                   (on_request_end None 0), None).
Proof. intros H E. unfold plan. rewrite H, E. reflexivity. Qed.

Lemma satisfy_head (head body d : bytes) :
  memmem (head ++ d) d = Some (List.length head) ->
  satisfy (need_string d) (head ++ d ++ body) = Some (head, body).
Proof.
  intros H. unfold satisfy.
  rewrite app_assoc, (memmem_app _ _ body H), <- app_assoc.
  rewrite firstn_exact. f_equal. f_equal.
  rewrite app_assoc, <- length_app. apply skipn_exact.
Qed.

(** The call on a whole request starts the run on its head. *)
Lemma request_parse (p r : stla_http_s) (head body : bytes) :
  initialised p ->
  memmem (head ++ crlfcrlf) crlfcrlf = Some (List.length head) ->
  runs region_tail g (handed p head body) r ->
  stla_http_parse region_tail g p (head ++ crlfcrlf ++ body) = Some r.
Proof.
  intros Hi Hm Hrun.
  destruct (initialised_at_rest Hi) as (Hp & Hc & _).
  destruct Hi as (Hs & Hu & Hq).
  apply http_parse_fed; [exact Hp|exact Hc|].
  apply (@fed_run region_tail g _ r (need_string crlfcrlf) head body).
  - exact Hq.
  - change (unread (async_buffer (more_bytes p (head ++ crlfcrlf ++ body))))
      with (unread (async_buffer p) ++ head ++ crlfcrlf ++ body).
    rewrite Hu. exact (@satisfy_head head body crlfcrlf Hm).
  - exact Hrun.
Qed.


Lemma head_accepted (p p1 : stla_http_s) (head body : bytes) :
  state p = http_state_reading_headers ->
  parse_request_and_headers region_tail p head = (p1, true) ->
  plan region_tail g (handed p head body)
  = let p2 := emit (set_state (handed p1 head body) 0) on_headers in
    if negb (content_length_of p1 =? 0) then
      Some (set_state p2 http_state_reading_whole_body,
            Some (need_bytes (content_length_of p1)))
    else if is_chunked (transfer_encoding_of p1) then
      Some (set_state p2 http_state_reading_chunk_size,
            Some (need_string crlf))
    else
      Some (emit (set_state p2 http_state_read_complete)
                 (on_request_end None 0), None).
Proof.
  intros Hs E.
  rewrite (@plan_at_headers (handed p head body) (handed p1 head body) true);
    [reflexivity|exact Hs|].
  unfold handed. change (view (set_async p (mk_async body None head)))
    with head.
  now rewrite parse_request_and_headers_set_async, E.
Qed.

(** A chunked request, from its first byte to the empty line behind
    the trailers. *)
Lemma chunked_request_run (p p1 : stla_http_s) (head : bytes)
  (cs : list wire_chunk) (last : bytes) (trailers : list bytes) :
  initialised p ->
  memmem (head ++ crlfcrlf) crlfcrlf = Some (List.length head) ->
  parse_request_and_headers region_tail p head = (p1, true) ->
  content_length_of p1 = 0 ->
  is_chunked (transfer_encoding_of p1) = true ->
  Forall well_sized cs ->
  plain_line last = true -> read_size last = Some 0 ->
  forallb plain_line trailers = true ->
  forallb nonempty trailers = true ->
  exists r,
    stla_http_parse region_tail g p
      (head ++ crlfcrlf ++ chunked_body cs last trailers) = Some r
    /\ state r = http_state_read_complete
    /\ trace r
       = trace p ++ on_headers :: chunk_events g cs
         ++ [end_event (accumulated g (chunk_body_cache p) cs)]
    /\ (post_data r, post_size r)
       = match accumulated g (chunk_body_cache p) cs with
         | Some b => (Some b, zlen b)
         | None => (None, 0)
         end.
Proof.
  intros Hi Hm E Hcl Hte Hw Hl Hz Hp Hn.
  pose proof Hi as (Hs & _).
  destruct (parse_request_and_headers_frame _ _ _ E)
    as (_ & _ & Ht1 & _ & Hc1).
  set (body := chunked_body cs last trailers).
  set (q := set_state (emit (set_state (handed p1 head body) 0) on_headers)
                      http_state_reading_chunk_size).
  destruct (@chunked_body_run q cs last trailers eq_refl Hw Hl Hz Hp Hn
              eq_refl) as (r & Hpull & Hst & _ & _ & Htr & _ & Hpost).
  exists r. split; [|split; [exact Hst|split]].
  - apply request_parse; [exact Hi|exact Hm|].
    apply (@runs_pulls (handed p head body) q r (need_string crlf));
      [|exact Hpull].
    rewrite (@head_accepted p p1 head body Hs E). cbv zeta.
    rewrite Hcl, Hte. reflexivity.
  - rewrite Htr. unfold q. cbn [trace set_state emit handed set_async
                                chunk_body_cache].
    rewrite Ht1, Hc1, <- app_assoc. reflexivity.
  - rewrite Hpost. unfold q. cbn [set_state emit handed set_async
                                  chunk_body_cache].
    now rewrite Hc1.
Qed.


End Wire.

(** ** The body after the headers, over the calls *)



(** ** Chunked bodies without a chunk callback *)

Lemma accumulated_none (g : stla_http_group_s) (cs : list wire_chunk) :
  on_body_chunk_set g = false -> cs <> [] ->
  accumulated g None cs = Some (payloads cs)
  /\ chunk_events g cs = [].
Proof.
  intros Hg Hne. unfold accumulated, chunk_events. rewrite Hg.
  destruct cs; [congruence|]. split; reflexivity.
Qed.

(** C7: a group without [on_body_chunk] accumulates the payloads.
    For a chunked request whose size lines the parser reads as the
    lengths of the payloads, ended by a chunk of size 0, any trailer
    lines and the empty line, [on_request_end] fires right after
    [on_headers] with the concatenation of the payloads and its
    length; the request with the chunks "hello" and " world" is one.  A
    size line is read as a decimal numeral, though: the request with
    one chunk of ten bytes under the size line "a" ends in
    [on_parsing_error] at that line, and [on_request_end] does not
    fire. *)
Theorem chunk_accumulation_fallback :
  (forall region_tail g p p1 head cs last trailers,
      on_body_chunk_set g = false ->
      initialised p -> chunk_body_cache p = None ->
      memmem (head ++ crlfcrlf) crlfcrlf = Some (List.length head) ->
      parse_request_and_headers region_tail p head = (p1, true) ->
      content_length_of p1 = 0 ->
      is_chunked (transfer_encoding_of p1) = true ->
      Forall well_sized cs -> cs <> [] ->
      plain_line last = true -> read_size last = Some 0 ->
      forallb plain_line trailers = true ->
      forallb nonempty trailers = true ->
      exists r,
        stla_http_parse region_tail g p
          (head ++ crlfcrlf ++ chunked_body cs last trailers) = Some r
        /\ trace r
           = trace p ++ [on_headers;
                         on_request_end (Some (payloads cs))
                                        (zlen (payloads cs))]
        /\ post_data r = Some (payloads cs)
        /\ post_size r = zlen (payloads cs)
        /\ state r = http_state_read_complete)
  /\ (exists r,
        stla_http_parse [] (stla_http_group_init false) (first_parser false)
                        chunked_post = Some r
        /\ trace r = [on_headers;
                      on_request_end (Some (s2b "hello world")) 11]
        /\ state r = http_state_read_complete)
  /\ (exists r,
        stla_http_parse [] (stla_http_group_init false) (first_parser false)
                        chunk_line_a = Some r
        /\ trace r = [on_headers; on_parsing_error]
        /\ post_data r = None
        /\ state r = http_state_read_complete).
Proof.
  split; [|split].
  - intros tail g p p1 head cs last trailers Hg Hi Hcache Hm E Hcl Hte Hw
           Hne Hl Hz Hp Hn.
    destruct (@chunked_request_run tail g p p1 head cs last trailers
                Hi Hm E Hcl Hte Hw Hl Hz Hp Hn) as (r & Hr & Hst & Htr & Hpost).
    rewrite Hcache in Htr, Hpost.
    destruct (accumulated_none g Hg Hne) as [Ha He].
    rewrite Ha in Htr, Hpost. rewrite He in Htr.
    injection Hpost as Hpd Hps.
    exists r. repeat split; assumption.
  - eexists. split; [vm_compute; reflexivity|]. split; reflexivity.
  - eexists. split; [vm_compute; reflexivity|]. repeat split.
Qed.

Lemma chunk_accumulation_fallback_witness :
  exists r,
    stla_http_parse [] (stla_http_group_init false) (first_parser false)
      ((s2b "POST / HTTP/1.1" ++ crlf ++ s2b "Transfer-Encoding: chunked")
       ++ crlfcrlf
       ++ chunked_body [mk_chunk (s2b "5") (s2b "hello") crlf;
                        mk_chunk (s2b "6;x=y") (s2b " world") crlf]
                       (s2b "0") [s2b "Expires: never"]) = Some r
    /\ trace r
       = trace (first_parser false)
         ++ [on_headers;
             on_request_end
               (Some (payloads [mk_chunk (s2b "5") (s2b "hello") crlf;
                                mk_chunk (s2b "6;x=y") (s2b " world") crlf]))
               (zlen (payloads [mk_chunk (s2b "5") (s2b "hello") crlf;
                                mk_chunk (s2b "6;x=y") (s2b " world")
                                         crlf]))]
    /\ post_data r
       = Some (payloads [mk_chunk (s2b "5") (s2b "hello") crlf;
                         mk_chunk (s2b "6;x=y") (s2b " world") crlf])
    /\ post_size r
       = zlen (payloads [mk_chunk (s2b "5") (s2b "hello") crlf;
                         mk_chunk (s2b "6;x=y") (s2b " world") crlf])
    /\ state r = http_state_read_complete.
Proof.
  apply (proj1 chunk_accumulation_fallback [] (stla_http_group_init false)
           (first_parser false)
           (fst (parse_request_and_headers [] (first_parser false)
                   (s2b "POST / HTTP/1.1" ++ crlf
                    ++ s2b "Transfer-Encoding: chunked"))));
    try reflexivity; try discriminate.
  - repeat split.
  - repeat constructor.
Defined.

(** ** The callbacks of a feed *)




(** ** A stale protocol pointer *)

(** Whatever the region holds behind the copied request line, an
    initialised parser that still carries a protocol pointer, and
    whose headers (which a head of one line leaves as they were)
    announce no body, takes the malformed request for a request
    without a body. *)
Lemma stale_protocol_accepts_malformed (tail : bytes)
  (g : stla_http_group_s) (p : stla_http_s) :
  initialised p ->
  protocol p <> None ->
  content_length_of p = 0 ->
  is_chunked (transfer_encoding_of p) = false ->
  exists r,
    stla_http_parse tail g p malformed_request = Some r
    /\ trace r = trace p ++ [on_headers; on_request_end None 0]
    /\ state r = http_state_read_complete.
Proof.
  intros Hi Hpr Hcl Hte.
  destruct (parse_request_and_headers tail p (s2b "????")) as [p1 ok] eqn:E.
  pose proof (stale_protocol_accepts tail p (s2b "????") Hpr) as Hok.
  rewrite E in Hok. cbn [snd] in Hok. subst ok.
  assert (Hh : headers p1 = headers p).
  { unfold parse_request_and_headers in E.
    change (memmem (s2b "????") crlf) with (@None nat) in E.
    cbv iota beta in E. injection E as <-.
    match goal with
    | |- headers (scan_request_line tail ?q ?rl) = _ =>
        destruct (scan_request_line_shape tail q rl) as (m & u & k & ->)
    end.
    reflexivity. }
  destruct (parse_request_and_headers_frame _ _ _ E) as (_ & _ & Ht1 & _).
  assert (Hcl1 : content_length_of p1 = 0).
  { unfold content_length_of in *.
    now rewrite (param_header_headers p1 p _ _ Hh). }
  assert (Hte1 : is_chunked (transfer_encoding_of p1) = false).
  { unfold transfer_encoding_of in *.
    now rewrite (param_header_headers p1 p _ _ Hh). }
  pose proof (@head_accepted tail g p p1 (s2b "????") [] (proj1 Hi) E) as Hpl.
  cbv zeta in Hpl. rewrite Hcl1, Hte1 in Hpl. cbn [negb Z.eqb] in Hpl.
  eexists. split.
  - apply (@request_parse tail g p _ (s2b "????") [] Hi); [reflexivity|].
    apply runs_done. exact Hpl.
  - cbn. rewrite Ht1, <- app_assoc. split; reflexivity.
Qed.

(** * Further properties of the code *)

(** ** stla_conv.c *)

(** X1: [stla_bool] lets the default decide exactly for the values it
    does not recognise: a value that starts with 0, f or F is false
    and one that starts with 1, t or T is true under either default,
    and every other value, the empty string included, yields the
    default. *)
Theorem stla_bool_default_only_when_unrecognised :
  forall v d,
    stla_bool (Some v) d
    = if reads_false v then false
      else if reads_true v then true
      else d.
Proof.
  intros v d. unfold stla_bool, reads_false, reads_true.
  set (c := first_char v).
  destruct (Ascii.eqb c "0"%char) eqn:E0.
  { apply Ascii.eqb_eq in E0. rewrite E0. destruct d; reflexivity. }
  destruct (Ascii.eqb c "f"%char) eqn:E1.
  { apply Ascii.eqb_eq in E1. rewrite E1. destruct d; reflexivity. }
  destruct (Ascii.eqb c "F"%char) eqn:E2.
  { apply Ascii.eqb_eq in E2. rewrite E2. destruct d; reflexivity. }
  cbn [orb].
  destruct (Ascii.eqb c "1"%char || Ascii.eqb c "t"%char
            || Ascii.eqb c "T"%char); destruct d; reflexivity.
Qed.

Lemma scan_digits_prefix (ds rest : bytes) (acc : Z) :
  forallb isdigit ds = true -> starts_with_digit rest = false ->
  scan_digits (ds ++ rest) acc
  = fold_left (fun a c => 10 * a + digit_val c) ds acc.
Proof.
  revert acc; induction ds as [|c r IH]; intros acc Hd Hr.
  - destruct rest as [|x y]; [reflexivity|].
    cbn [app fold_left scan_digits]. cbn in Hr. now rewrite Hr.
  - cbn [forallb] in Hd. apply andb_true_iff in Hd as [Hc Hd].
    cbn [app scan_digits fold_left]. rewrite Hc. now apply IH.
Qed.

Lemma skip_space_prefix (ws s : bytes) :
  forallb isspace ws = true -> skip_space (ws ++ s) = skip_space s.
Proof.
  induction ws as [|c r IH]; intros H; [reflexivity|].
  cbn [forallb] in H. apply andb_true_iff in H as [Hc Hr].
  cbn [app skip_space]. rewrite Hc. now apply IH.
Qed.

(** X2: [stla_uint64_t] reads the decimal numeral at the head of the
    value: white space before it is skipped and whatever follows the
    digits is ignored, so the result is the number the digits denote,
    whatever the default. *)
Theorem stla_uint64_t_numeric_prefix :
  forall ws ds rest d,
    forallb isspace ws = true ->
    ds <> [] -> forallb isdigit ds = true ->
    starts_with_digit rest = false ->
    decimal ds <= UINT64_MAX ->
    stla_uint64_t (Some (ws ++ ds ++ rest)) d = decimal ds.
Proof.
  intros ws ds rest d Hws Hne Hd Hr Hle.
  unfold stla_uint64_t, sscanf_unsigned.
  rewrite (skip_space_prefix ws (ds ++ rest) Hws).
  destruct ds as [|c r]; [congruence|].
  pose proof Hd as Hd'. cbn [forallb] in Hd'.
  apply andb_true_iff in Hd' as [Hc _].
  cbn [app skip_space]. rewrite (isdigit_not_space c Hc).
  destruct (isdigit_not_sign c Hc) as [-> ->].
  unfold convert_unsigned. cbn [starts_with_digit]. rewrite Hc.
  change (c :: r ++ rest) with ((c :: r) ++ rest).
  rewrite (scan_digits_prefix (c :: r) rest 0 Hd Hr).
  fold (decimal (c :: r)).
  destruct (UINT64_MAX <? decimal (c :: r)) eqn:E; [|reflexivity].
  apply Z.ltb_lt in E. lia.
Qed.

Lemma stla_uint64_t_numeric_prefix_witness :
  stla_uint64_t (Some (s2b "  12abc")) 7 = 12.
Proof.
  apply (@stla_uint64_t_numeric_prefix (s2b "  ") (s2b "12") (s2b "abc") 7).
  - reflexivity.
  - discriminate.
  - reflexivity.
  - reflexivity.
  - vm_compute. discriminate.
Defined.

(** X3: [stla_uint64_t] gives the default back for every value in
    which no decimal digit occurs (the empty string, words, a lone
    sign), whatever the default is. *)
Theorem stla_uint64_t_default :
  forall v d,
    existsb isdigit v = false -> stla_uint64_t (Some v) d = d.
Proof.
  intros v d Hv. unfold stla_uint64_t.
  now rewrite sscanf_unsigned_no_digit.
Qed.

Lemma stla_uint64_t_default_witness :
  stla_uint64_t (Some (s2b " -x")) 42 = 42.
Proof.
  apply (@stla_uint64_t_default (s2b " -x") 42). reflexivity.
Defined.

(** ** Header lookup *)

Lemma strcaseeq_lower (a b : bytes) :
  strcaseeq a b = true <-> map tolower a = map tolower b.
Proof.
  revert b; induction a as [|x a IH]; intros [|y b]; cbn; split;
    try discriminate; try reflexivity.
  - intros H. apply andb_true_iff in H as [Hxy Hab].
    apply Ascii.eqb_eq in Hxy. apply IH in Hab. congruence.
  - intros [= Hxy Hab]. apply andb_true_iff. split.
    + now apply Ascii.eqb_eq.
    + now apply IH.
Qed.

Lemma strcaseeq_length (a b : bytes) :
  strcaseeq a b = true -> List.length a = List.length b.
Proof.
  intros H. apply strcaseeq_lower in H.
  apply (f_equal (@List.length ascii)) in H. now rewrite !length_map in H.
Qed.

Lemma strncaseeq_key (h k1 k2 : bytes) :
  strcaseeq k1 k2 = true -> strncaseeq h k1 = strncaseeq h k2.
Proof.
  revert h k2; induction k1 as [|y k1 IH]; intros h [|z k2] H;
    cbn in H; try discriminate; [reflexivity|].
  apply andb_true_iff in H as [Hyz Hk].
  apply Ascii.eqb_eq in Hyz.
  destruct h as [|x h]; cbn; [reflexivity|].
  rewrite Hyz. f_equal. now apply IH.
Qed.

Lemma strncaseeq_name (name rest key : bytes) :
  strcaseeq name key = true -> strncaseeq (name ++ rest) key = true.
Proof.
  revert key; induction name as [|x name IH]; intros [|y key] H;
    cbn in H; try discriminate.
  - destruct rest; reflexivity.
  - apply andb_true_iff in H as [Hxy Hk]. cbn. rewrite Hxy. now apply IH.
Qed.

Lemma header_value_key (h k1 k2 : bytes) :
  strcaseeq k1 k2 = true -> header_value h k1 = header_value h k2.
Proof.
  intros H. unfold header_value.
  now rewrite (strncaseeq_key h _ _ H), (strcaseeq_length _ _ H).
Qed.

(** X4: the header lookup does not depend on the case of the key:
    two keys that are equal up to the case of their letters give the
    same result on every parser and with every default. *)
Theorem header_lookup_ignores_key_case :
  forall p k1 k2 d,
    strcaseeq k1 k2 = true ->
    stla_http_param_header p k1 d = stla_http_param_header p k2 d.
Proof.
  intros p k1 k2 d H.
  assert (Hf : forall hs, first_header hs k1 = first_header hs k2).
  { induction hs as [|h hs IH]; [reflexivity|].
    cbn. now rewrite (header_value_key h _ _ H), IH. }
  unfold stla_http_param_header, get_header_param.
  pose proof (strcaseeq_length _ _ H) as Hl.
  destruct k1 as [|x k1], k2 as [|y k2]; try discriminate; [reflexivity|].
  now rewrite Hf.
Qed.

Lemma header_lookup_ignores_key_case_witness :
  stla_http_param_header
    (set_headers zero_block [s2b "Content-Length: 5"])
    (s2b "content-LENGTH") None
  = stla_http_param_header
      (set_headers zero_block [s2b "Content-Length: 5"])
      (s2b "Content-Length") None.
Proof.
  apply (@header_lookup_ignores_key_case
           (set_headers zero_block [s2b "Content-Length: 5"])
           (s2b "content-LENGTH") (s2b "Content-Length") None).
  reflexivity.
Defined.

Lemma skip_sp_spaces (sp s : bytes) :
  forallb (Ascii.eqb SP) sp = true -> skip_sp (sp ++ s) = skip_sp s.
Proof.
  induction sp as [|c r IH]; intros H; [reflexivity|].
  cbn [forallb] in H. apply andb_true_iff in H as [Hc Hr].
  apply Ascii.eqb_eq in Hc. subst c.
  cbn [app skip_sp]. rewrite Ascii.eqb_refl. now apply IH.
Qed.

Lemma skip_sp_stop (s : bytes) :
  Ascii.eqb (first_char s) SP = false -> skip_sp s = s.
Proof.
  destruct s as [|c r]; [reflexivity|]. cbn. now intros ->.
Qed.

Lemma skipn_name (name rest key : bytes) :
  strcaseeq name key = true ->
  skipn (List.length key) (name ++ rest) = rest.
Proof.
  intros H. rewrite <- (strcaseeq_length _ _ H).
  rewrite skipn_app, skipn_all, Nat.sub_diag. reflexivity.
Qed.

(** The value of one line "Name : value" under a key that equals the
    name up to case. *)
Lemma header_value_line (name sp1 sp2 v key : bytes) :
  strcaseeq name key = true ->
  forallb (Ascii.eqb SP) sp1 = true -> forallb (Ascii.eqb SP) sp2 = true ->
  v <> [] -> Ascii.eqb (first_char v) SP = false ->
  header_value (name ++ sp1 ++ ":"%char :: sp2 ++ v) key = Some v.
Proof.
  intros Hn H1 H2 Hv Hf. unfold header_value.
  rewrite (strncaseeq_name name _ key Hn), (skipn_name name _ key Hn).
  rewrite (skip_sp_spaces sp1 _ H1).
  cbn [skip_sp]. change (Ascii.eqb ":"%char SP) with false. cbv iota.
  rewrite Ascii.eqb_refl.
  rewrite (skip_sp_spaces sp2 v H2), (skip_sp_stop v Hf).
  destruct v; [congruence|reflexivity].
Qed.

(** X5: a stored line "Name: value" is found under any key that
    equals the name up to case, with the spaces around the colon
    dropped: when no earlier line begins with the key, the lookup
    returns exactly the value. *)
Theorem header_lookup_finds_value :
  forall p before after name sp1 sp2 v key d,
    headers p = before ++ (name ++ sp1 ++ ":"%char :: sp2 ++ v) :: after ->
    forallb (fun h => negb (strncaseeq h key)) before = true ->
    key <> [] -> strcaseeq name key = true ->
    forallb (Ascii.eqb SP) sp1 = true -> forallb (Ascii.eqb SP) sp2 = true ->
    v <> [] -> Ascii.eqb (first_char v) SP = false ->
    stla_http_param_header p key d = Some v.
Proof.
  intros p before after name sp1 sp2 v key d Hh Hb Hk Hn H1 H2 Hv Hf.
  unfold stla_http_param_header, get_header_param. rewrite Hh.
  destruct key as [|k0 key]; [congruence|].
  assert (Hfh : first_header
            (before ++ (name ++ sp1 ++ ":"%char :: sp2 ++ v) :: after)
            (k0 :: key) = Some v).
  { clear Hh. induction before as [|h hs IH].
    - cbn [app first_header].
      rewrite (@header_value_line name sp1 sp2 v (k0 :: key)); auto.
    - cbn [forallb] in Hb. apply andb_true_iff in Hb as [Hh Hb].
      cbn [app first_header]. unfold header_value at 1.
      apply negb_true_iff in Hh. rewrite Hh. now apply IH. }
  now rewrite Hfh.
Qed.

Lemma header_lookup_finds_value_witness :
  stla_http_param_header
    (set_headers zero_block
       [s2b "Host: x"; s2b "content-length :  5"; s2b ""])
    (s2b "Content-Length") None
  = Some (s2b "5").
Proof.
  apply (@header_lookup_finds_value
           (set_headers zero_block
              [s2b "Host: x"; s2b "content-length :  5"; s2b ""])
           [s2b "Host: x"] [s2b ""] (s2b "content-length") (s2b " ")
           (s2b "  ") (s2b "5") (s2b "Content-Length") None);
    try reflexivity; discriminate.
Defined.

Lemma param_header_skip (p : stla_http_s) (h : bytes) (hs : list bytes)
  (key : bytes) (d : option bytes) :
  headers p = h :: hs -> header_value h key = None ->
  stla_http_param_header p key d
  = stla_http_param_header (set_headers p hs) key d.
Proof.
  intros Hh Hv. unfold stla_http_param_header, get_header_param.
  rewrite Hh. cbn [headers set_headers first_header]. now rewrite Hv.
Qed.

(** X6: a line whose name only begins with the key is not taken for
    the key: after the matched letters (and spaces) a colon must
    follow, so "Content-Length-Extra: 5" is passed over under the key
    "Content-Length" and the lookup goes on with the later lines. *)
Theorem header_lookup_passes_longer_name :
  forall p name sp c rest hs key d,
    headers p = (name ++ sp ++ c :: rest) :: hs ->
    strcaseeq name key = true ->
    forallb (Ascii.eqb SP) sp = true ->
    Ascii.eqb c SP = false -> Ascii.eqb c ":"%char = false ->
    stla_http_param_header p key d
    = stla_http_param_header (set_headers p hs) key d.
Proof.
  intros p name sp c rest hs key d Hh Hn Hs Hc1 Hc2.
  apply (param_header_skip p key d Hh).
  unfold header_value.
  rewrite (strncaseeq_name name _ key Hn), (skipn_name name _ key Hn).
  rewrite (skip_sp_spaces sp _ Hs).
  cbn [skip_sp]. now rewrite Hc1, Hc2.
Qed.

Lemma header_lookup_passes_longer_name_witness :
  stla_http_param_header
    (set_headers zero_block
       [s2b "Content-Length-Extra: 5"; s2b "Content-Length: 7"])
    (s2b "Content-Length") None
  = stla_http_param_header
      (set_headers (set_headers zero_block
         [s2b "Content-Length-Extra: 5"; s2b "Content-Length: 7"])
         [s2b "Content-Length: 7"])
      (s2b "Content-Length") None.
Proof.
  apply (@header_lookup_passes_longer_name
           (set_headers zero_block
              [s2b "Content-Length-Extra: 5"; s2b "Content-Length: 7"])
           (s2b "Content-Length") [] "-"%char (s2b "Extra: 5")
           [s2b "Content-Length: 7"] (s2b "Content-Length") None);
    reflexivity.
Defined.

(** X7: a line with an empty value ("Name:" with nothing but spaces
    behind the colon) counts as absent: the lookup passes it over and
    goes on with the later lines. *)
Theorem header_lookup_passes_empty_value :
  forall p name sp1 sp2 hs key d,
    headers p = (name ++ sp1 ++ ":"%char :: sp2) :: hs ->
    strcaseeq name key = true ->
    forallb (Ascii.eqb SP) sp1 = true -> forallb (Ascii.eqb SP) sp2 = true ->
    stla_http_param_header p key d
    = stla_http_param_header (set_headers p hs) key d.
Proof.
  intros p name sp1 sp2 hs key d Hh Hn H1 H2.
  apply (param_header_skip p key d Hh).
  unfold header_value.
  rewrite (strncaseeq_name name _ key Hn), (skipn_name name _ key Hn).
  rewrite (skip_sp_spaces sp1 _ H1).
  cbn [skip_sp]. change (Ascii.eqb ":"%char SP) with false. cbv iota.
  rewrite Ascii.eqb_refl.
  rewrite <- (app_nil_r sp2), (skip_sp_spaces sp2 [] H2). reflexivity.
Qed.

Lemma header_lookup_passes_empty_value_witness :
  stla_http_param_header
    (set_headers zero_block [s2b "Accept:  "; s2b "accept: text/html"])
    (s2b "Accept") None
  = stla_http_param_header
      (set_headers (set_headers zero_block
         [s2b "Accept:  "; s2b "accept: text/html"])
         [s2b "accept: text/html"])
      (s2b "Accept") None.
Proof.
  apply (@header_lookup_passes_empty_value
           (set_headers zero_block
              [s2b "Accept:  "; s2b "accept: text/html"])
           (s2b "Accept") [] (s2b "  ") [s2b "accept: text/html"]
           (s2b "Accept") None);
    reflexivity.
Defined.

(** X8: when no stored line begins with the key (up to case), the
    lookup returns the default. *)
Theorem header_lookup_missing_key :
  forall p key d,
    forallb (fun h => negb (strncaseeq h key)) (headers p) = true ->
    stla_http_param_header p key d = d.
Proof.
  intros p key d H. unfold stla_http_param_header, get_header_param.
  destruct key as [|k0 key]; [reflexivity|].
  assert (Hf : first_header (headers p) (k0 :: key) = None).
  { induction (headers p) as [|h hs IH]; [reflexivity|].
    cbn [forallb] in H. apply andb_true_iff in H as [Hh Hs].
    apply negb_true_iff in Hh.
    cbn [first_header]. unfold header_value at 1. rewrite Hh.
    now apply IH. }
  now rewrite Hf.
Qed.

Lemma header_lookup_missing_key_witness :
  stla_http_param_header
    (set_headers zero_block [s2b "Host: x"; s2b ""])
    (s2b "Content-Length") (Some (s2b "none"))
  = Some (s2b "none").
Proof.
  apply (@header_lookup_missing_key
           (set_headers zero_block [s2b "Host: x"; s2b ""])
           (s2b "Content-Length") (Some (s2b "none"))).
  reflexivity.
Defined.

(** ** The header block *)

Lemma header_lines_step (fuel : nat) (p : bytes) (k : nat) :
  p <> [] -> memmem p crlf = Some k ->
  header_lines (S fuel) p
  = stla_pool_strndup p k :: header_lines fuel (skipn (k + 2) p).
Proof.
  intros Hp Hm. cbn [header_lines].
  destruct p as [|c r]; [congruence|]. now rewrite Hm.
Qed.

Lemma header_lines_join (fuel : nat) (ls : list bytes) (last : bytes) :
  forallb plain_line ls = true -> plain_line last = true ->
  (List.length (join_lines ls ++ last) <= fuel)%nat ->
  header_lines fuel (join_lines ls ++ last)
  = ls ++ match last with
          | [] => []
          | _ => [last]
          end.
Proof.
  revert fuel; induction ls as [|l ls IH]; intros fuel Hls Hlast Hf.
  - cbn [join_lines map List.concat app] in *.
    destruct last as [|c r]; [destruct fuel; reflexivity|].
    destruct fuel as [|fuel]; [cbn in Hf; lia|].
    cbn [header_lines]. rewrite (memmem_no_lf _ Hlast).
    unfold stla_pool_strndup. rewrite firstn_all.
    now rewrite (cstr_plain _ (plain_line_no_nul _ Hlast)).
  - cbn [forallb] in Hls. apply andb_true_iff in Hls as [Hl Hls].
    assert (Ej : join_lines (l :: ls) ++ last
                 = l ++ crlf ++ (join_lines ls ++ last)).
    { unfold join_lines. cbn [map List.concat].
      now rewrite <- !app_assoc. }
    rewrite Ej in *.
    destruct fuel as [|fuel].
    { rewrite !length_app in Hf. cbn in Hf. lia. }
    rewrite (header_lines_step fuel (k := List.length l)).
    + unfold stla_pool_strndup at 1.
      rewrite firstn_app, firstn_all, Nat.sub_diag. cbn [firstn].
      rewrite app_nil_r, (cstr_plain _ (plain_line_no_nul _ Hl)).
      cbn [app]. f_equal.
      rewrite app_assoc, skipn_app.
      replace (List.length l + 2)%nat with (List.length (l ++ crlf))
        by (rewrite length_app; reflexivity).
      rewrite skipn_all, Nat.sub_diag. cbn [skipn app].
      apply IH; [exact Hls|exact Hlast|].
      rewrite length_app, length_app in Hf.
      change (List.length crlf) with 2%nat in Hf. lia.
    + intros E. apply (f_equal (@List.length ascii)) in E.
      rewrite !length_app in E. cbn in E. lia.
    + now apply memmem_line.
Qed.

Lemma scan_request_line_headers (tail : bytes) (p : stla_http_s)
  (rl : bytes) :
  headers (scan_request_line tail p rl) = headers p.
Proof.
  destruct (scan_request_line_shape tail p rl) as (m & u & k & ->).
  reflexivity.
Qed.

(** X9: [parse_request_and_headers] stores the header lines of the
    view in the order of arrival, one string per CRLF-ended line and
    one more for a last line that no CRLF ends; the line that is
    empty (the blank line that closes the block, when the view holds
    it) is stored as an empty string like any other. *)
Theorem header_block_stored_in_order :
  forall region_tail p req ls last,
    plain_line req = true ->
    forallb plain_line ls = true -> plain_line last = true ->
    headers (fst (parse_request_and_headers region_tail p
                    (req ++ crlf ++ join_lines ls ++ last)))
    = ls ++ match last with
            | [] => []
            | _ => [last]
            end.
Proof.
  intros tail p req ls last Hreq Hls Hlast.
  unfold parse_request_and_headers.
  rewrite (memmem_line req (join_lines ls ++ last) Hreq).
  cbn [fst]. rewrite scan_request_line_headers. cbn [headers set_headers].
  assert (Hs : skipn (List.length req + 2)
                 (req ++ crlf ++ join_lines ls ++ last)
               = join_lines ls ++ last).
  { rewrite app_assoc, skipn_app.
    replace (List.length req + 2)%nat with (List.length (req ++ crlf))
      by (rewrite length_app; reflexivity).
    now rewrite skipn_all, Nat.sub_diag. }
  rewrite Hs. apply header_lines_join; [exact Hls|exact Hlast|].
  rewrite (length_app req). rewrite (length_app crlf). lia.
Qed.

Lemma header_block_stored_in_order_witness :
  headers (fst (parse_request_and_headers [] zero_block
                  (s2b "GET /hi HTTP/1.1" ++ crlf
                   ++ join_lines [s2b "Host: x"; s2b "Accept: */*"; []]
                   ++ [])))
  = [s2b "Host: x"; s2b "Accept: */*"; []] ++ [].
Proof.
  apply (@header_block_stored_in_order [] zero_block
           (s2b "GET /hi HTTP/1.1")
           [s2b "Host: x"; s2b "Accept: */*"; []] []);
    reflexivity.
Defined.

(** ** The request line *)

Lemma skipn_at (a s : bytes) (i : nat) :
  i = List.length a -> skipn i (a ++ s) = s.
Proof.
  intros ->. now rewrite skipn_app, skipn_all, Nat.sub_diag.
Qed.

Lemma span_ws_run (w s : bytes) :
  forallb white_space w = true -> white_space (first_char s) = false ->
  span_ws (w ++ s) = List.length w.
Proof.
  induction w as [|c r IH]; intros Hw Hs.
  - destruct s as [|x y]; [reflexivity|]. cbn in *. now rewrite Hs.
  - cbn [forallb] in Hw. apply andb_true_iff in Hw as [Hc Hr].
    cbn [app span_ws List.length]. rewrite Hc. f_equal. now apply IH.
Qed.

Lemma span_token_run (t s : bytes) :
  forallb (fun c => negb (is_nul c || white_space c)) t = true ->
  is_nul (first_char s) || white_space (first_char s) = true ->
  span_token (t ++ s) = List.length t.
Proof.
  induction t as [|c r IH]; intros Ht Hs.
  - destruct s as [|x y]; [reflexivity|]. cbn in *. now rewrite Hs.
  - cbn [forallb] in Ht. apply andb_true_iff in Ht as [Hc Hr].
    apply negb_true_iff in Hc.
    cbn [app span_token List.length]. rewrite Hc. f_equal. now apply IH.
Qed.

Lemma skip_ws_at (mem a w s : bytes) (i : nat) :
  mem = a ++ w ++ s -> i = List.length a ->
  forallb white_space w = true -> white_space (first_char s) = false ->
  skip_ws mem i = (i + List.length w)%nat.
Proof.
  intros -> Hi Hw Hs. unfold skip_ws.
  now rewrite (skipn_at a _ Hi), span_ws_run.
Qed.

Lemma skip_token_at (mem a t s : bytes) (i : nat) :
  mem = a ++ t ++ s -> i = List.length a ->
  forallb (fun c => negb (is_nul c || white_space c)) t = true ->
  is_nul (first_char s) || white_space (first_char s) = true ->
  skip_token mem i = (i + List.length t)%nat.
Proof.
  intros -> Hi Ht Hs. unfold skip_token.
  now rewrite (skipn_at a _ Hi), span_token_run.
Qed.

Lemma poke_at (a r : bytes) (c x : ascii) (i : nat) :
  i = List.length a -> poke (a ++ c :: r) i x = a ++ x :: r.
Proof.
  intros ->. induction a as [|y a IH]; [reflexivity|].
  cbn [app poke List.length]. now rewrite IH.
Qed.

Lemma cstr_stop (s r : bytes) :
  forallb (fun c => negb (is_nul c)) s = true -> cstr (s ++ NUL :: r) = s.
Proof.
  induction s as [|c t IH]; intros H; [reflexivity|].
  cbn [forallb] in H. apply andb_true_iff in H as [Hc Ht].
  apply negb_true_iff in Hc. cbn [app cstr]. rewrite Hc. f_equal.
  now apply IH.
Qed.

Lemma string_at_at (mem a s r : bytes) (i : nat) :
  mem = a ++ s ++ NUL :: r -> i = List.length a ->
  forallb (fun c => negb (is_nul c)) s = true ->
  string_at mem i = s.
Proof.
  intros -> Hi Hs. unfold string_at.
  now rewrite (skipn_at a _ Hi), cstr_stop.
Qed.

Lemma peek_at (a s : bytes) (i j : nat) :
  i = (List.length a + j)%nat -> peek (a ++ s) i = nth j s NUL.
Proof.
  intros ->. unfold peek. rewrite app_nth2 by lia. f_equal. lia.
Qed.

Lemma peek_text_end (a u' r : bytes) (z : ascii) (i : nat) :
  i = (List.length a + List.length u')%nat ->
  peek (a ++ u' ++ z :: r) i = z.
Proof.
  intros ->. unfold peek. rewrite app_nth2 by lia.
  replace (List.length a + List.length u' - List.length a)%nat
    with (List.length u') by lia.
  rewrite app_nth2 by lia. now rewrite Nat.sub_diag.
Qed.

Lemma peek_blank (a u' w s : bytes) (z : ascii) (i j : nat) :
  i = (List.length a + S (List.length u' + j))%nat ->
  (j < List.length w)%nat ->
  peek (a ++ u' ++ z :: w ++ s) i = nth j w NUL.
Proof.
  intros -> Hj. unfold peek. rewrite app_nth2 by lia.
  replace (List.length a + S (List.length u' + j) - List.length a)%nat
    with (S (List.length u' + j)) by lia.
  rewrite app_nth2 by lia.
  replace (S (List.length u' + j) - List.length u')%nat with (S j) by lia.
  cbn [nth]. now rewrite app_nth1 by lia.
Qed.

(** Walking back from a white-space character over the blanks in front
    of it stops at the last character of the text before. *)
Lemma back_ws_at (a u' w s : bytes) (z : ascii) (i j : nat) :
  i = List.length a -> white_space z = false ->
  forallb white_space w = true -> (j <= List.length w)%nat ->
  back_ws (a ++ u' ++ z :: w ++ s) i (List.length u' + j)
  = (i + List.length u')%nat.
Proof.
  intros -> Hz Hw. induction j as [|j IH]; intros Hj.
  - rewrite Nat.add_0_r.
    remember (List.length u') as n eqn:En.
    destruct n as [|n]; cbn [back_ws]; [lia|].
    rewrite (@peek_text_end a u' (w ++ s) z _) by lia.
    now rewrite Hz.
  - replace (List.length u' + S j)%nat with (S (List.length u' + j)) by lia.
    cbn [back_ws].
    rewrite (@peek_blank a u' w s z _ j) by lia.
    assert (Hn : white_space (nth j w NUL) = true).
    { rewrite forallb_forall in Hw. apply Hw. apply nth_In. lia. }
    rewrite Hn. apply IH. lia.
Qed.

Lemma strrchr_absent (s : bytes) (x : ascii) :
  forallb (fun c => negb (Ascii.eqb c x)) s = true -> strrchr s x = None.
Proof.
  induction s as [|c r IH]; intros H; [reflexivity|].
  cbn [forallb] in H. apply andb_true_iff in H as [Hc Hr].
  apply negb_true_iff in Hc. cbn [strrchr]. now rewrite (IH Hr), Hc.
Qed.

Lemma strrchr_app_absent (a t : bytes) (x : ascii) :
  strrchr t x = None -> strrchr (a ++ t) x = strrchr a x.
Proof.
  intros Ht. induction a as [|c r IH]; [exact Ht|].
  cbn [app strrchr]. now rewrite IH.
Qed.

Lemma strrchr_app_last (a b : bytes) (x : ascii) :
  strrchr b x = None -> strrchr (a ++ x :: b) x = Some (List.length a).
Proof.
  intros Hb. induction a as [|c r IH].
  - cbn [app strrchr List.length]. now rewrite Hb, Ascii.eqb_refl.
  - cbn [app strrchr List.length]. now rewrite IH.
Qed.

Lemma strrchr_lt (a : bytes) (x : ascii) (k : nat) :
  strrchr a x = Some k -> (k < List.length a)%nat.
Proof.
  revert k; induction a as [|c r IH]; intros k; [discriminate|].
  cbn [strrchr List.length].
  destruct (strrchr r x) as [j|].
  - intros [= <-]. specialize (IH j eq_refl). lia.
  - destruct (Ascii.eqb c x); [|discriminate]. intros [= <-]. lia.
Qed.

Lemma no_ws_absent (b : bytes) :
  forallb (fun c => negb (is_nul c || white_space c)) b = true ->
  strrchr b SP = None /\ strrchr b TAB = None.
Proof.
  intros H. split; apply strrchr_absent;
    (induction b as [|c r IH]; [reflexivity|]);
    cbn [forallb] in *; apply andb_true_iff in H as [Hc Hr];
    apply negb_true_iff in Hc; apply orb_false_iff in Hc as [_ Hc];
    unfold white_space in Hc; apply orb_false_iff in Hc as [H1 H2];
    rewrite ?H1, ?H2; cbn [negb andb]; now apply IH.
Qed.

(** The pointer that [scan_request_line] keeps of the two [strrchr]
    results is the last white-space character of the string. *)
Lemma last_white_space (a b : bytes) (c : ascii) :
  white_space c = true ->
  forallb (fun x => negb (is_nul x || white_space x)) b = true ->
  match strrchr (a ++ c :: b) SP, strrchr (a ++ c :: b) TAB with
  | None, _ => strrchr (a ++ c :: b) TAB
  | Some s, Some t =>
      if (s <? t)%nat then strrchr (a ++ c :: b) TAB
      else strrchr (a ++ c :: b) SP
  | Some _, None => strrchr (a ++ c :: b) SP
  end = Some (List.length a).
Proof.
  intros Hc Hb. destruct (no_ws_absent b Hb) as [Hsp Htab].
  unfold white_space in Hc. apply orb_true_iff in Hc as [Hc|Hc];
    apply Ascii.eqb_eq in Hc; subst c.
  - rewrite (strrchr_app_last a b SP Hsp).
    assert (Ht : strrchr (a ++ SP :: b) TAB = strrchr a TAB).
    { apply strrchr_app_absent. cbn [strrchr]. now rewrite Htab. }
    rewrite Ht. destruct (strrchr a TAB) as [t|] eqn:Et; [|reflexivity].
    apply strrchr_lt in Et.
    destruct (List.length a <? t)%nat eqn:El; [|reflexivity].
    apply Nat.ltb_lt in El. lia.
  - rewrite (strrchr_app_last a b TAB Htab).
    assert (Hs : strrchr (a ++ TAB :: b) SP = strrchr a SP).
    { apply strrchr_app_absent. cbn [strrchr]. now rewrite Hsp. }
    rewrite Hs. destruct (strrchr a SP) as [s|] eqn:Es; [|reflexivity].
    apply strrchr_lt in Es.
    destruct (s <? List.length a)%nat eqn:El; [reflexivity|].
    apply Nat.ltb_ge in El. lia.
Qed.

Lemma first_char_app (a b : bytes) :
  a <> [] -> first_char (a ++ b) = first_char a.
Proof. destruct a; [congruence|reflexivity]. Qed.

(** The scan of a line "method uri protocol", piece by piece. *)
Lemma scan_request_line_pieces (tail : bytes) (p : stla_http_s)
  (w0 m w1' u' w2' pr : bytes) (b1 z b2 : ascii) :
  forallb white_space w0 = true ->
  is_token m = true ->
  white_space b1 = true -> forallb white_space w1' = true ->
  forallb (fun c => negb (is_nul c)) (u' ++ [z]) = true ->
  white_space (first_char (u' ++ [z])) = false ->
  white_space z = false ->
  white_space b2 = true -> forallb white_space w2' = true ->
  is_token pr = true ->
  scan_request_line tail p
    (w0 ++ m ++ b1 :: w1' ++ u' ++ z :: b2 :: w2' ++ pr)
  = set_request p (Some m) (Some (u' ++ [z])) (Some pr).
Proof.
  intros Hw0 Hm Hb1 Hw1 Hnul Hfirst Hz Hb2 Hw2 Hpr.
  unfold is_token in Hm, Hpr.
  apply andb_true_iff in Hm as [Hmne Hm].
  apply andb_true_iff in Hpr as [Hprne Hpr].
  assert (Hm0 : white_space (first_char m) = false
                /\ forallb (fun c => negb (is_nul c)) m = true).
  { split.
    - destruct m as [|c r]; [discriminate|]. cbn in *.
      apply andb_true_iff in Hm as [Hc _]. apply negb_true_iff in Hc.
      now apply orb_false_iff in Hc.
    - clear Hmne. induction m as [|c r IH]; [reflexivity|].
      cbn [forallb] in *. apply andb_true_iff in Hm as [Hc Hr].
      apply negb_true_iff in Hc. apply orb_false_iff in Hc as [-> _].
      now apply IH. }
  destruct Hm0 as [Hmfirst Hmnul].
  assert (Hpr0 : white_space (first_char pr) = false
                /\ forallb (fun c => negb (is_nul c)) pr = true).
  { split.
    - destruct pr as [|c r]; [discriminate|]. cbn in *.
      apply andb_true_iff in Hpr as [Hc _]. apply negb_true_iff in Hc.
      now apply orb_false_iff in Hc.
    - clear Hprne. induction pr as [|c r IH]; [reflexivity|].
      cbn [forallb] in *. apply andb_true_iff in Hpr as [Hc Hr].
      apply negb_true_iff in Hc. apply orb_false_iff in Hc as [-> _].
      now apply IH. }
  destruct Hpr0 as [Hprfirst Hprnul].
  set (T := NUL :: tail).
  set (mem := (w0 ++ m ++ b1 :: w1' ++ u' ++ z :: b2 :: w2' ++ pr) ++ T).
  set (U := (S (List.length w0 + List.length m) + List.length w1')%nat).
  set (mem1 := w0 ++ m ++ NUL :: w1' ++ u' ++ z :: b2 :: w2' ++ pr ++ T).
  set (mem2 := w0 ++ m ++ NUL :: w1' ++ u' ++ z :: NUL :: w2' ++ pr ++ T).
  assert (Emem : mem
                 = w0 ++ m ++ b1 :: w1' ++ u' ++ z :: b2 :: w2' ++ pr ++ T).
  { unfold mem. norm_app. reflexivity. }
  assert (E1 : skip_ws mem 0 = List.length w0).
  { rewrite Emem.
    rewrite (@skip_ws_at _ [] w0
               (m ++ b1 :: w1' ++ u' ++ z :: b2 :: w2' ++ pr ++ T) 0);
      try reflexivity; try assumption.
    rewrite first_char_app; [exact Hmfirst|].
    destruct m; [discriminate|discriminate]. }
  assert (E2 : skip_token mem (List.length w0)
               = (List.length w0 + List.length m)%nat).
  { rewrite Emem.
    apply (@skip_token_at _ w0 m
             (b1 :: w1' ++ u' ++ z :: b2 :: w2' ++ pr ++ T));
      try reflexivity; try assumption.
    cbn. now rewrite Hb1, orb_true_r. }
  assert (E3 : poke mem (List.length w0 + List.length m) NUL = mem1).
  { rewrite Emem. unfold mem1.
    replace (w0 ++ m ++ b1 :: w1' ++ u' ++ z :: b2 :: w2' ++ pr ++ T)
      with ((w0 ++ m) ++ b1 :: (w1' ++ u' ++ z :: b2 :: w2' ++ pr ++ T))
      by (norm_app; reflexivity).
    rewrite poke_at; [|now rewrite length_app].
    norm_app. reflexivity. }
  assert (E4 : skip_ws mem1 (S (List.length w0 + List.length m)) = U).
  { unfold mem1, U.
    apply (@skip_ws_at _ (w0 ++ m ++ [NUL]) w1'
             (u' ++ z :: b2 :: w2' ++ pr ++ T));
      try assumption.
    - norm_app. reflexivity.
    - norm_len.
    - destruct u' as [|c r]; [exact Hz|exact Hfirst]. }
  assert (Hnul2 : forallb (fun c => negb (is_nul c))
                    (u' ++ z :: b2 :: w2' ++ pr) = true).
  { rewrite forallb_app in Hnul. apply andb_true_iff in Hnul as [Hu Hz'].
    rewrite forallb_app. rewrite Hu. cbn [forallb andb] in *.
    apply andb_true_iff in Hz' as [-> _]. cbn [andb].
    assert (Hws : forall c, white_space c = true -> negb (is_nul c) = true).
    { intros c Hc. unfold white_space in Hc.
      apply orb_true_iff in Hc as [Hc|Hc]; apply Ascii.eqb_eq in Hc;
        subst c; reflexivity. }
    rewrite (Hws b2 Hb2). cbn [andb]. rewrite forallb_app, Hprnul.
    rewrite andb_true_r. rewrite forallb_forall in Hw2.
    apply forallb_forall. intros c Hc. apply Hws. now apply Hw2. }
  assert (E5 : string_at mem1 U = u' ++ z :: b2 :: w2' ++ pr).
  { unfold mem1, U, T.
    apply (@string_at_at _ (w0 ++ m ++ NUL :: w1') _ tail);
      try assumption.
    - norm_app. reflexivity.
    - norm_len. }
  destruct (@exists_last _ (b2 :: w2')) as (front & c & Efront);
    [discriminate|].
  assert (Hfc : forallb white_space (front ++ [c]) = true).
  { rewrite <- Efront. cbn [forallb]. now rewrite Hb2, Hw2. }
  rewrite forallb_app in Hfc. apply andb_true_iff in Hfc as [Hfront Hc].
  cbn [forallb] in Hc. rewrite andb_true_r in Hc.
  assert (Elen : List.length front = List.length w2').
  { apply (f_equal (@List.length ascii)) in Efront.
    rewrite length_app in Efront. cbn in Efront. lia. }
  assert (E6 : u' ++ z :: b2 :: w2' ++ pr
               = (u' ++ z :: front) ++ c :: pr).
  { change (z :: b2 :: w2' ++ pr) with (z :: (b2 :: w2') ++ pr).
    rewrite Efront. norm_app. reflexivity. }
  assert (E7 : back_ws mem1 U (List.length u' + S (List.length w2'))
               = (U + List.length u')%nat).
  { unfold mem1.
    replace (w0 ++ m ++ NUL :: w1' ++ u' ++ z :: b2 :: w2' ++ pr ++ T)
      with ((w0 ++ m ++ NUL :: w1') ++ u' ++ z :: (b2 :: w2') ++ (pr ++ T))
      by (norm_app; reflexivity).
    apply back_ws_at; try assumption.
    - unfold U. norm_len.
    - cbn [forallb]. now rewrite Hb2, Hw2.
    - cbn. lia. }
  assert (E8 : peek mem1 (U + List.length u') = z).
  { unfold mem1.
    replace (w0 ++ m ++ NUL :: w1' ++ u' ++ z :: b2 :: w2' ++ pr ++ T)
      with ((w0 ++ m ++ NUL :: w1') ++ u' ++ z :: (b2 :: w2' ++ pr ++ T))
      by (norm_app; reflexivity).
    apply peek_text_end.
    unfold U. norm_len. }
  assert (E9 : poke mem1 (S (U + List.length u')) NUL = mem2).
  { unfold mem1, mem2.
    replace (w0 ++ m ++ NUL :: w1' ++ u' ++ z :: b2 :: w2' ++ pr ++ T)
      with ((w0 ++ m ++ NUL :: w1' ++ u' ++ [z]) ++ b2 :: (w2' ++ pr ++ T))
      by (norm_app; reflexivity).
    rewrite poke_at.
    - norm_app. reflexivity.
    - unfold U. norm_len. }
  assert (E10 : skip_ws mem2 (S (S (U + List.length u')))
                = (S (S (U + List.length u')) + List.length w2')%nat).
  { unfold mem2.
    apply (@skip_ws_at _ (w0 ++ m ++ NUL :: w1' ++ u' ++ [z; NUL]) w2'
             (pr ++ T)); try assumption.
    - norm_app. reflexivity.
    - unfold U. norm_len.
    - rewrite first_char_app; [exact Hprfirst|].
      destruct pr; [discriminate|discriminate]. }
  assert (E11 : string_at mem2 (List.length w0) = m).
  { unfold mem2.
    apply (@string_at_at _ w0 m
             (w1' ++ u' ++ z :: NUL :: w2' ++ pr ++ T));
      try reflexivity; assumption. }
  assert (E12 : string_at mem2 U = u' ++ [z]).
  { unfold mem2.
    apply (@string_at_at _ (w0 ++ m ++ NUL :: w1') (u' ++ [z])
             (w2' ++ pr ++ T)); try assumption.
    - norm_app. reflexivity.
    - unfold U. norm_len. }
  assert (E13 : string_at mem2
                  (S (S (U + List.length u')) + List.length w2') = pr).
  { unfold mem2, T.
    apply (@string_at_at _
             (w0 ++ m ++ NUL :: w1' ++ u' ++ z :: NUL :: w2') pr tail);
      try assumption.
    - norm_app. reflexivity.
    - unfold U. norm_len. }
  unfold scan_request_line. fold T. fold mem. cbv zeta.
  rewrite E1, E2, E3, E4, E5.
  rewrite E6.
  rewrite (last_white_space (u' ++ z :: front) pr c Hc Hpr).
  replace (List.length (u' ++ z :: front))
    with (List.length u' + S (List.length w2'))%nat
    by (rewrite length_app; cbn; lia).
  rewrite E7, E8, Hz, E9, E10, E11, E12, E13.
  reflexivity.
Qed.

(** X10: a request line "method uri protocol" is taken apart as it
    reads: the method is the first token, the protocol the last one,
    and the uri everything in between without the blanks and tabs
    around it, white space inside the uri included; blanks before the
    method are skipped and the parse succeeds.  This holds for every
    content of the region behind the copied line and every previous
    content of the three fields. *)
Theorem request_line_parsed :
  forall region_tail p w0 m w1 u w2 pr block,
    forallb white_space w0 = true ->
    is_token m = true -> is_blank w1 = true ->
    is_uri_text u = true ->
    is_blank w2 = true -> is_token pr = true ->
    plain_line (w0 ++ m ++ w1 ++ u ++ w2 ++ pr) = true ->
    let r := parse_request_and_headers region_tail p
               ((w0 ++ m ++ w1 ++ u ++ w2 ++ pr) ++ crlf ++ block) in
    method (fst r) = Some m /\ uri (fst r) = Some u
    /\ protocol (fst r) = Some pr /\ snd r = true.
Proof.
  intros tail p w0 m w1 u w2 pr block Hw0 Hm Hw1 Hu Hw2 Hpr Hline r.
  subst r. unfold parse_request_and_headers.
  rewrite (memmem_line _ block Hline).
  unfold stla_pool_strndup.
  rewrite firstn_app, firstn_all, Nat.sub_diag. cbn [firstn].
  rewrite app_nil_r, (cstr_plain _ (plain_line_no_nul _ Hline)).
  unfold is_blank in Hw1, Hw2.
  apply andb_true_iff in Hw1 as [Hw1ne Hw1].
  apply andb_true_iff in Hw2 as [Hw2ne Hw2].
  destruct w1 as [|b1 w1']; [discriminate|].
  destruct w2 as [|b2 w2']; [discriminate|].
  cbn [forallb] in Hw1, Hw2.
  apply andb_true_iff in Hw1 as [Hb1 Hw1].
  apply andb_true_iff in Hw2 as [Hb2 Hw2].
  unfold is_uri_text in Hu.
  apply andb_true_iff in Hu as [Hu Hlast].
  apply andb_true_iff in Hu as [Hu Hfirst].
  apply andb_true_iff in Hu as [Hune Hunul].
  apply negb_true_iff in Hlast. apply negb_true_iff in Hfirst.
  destruct (@exists_last _ u) as (u' & z & ->).
  { destruct u; [discriminate|discriminate]. }
  rewrite last_last in Hlast.
  assert (E : w0 ++ m ++ (b1 :: w1') ++ (u' ++ [z]) ++ (b2 :: w2') ++ pr
              = w0 ++ m ++ b1 :: w1' ++ u' ++ z :: b2 :: w2' ++ pr).
  { norm_app. reflexivity. }
  rewrite E.
  rewrite (@scan_request_line_pieces tail _ w0 m w1' u' w2' pr b1 z b2);
    try assumption.
  cbn. repeat split.
Qed.

Lemma request_line_parsed_witness :
  let r := parse_request_and_headers (s2b "junk") zero_block
             (([TAB] ++ s2b "GET" ++ s2b " " ++ s2b "/a b?x=1"
               ++ s2b "  " ++ s2b "HTTP/1.0")
              ++ crlf ++ s2b "Host: x" ++ crlfcrlf) in
  method (fst r) = Some (s2b "GET") /\ uri (fst r) = Some (s2b "/a b?x=1")
  /\ protocol (fst r) = Some (s2b "HTTP/1.0") /\ snd r = true.
Proof.
  apply (@request_line_parsed (s2b "junk") zero_block [TAB] (s2b "GET")
           (s2b " ") (s2b "/a b?x=1") (s2b "  ") (s2b "HTTP/1.0")
           (s2b "Host: x" ++ crlfcrlf));
    reflexivity.
Defined.

Lemma token_facts (m : bytes) :
  is_token m = true ->
  m <> []
  /\ forallb (fun c => negb (is_nul c || white_space c)) m = true
  /\ white_space (first_char m) = false
  /\ forallb (fun c => negb (is_nul c)) m = true.
Proof.
  unfold is_token. intros H. apply andb_true_iff in H as [Hne Hm].
  split; [destruct m; [discriminate|discriminate]|].
  split; [exact Hm|]. split.
  - destruct m as [|c r]; [discriminate|]. cbn in *.
    apply andb_true_iff in Hm as [Hc _]. apply negb_true_iff in Hc.
    now apply orb_false_iff in Hc.
  - clear Hne. induction m as [|c r IH]; [reflexivity|].
    cbn [forallb] in *. apply andb_true_iff in Hm as [Hc Hr].
    apply negb_true_iff in Hc. apply orb_false_iff in Hc as [-> _].
    now apply IH.
Qed.

(** The scan of a line "method uri" with nothing behind the uri. *)
Lemma scan_request_line_two_tokens (tail : bytes) (p : stla_http_s)
  (w0 m w1' u : bytes) (b1 : ascii) :
  forallb white_space w0 = true ->
  is_token m = true ->
  white_space b1 = true -> forallb white_space w1' = true ->
  is_token u = true ->
  scan_request_line tail p (w0 ++ m ++ b1 :: w1' ++ u)
  = set_request p (Some m) (Some u) (protocol p).
Proof.
  intros Hw0 Hm Hb1 Hw1 Hu.
  destruct (token_facts m Hm) as (Hmne & Hmtok & Hmfirst & Hmnul).
  destruct (token_facts u Hu) as (Hune & Hutok & Hufirst & Hunul).
  set (T := NUL :: tail).
  set (mem := (w0 ++ m ++ b1 :: w1' ++ u) ++ T).
  set (U := (S (List.length w0 + List.length m) + List.length w1')%nat).
  set (mem1 := w0 ++ m ++ NUL :: w1' ++ u ++ T).
  assert (Emem : mem = w0 ++ m ++ b1 :: w1' ++ u ++ T).
  { unfold mem. norm_app. reflexivity. }
  assert (E1 : skip_ws mem 0 = List.length w0).
  { rewrite Emem.
    rewrite (@skip_ws_at _ [] w0 (m ++ b1 :: w1' ++ u ++ T) 0);
      try reflexivity; try assumption.
    rewrite first_char_app; assumption. }
  assert (E2 : skip_token mem (List.length w0)
               = (List.length w0 + List.length m)%nat).
  { rewrite Emem.
    apply (@skip_token_at _ w0 m (b1 :: w1' ++ u ++ T));
      try reflexivity; try assumption.
    cbn. now rewrite Hb1, orb_true_r. }
  assert (E3 : poke mem (List.length w0 + List.length m) NUL = mem1).
  { rewrite Emem. unfold mem1.
    replace (w0 ++ m ++ b1 :: w1' ++ u ++ T)
      with ((w0 ++ m) ++ b1 :: (w1' ++ u ++ T))
      by (norm_app; reflexivity).
    rewrite poke_at; [|now rewrite length_app].
    norm_app. reflexivity. }
  assert (E4 : skip_ws mem1 (S (List.length w0 + List.length m)) = U).
  { unfold mem1, U.
    apply (@skip_ws_at _ (w0 ++ m ++ [NUL]) w1' (u ++ T)); try assumption.
    - norm_app. reflexivity.
    - norm_len.
    - rewrite first_char_app; assumption. }
  assert (E5 : string_at mem1 U = u).
  { unfold mem1, U, T.
    apply (@string_at_at _ (w0 ++ m ++ NUL :: w1') u tail); try assumption.
    - norm_app. reflexivity.
    - norm_len. }
  assert (E6 : string_at mem1 (List.length w0) = m).
  { unfold mem1.
    apply (@string_at_at _ w0 m (w1' ++ u ++ T));
      try reflexivity; assumption. }
  destruct (no_ws_absent u Hutok) as [Hsp Htab].
  unfold scan_request_line. fold T. fold mem. cbv zeta.
  rewrite E1, E2, E3, E4, E5, Hsp, Htab, E6. reflexivity.
Qed.

(** X11: a request line of two tokens, "method uri" with no protocol,
    assigns method and uri and leaves the protocol field as it was,
    so the parse fails on a parser whose protocol is null and
    succeeds on a parser that still holds a protocol from an earlier
    request. *)
Theorem request_line_without_protocol :
  forall region_tail p w0 m w1 u block,
    forallb white_space w0 = true ->
    is_token m = true -> is_blank w1 = true -> is_token u = true ->
    plain_line (w0 ++ m ++ w1 ++ u) = true ->
    let r := parse_request_and_headers region_tail p
               ((w0 ++ m ++ w1 ++ u) ++ crlf ++ block) in
    method (fst r) = Some m /\ uri (fst r) = Some u
    /\ protocol (fst r) = protocol p
    /\ snd r = match protocol p with
               | Some _ => true
               | None => false
               end.
Proof.
  intros tail p w0 m w1 u block Hw0 Hm Hw1 Hu Hline r.
  subst r. unfold parse_request_and_headers.
  rewrite (memmem_line _ block Hline).
  unfold stla_pool_strndup.
  rewrite firstn_app, firstn_all, Nat.sub_diag. cbn [firstn].
  rewrite app_nil_r, (cstr_plain _ (plain_line_no_nul _ Hline)).
  unfold is_blank in Hw1. apply andb_true_iff in Hw1 as [Hne Hw1].
  destruct w1 as [|b1 w1']; [discriminate Hne|].
  cbn [forallb] in Hw1. apply andb_true_iff in Hw1 as [Hb1 Hw1].
  assert (E : w0 ++ m ++ (b1 :: w1') ++ u = w0 ++ m ++ b1 :: w1' ++ u).
  { norm_app. reflexivity. }
  rewrite E.
  rewrite (@scan_request_line_two_tokens tail _ w0 m w1' u b1);
    try assumption.
  cbn. destruct (protocol p); repeat split.
Qed.

Lemma request_line_without_protocol_witness :
  let r := parse_request_and_headers (s2b "junk") zero_block
             (([] ++ s2b "GET" ++ s2b " " ++ s2b "/hi")
              ++ crlf ++ crlf) in
  method (fst r) = Some (s2b "GET") /\ uri (fst r) = Some (s2b "/hi")
  /\ protocol (fst r) = protocol zero_block
  /\ snd r = match protocol zero_block with
             | Some _ => true
             | None => false
             end.
Proof.
  apply (@request_line_without_protocol (s2b "junk") zero_block []
           (s2b "GET") (s2b " ") (s2b "/hi") crlf);
    reflexivity.
Defined.

(** ** The pool: release, acquire and destroy *)

(** X12: a released pool member is the next parser that
    [stla_http_init] hands out, and the group is as before the
    release.  The parser comes back reading headers with a cleared
    reader and no accumulated chunks, and with method, uri, protocol,
    headers and body fields still as the previous request left them. *)
Theorem release_then_init_recycles :
  forall block g p,
    is_member p = true ->
    stla_http_init block (stla_http_release g p) = (recycled p, g)
    /\ method (recycled p) = method p /\ uri (recycled p) = uri p
    /\ protocol (recycled p) = protocol p
    /\ headers (recycled p) = headers p
    /\ post_data (recycled p) = post_data p.
Proof.
  intros block g p Hm. split; [|repeat split].
  unfold stla_http_release.
  change (pool_member (set_cache p None)) with (pool_member p).
  unfold is_member in Hm. rewrite Hm.
  unfold stla_http_init. cbn [parser_pool pool_size on_body_chunk_set].
  destruct g as [pool n b]. reflexivity.
Qed.

Lemma release_then_init_recycles_witness :
  stla_http_init zero_block
    (stla_http_release (stla_http_group_init false)
       (first_parser false)) 
  = (recycled (first_parser false), stla_http_group_init false)
  /\ method (recycled (first_parser false)) = method (first_parser false)
  /\ uri (recycled (first_parser false)) = uri (first_parser false)
  /\ protocol (recycled (first_parser false))
     = protocol (first_parser false)
  /\ headers (recycled (first_parser false))
     = headers (first_parser false)
  /\ post_data (recycled (first_parser false))
     = post_data (first_parser false).
Proof.
  apply (@release_then_init_recycles zero_block
           (stla_http_group_init false) (first_parser false)).
  reflexivity.
Defined.

Lemma filter_all (A : Type) (f : A -> bool) (l : list A) :
  forallb f l = true -> filter f l = l.
Proof.
  induction l as [|x l IH]; [reflexivity|].
  cbn. intros H. apply andb_true_iff in H as [-> H]. now rewrite IH.
Qed.

Lemma filter_none (A : Type) (f : A -> bool) (l : list A) :
  existsb f l = false -> filter f l = [].
Proof.
  induction l as [|x l IH]; [reflexivity|].
  cbn. intros H. apply orb_false_iff in H as [-> H]. now apply IH.
Qed.

Lemma filter_some (A : Type) (f : A -> bool) (l : list A) :
  existsb f l = true -> (0 < List.length (filter f l))%nat.
Proof.
  induction l as [|x l IH]; [discriminate|].
  cbn. destruct (f x); cbn; [lia|exact IH].
Qed.

(** The free list of a reachable state against the counter. *)
Lemma free_list_length (b : bool) (s : pool_sys) :
  reachable b s ->
  0 <= pool_size (grp s) <= 255
  /\ Z.of_nat (List.length (parser_pool (grp s)))
     + Z.of_nat (List.length (filter is_member (live s)))
     = pool_size (grp s).
Proof.
  intros Hs. destruct (reachable_pool_inv Hs) as (Hr & Hm & Hf).
  split; [exact Hr|].
  unfold members in Hm. rewrite filter_app, length_app in Hm.
  rewrite (filter_all _ _ Hf) in Hm. lia.
Qed.

Lemma group_destroy_idle (fuel : nat) (g : stla_http_group_s) (n : Z) :
  parser_pool g = [] -> 0 <= n < pool_size g -> n < 2 ^ 32 ->
  stla_http_group_destroy fuel g n = None.
Proof.
  revert g. induction fuel as [|f IH]; intros g Hp Hn Hb; [reflexivity|].
  cbn [stla_http_group_destroy].
  destruct (n <? pool_size g) eqn:E; [|apply Z.ltb_ge in E; lia].
  rewrite Hp. cbn [List.length Z.of_nat].
  rewrite Z.add_0_r, Z.mod_small by lia.
  apply IH; [reflexivity|exact Hn|exact Hb].
Qed.

(** X13: once every pool member that was handed out is released,
    [stla_http_group_destroy] frees exactly [pool_size] parsers and
    returns, after one pass over the free list. *)
Theorem group_destroy_frees_pool :
  forall on_body_chunk_given s fuel,
    reachable on_body_chunk_given s ->
    existsb is_member (live s) = false ->
    stla_http_group_destroy (S (S fuel)) (grp s) 0
    = Some (pool_size (grp s)).
Proof.
  intros b s fuel Hs Hl.
  destruct (free_list_length Hs) as (Hr & Hlen).
  rewrite (filter_none _ _ Hl) in Hlen. cbn [List.length Z.of_nat] in Hlen.
  cbn [stla_http_group_destroy].
  destruct (0 <? pool_size (grp s)) eqn:E.
  - rewrite Z.add_0_l, Z.mod_small by lia.
    cbn [pool_size].
    replace (Z.of_nat (List.length (parser_pool (grp s))))
      with (pool_size (grp s)) by lia.
    now rewrite Z.ltb_irrefl.
  - apply Z.ltb_ge in E. f_equal. lia.
Qed.

Lemma group_destroy_frees_pool_witness :
  let s1 := mk_sys (snd (stla_http_init zero_block
                           (stla_http_group_init false)))
                   [fst (stla_http_init zero_block
                           (stla_http_group_init false))] in
  let s2 := mk_sys (stla_http_release (grp s1)
                      (fst (stla_http_init zero_block
                              (stla_http_group_init false)))) [] in
  pool_size (grp s2) = 1
  /\ stla_http_group_destroy 2 (grp s2) 0 = Some (pool_size (grp s2)).
Proof.
  intros s1 s2. split; [reflexivity|].
  apply (@group_destroy_frees_pool false s2 0%nat); [|reflexivity].
  apply (@reach_step false s1 s2).
  - apply (@reach_step false (mk_sys (stla_http_group_init false) []) s1).
    + constructor.
    + exact (step_acquire (mk_sys (stla_http_group_init false) [])
               zero_block).
  - exact (@step_release s1 [] []
             (fst (stla_http_init zero_block (stla_http_group_init false)))
             eq_refl).
Defined.

(** X14: while a pool member is handed out and not released,
    [stla_http_group_destroy] does not return: on its own it goes
    round the outer loop, sleeping, for ever. *)
Theorem group_destroy_waits_for_members :
  forall on_body_chunk_given s fuel,
    reachable on_body_chunk_given s ->
    existsb is_member (live s) = true ->
    stla_http_group_destroy fuel (grp s) 0 = None.
Proof.
  intros b s fuel Hs Hl.
  destruct (free_list_length Hs) as (Hr & Hlen).
  pose proof (filter_some _ _ Hl) as Hpos.
  destruct fuel as [|f]; [reflexivity|].
  cbn [stla_http_group_destroy].
  destruct (0 <? pool_size (grp s)) eqn:E; [|apply Z.ltb_ge in E; lia].
  rewrite Z.add_0_l, Z.mod_small by lia.
  apply group_destroy_idle; cbn [parser_pool pool_size]; [reflexivity|lia|lia].
Qed.

Lemma group_destroy_waits_for_members_witness :
  let s1 := mk_sys (snd (stla_http_init zero_block
                           (stla_http_group_init false)))
                   [fst (stla_http_init zero_block
                           (stla_http_group_init false))] in
  stla_http_group_destroy 1000 (grp s1) 0 = None.
Proof.
  intros s1.
  apply (@group_destroy_waits_for_members false s1 1000%nat); [|reflexivity].
  apply (@reach_step false (mk_sys (stla_http_group_init false) []) s1).
  - constructor.
  - exact (step_acquire (mk_sys (stla_http_group_init false) []) zero_block).
Defined.

(** ** The parser across calls *)



Lemma plan_request_fields (tail : bytes) (g : stla_http_group_s)
  (p p1 : stla_http_s) (o : option pull) :
  state p <> http_state_reading_headers ->
  plan tail g p = Some (p1, o) ->
  request_fields p1 = request_fields p
  /\ state p1 <> http_state_reading_headers.
Proof.
  intros Hs. unfold plan.
  destruct (state p =? http_state_reading_headers) eqn:E0;
    [apply Z.eqb_eq in E0; contradiction|].
  destruct (state p =? http_state_reading_whole_body);
    [intros [= <- <-]; split; [reflexivity|discriminate]|].
  destruct (state p =? http_state_reading_chunk_size).
  { destruct (sscanf_unsigned (collect_xdigits 63 (view p))) as [n|];
      [destruct (0 <? n)|]; intros [= <- <-];
      (split; [reflexivity|discriminate]). }
  destruct (state p =? http_state_reading_chunk_data).
  { destruct (bytes_at (view p) (chunk_length p)) as [c|]; [|discriminate].
    intros [= <- <-]. unfold take_chunk.
    destruct (on_body_chunk_set g); (split; [reflexivity|discriminate]). }
  destruct (state p =? http_state_reading_footers) eqn:E4.
  { apply Z.eqb_eq in E4.
    destruct (0 <? view_length p); intros [= <- <-].
    - split; [reflexivity|exact Hs].
    - unfold end_of_transmission. cbn.
      destruct (chunk_body_cache p);
        (split; [reflexivity|rewrite E4; discriminate]). }
  intros [= <- <-]. split; [reflexivity|exact Hs].
Qed.

Lemma runs_request_fields (tail : bytes) (g : stla_http_group_s)
  (p r : stla_http_s) :
  runs tail g p r ->
  state p <> http_state_reading_headers ->
  request_fields r = request_fields p
  /\ state r <> http_state_reading_headers.
Proof.
  induction 1 as [p p1 Hpl|p p1 q Hpl Hsat|p p1 r q v rest Hpl Hsat Hr IH];
    intros Hs;
    destruct (@plan_request_fields tail g p _ _ Hs Hpl) as [Hf Hn].
  - split; assumption.
  - split; assumption.
  - destruct (IH Hn) as [Hf' Hn']. split; [|exact Hn'].
    rewrite Hf'. exact Hf.
Qed.

Lemma fed_request_fields (tail : bytes) (g : stla_http_group_s)
  (p r : stla_http_s) :
  fed tail g p r ->
  state p <> http_state_reading_headers ->
  request_fields r = request_fields p
  /\ state r <> http_state_reading_headers.
Proof.
  intros [p0 Hp|p0 q Hp Hsat|p0 r0 q v rest Hp Hsat Hr] Hs.
  - split; [reflexivity|exact Hs].
  - split; [reflexivity|exact Hs].
  - apply (runs_request_fields Hr). exact Hs.
Qed.

(** X16: once the header phase is over, method, uri, protocol and the
    header lines stay as they are through every later
    [stla_http_parse] call: nothing but the header block of [on_data]
    assigns them, and no state leads back to reading headers. *)
Theorem request_fields_stable_after_headers :
  forall region_tail g chunks p r,
    at_rest p ->
    state p <> http_state_reading_headers ->
    feed region_tail g p chunks = Some r ->
    request_fields r = request_fields p
    /\ state r <> http_state_reading_headers.
Proof.
  intros tail g chunks. induction chunks as [|c cs IH]; intros p r Hp Hs Hr.
  - cbn in Hr. injection Hr as <-. split; [reflexivity|exact Hs].
  - cbn [feed] in Hr.
    destruct (has_state p http_state_read_complete) eqn:Hc.
    + unfold stla_http_parse in Hr. rewrite Hc in Hr.
      apply (IH (emit p on_parsing_error) r); try assumption.
    + destruct (stla_http_parse tail g p c) as [r1|] eqn:Hr1;
        [|discriminate Hr].
      destruct (@http_parse_some tail g p r1 c Hp Hc Hr1) as [Hfed Hrest].
      destruct (@fed_request_fields tail g (more_bytes p c) r1 Hfed Hs)
        as [Hf1 Hn1].
      destruct (IH r1 r Hrest Hn1 Hr) as [Hf Hn].
      split; [|exact Hn]. rewrite Hf. exact Hf1.
Qed.

Lemma request_fields_stable_after_headers_witness :
  request_fields
    (mk_http (mk_async (s2b "zz") (Some (need_string crlf))
                       (s2b "hello" ++ crlf))
             (Some (s2b "/")) (Some (s2b "POST")) (Some (s2b "HTTP/1.1"))
             None 0 [s2b "Transfer-Encoding: chunked"]
             http_state_reading_chunk_size 1 None
             [on_headers; on_body_chunk (s2b "hello") 5])
  = request_fields awaiting_chunk
  /\ http_state_reading_chunk_size <> http_state_reading_headers.
Proof.
  apply (@request_fields_stable_after_headers (s2b "junk")
           (stla_http_group_init true)
           [s2b "5"; crlf ++ s2b "he"; s2b "llo" ++ crlf ++ s2b "zz"]
           awaiting_chunk
           (mk_http (mk_async (s2b "zz") (Some (need_string crlf))
                       (s2b "hello" ++ crlf))
             (Some (s2b "/")) (Some (s2b "POST")) (Some (s2b "HTTP/1.1"))
             None 0 [s2b "Transfer-Encoding: chunked"]
             http_state_reading_chunk_size 1 None
             [on_headers; on_body_chunk (s2b "hello") 5])).
  - right. split.
    + right. right. left. reflexivity.
    + exists (need_string crlf). split; reflexivity.
  - discriminate.
  - vm_compute. reflexivity.
Defined.

(** ** One chunk *)

(** X17: a chunk on the wire, read by a parser that waits for a chunk
    size: a size line that opens with the decimal numeral of the
    payload's length, whatever text follows the numeral up to CRLF,
    then the payload and two more bytes.  The parser hands exactly the
    payload to [on_body_chunk] (or appends it to the chunk cache when
    the group has no such handler) and waits for the next size line.
    The two bytes behind the payload are consumed without being
    looked at. *)
Theorem chunk_delivered :
  forall region_tail g p ds ext payload x y,
    state p = http_state_reading_chunk_size ->
    pending (async_buffer p) = Some (need_string crlf) ->
    unread (async_buffer p) = [] ->
    ds <> [] -> forallb isdigit ds = true -> (List.length ds <= 63)%nat ->
    decimal ds = zlen payload -> payload <> [] ->
    zlen payload + 2 < 2 ^ 64 ->
    plain_line (ds ++ ext) = true ->
    isxdigit (first_char (ext ++ crlf)) = false ->
    exists r,
      stla_http_parse region_tail g p
        (ds ++ ext ++ crlf ++ payload ++ [x; y]) = Some r
      /\ state r = http_state_reading_chunk_size
      /\ pending (async_buffer r) = Some (need_string crlf)
      /\ unread (async_buffer r) = []
      /\ (if on_body_chunk_set g
          then trace r = trace p ++ [on_body_chunk payload (zlen payload)]
               /\ chunk_body_cache r = chunk_body_cache p
          else trace r = trace p
               /\ chunk_body_cache r
                  = Some (match chunk_body_cache p with
                          | Some c => c
                          | None => []
                          end ++ payload)).
Proof.
  intros tail g p ds ext body x y Hs Hq Hu Hne Hd Hlen Hdec Hpay Hbig
         Hline Hext.
  set (d := ds ++ ext ++ crlf ++ body ++ [x; y]).
  set (c := mk_chunk (ds ++ ext) body [x; y]).
  set (q := more_bytes p d).
  assert (Hn : 0 < zlen body).
  { destruct body; [congruence|]. unfold zlen. cbn [List.length]. lia. }
  assert (Hext' : isxdigit (first_char ext) = false).
  { destruct ext; [reflexivity|exact Hext]. }
  assert (Hw : well_sized c).
  { unfold well_sized, c. cbn [size_line payload chunk_end].
    split; [exact Hline|]. split; [|repeat split; assumption].
    unfold read_size.
    rewrite collect_xdigits_stop;
      [|exact Hlen|now apply isdigit_isxdigit|exact Hext'].
    rewrite sscanf_unsigned_decimal;
      [|exact Hne|exact Hd|unfold UINT64_MAX; lia].
    now rewrite Hdec. }
  assert (Hd' : unread (async_buffer q) = chunk_bytes c ++ []).
  { change (unread (async_buffer q)) with (unread (async_buffer p) ++ d).
    rewrite Hu. unfold d, chunk_bytes, c. cbn [size_line payload chunk_end].
    norm_app. reflexivity. }
  set (r := waiting (after_chunk g q c []) (need_string crlf)).
  assert (Hp : pulls tail g q (need_string crlf) r).
  { apply (@chunk_step tail g q r c []); [exact Hs|exact Hw|exact Hd'|].
    unfold pulls.
    rewrite (proj1 (proj2 (@after_chunk_fields g q c []))). reflexivity. }
  exists r. split.
  - apply http_parse_fed.
    + right. split; [right; right; left; exact Hs|].
      exists (need_string crlf). split; [exact Hq|].
      rewrite Hu. reflexivity.
    + rewrite (@has_state_eq p _ http_state_read_complete Hs). reflexivity.
    + unfold pulls in Hp. fold q.
      destruct (satisfy (need_string crlf) (unread (async_buffer q)))
        as [[v rest]|] eqn:E.
      * eapply fed_run; [exact Hq|exact E|exact Hp].
      * exfalso. rewrite Hd' in E. unfold chunk_bytes in E.
        rewrite <- !app_assoc in E.
        rewrite (@satisfy_line (size_line c) _ (proj1 Hw)) in E.
        discriminate.
  - unfold r, after_chunk, chunk_taken.
    destruct (on_body_chunk_set g); cbn; rewrite ?Hs; repeat split.
Qed.

Lemma chunk_delivered_witness :
  exists r,
    stla_http_parse (s2b "junk") (stla_http_group_init true) awaiting_chunk
      (s2b "5" ++ s2b ";name=v" ++ crlf ++ s2b "hello" ++ [" "; "!"]%char)
    = Some r
    /\ state r = http_state_reading_chunk_size
    /\ pending (async_buffer r) = Some (need_string crlf)
    /\ unread (async_buffer r) = []
    /\ (if on_body_chunk_set (stla_http_group_init true)
        then trace r
             = trace awaiting_chunk
               ++ [on_body_chunk (s2b "hello") (zlen (s2b "hello"))]
             /\ chunk_body_cache r = chunk_body_cache awaiting_chunk
        else trace r = trace awaiting_chunk
             /\ chunk_body_cache r
                = Some (match chunk_body_cache awaiting_chunk with
                        | Some c => c
                        | None => []
                        end ++ s2b "hello")).
Proof.
  apply (@chunk_delivered (s2b "junk") (stla_http_group_init true)
           awaiting_chunk (s2b "5") (s2b ";name=v") (s2b "hello")
           " "%char "!"%char);
    try reflexivity; try discriminate.
  cbn. lia.
Defined.


(** ** A chunk size that wraps *)

(** X19: a chunk-size line that reads as a number [n] with
    [n + 2] wrapping below 2 in 64 bits (a numeral of 2^64-2 or more:
    [sscanf] saturates at 2^64-1), read by a parser that waits for a
    chunk size, with the bytes that the wrapped pull asks for behind
    it.  The pull of [n + 2] bytes is satisfied with a view of 0 or 1
    bytes, [data_length -= 2] wraps to 2^64-2 or 2^64-1, and the chunk
    is read behind the end of the view: the call has no result.  A
    whole request that ends in such a chunk is shown as well. *)
Theorem wrapping_chunk_size_faults :
  (forall region_tail g p line rest n,
      state p = http_state_reading_chunk_size ->
      pending (async_buffer p) = Some (need_string crlf) ->
      unread (async_buffer p) = [] ->
      plain_line line = true ->
      read_size line = Some n ->
      0 < n -> (n + 2) mod 2 ^ 64 < 2 ->
      (n + 2) mod 2 ^ 64 <= zlen rest ->
      stla_http_parse region_tail g p (line ++ crlf ++ rest) = None
      /\ fed_overruns region_tail g (more_bytes p (line ++ crlf ++ rest)))
  /\ read_size (s2b "18446744073709551615") = Some (2 ^ 64 - 1)
  /\ stla_http_parse [] (stla_http_group_init false) (first_parser false)
                     wrapping_chunk = None.
Proof.
  split; [|split; vm_compute; reflexivity].
  intros tail g p line rest n Hs Hq Hu Hl Hn Hpos Hw Hr.
  set (d := line ++ crlf ++ rest).
  set (k := (n + 2) mod 2 ^ 64) in *.
  assert (Hk : k = 0 \/ k = 1).
  { assert (0 <= k < 2 ^ 64) by (apply Z.mod_pos_bound; lia). lia. }
  assert (Hov : fed_overruns tail g (more_bytes p d)).
  { exists (need_string crlf), line, rest. split; [exact Hq|]. split.
    - change (unread (async_buffer (more_bytes p d)))
        with (unread (async_buffer p) ++ d).
      rewrite Hu. now apply satisfy_line.
    - set (h1 := handed (more_bytes p d) line rest).
      apply (@overruns_later tail g h1
               (set_state h1 http_state_reading_chunk_data)
               (need_bytes k) (firstn (Z.to_nat k) rest)
               (skipn (Z.to_nat k) rest)).
      + rewrite plan_at_chunk_size by exact Hs.
        change (view h1) with line. rewrite Hn.
        destruct (0 <? n) eqn:E; [reflexivity|apply Z.ltb_ge in E; lia].
      + change (unread (async_buffer
                  (set_state h1 http_state_reading_chunk_data)))
          with rest.
        unfold satisfy.
        destruct (k <=? zlen rest) eqn:E;
          [reflexivity|apply Z.leb_gt in E; lia].
      + apply overruns_here; [reflexivity|].
        unfold chunk_length, view_length, stla_async_buffer_data_length.
        cbn [handed set_async async_buffer data set_state].
        assert (Hv : zlen (firstn (Z.to_nat k) rest) = k).
        { unfold zlen in *. rewrite length_firstn. lia. }
        rewrite Hv.
        destruct Hk as [-> | ->]; reflexivity. }
  split; [|exact Hov].
  apply http_parse_overruns; [| |exact Hov].
  - right. split; [right; right; left; exact Hs|].
    exists (need_string crlf). split; [exact Hq|].
    rewrite Hu. reflexivity.
  - rewrite (@has_state_eq p _ http_state_read_complete Hs). reflexivity.
Qed.

Lemma wrapping_chunk_size_faults_witness :
  stla_http_parse (s2b "junk") (stla_http_group_init true) awaiting_chunk
    (s2b "18446744073709551614" ++ crlf ++ []) = None
  /\ fed_overruns (s2b "junk") (stla_http_group_init true)
       (more_bytes awaiting_chunk
          (s2b "18446744073709551614" ++ crlf ++ [])).
Proof.
  apply (proj1 wrapping_chunk_size_faults (s2b "junk")
           (stla_http_group_init true) awaiting_chunk
           (s2b "18446744073709551614") [] (2 ^ 64 - 2));
    reflexivity.
Defined.

(** ** A whole chunked request *)

(** X20: a chunked request in one call on a fresh parser: the head
    with [Transfer-Encoding: chunked] and no length, chunks whose size
    lines read as the lengths of their payloads, a last chunk of size
    0, trailer lines and the empty line.  [on_headers] fires, then
    [on_body_chunk] once per chunk with exactly its payload, in order,
    when the group has the handler; then [on_request_end], with the
    accumulated payloads when the group has no handler and there was a
    chunk, and with what the chunk cache held before otherwise. *)
Theorem chunked_request_delivered :
  forall region_tail g p p1 head cs last trailers,
    initialised p ->
    memmem (head ++ crlfcrlf) crlfcrlf = Some (List.length head) ->
    parse_request_and_headers region_tail p head = (p1, true) ->
    content_length_of p1 = 0 ->
    is_chunked (transfer_encoding_of p1) = true ->
    Forall well_sized cs ->
    plain_line last = true -> read_size last = Some 0 ->
    forallb plain_line trailers = true ->
    forallb nonempty trailers = true ->
    exists r,
      stla_http_parse region_tail g p
        (head ++ crlfcrlf ++ chunked_body cs last trailers) = Some r
      /\ state r = http_state_read_complete
      /\ trace r
         = trace p ++ on_headers :: chunk_events g cs
           ++ [end_event (accumulated g (chunk_body_cache p) cs)].
Proof.
  intros tail g p p1 head cs last trailers Hi Hm E Hcl Hte Hw Hl Hz Hp Hn.
  destruct (@chunked_request_run tail g p p1 head cs last trailers
              Hi Hm E Hcl Hte Hw Hl Hz Hp Hn) as (r & Hr & Hst & Htr & _).
  exists r. repeat split; assumption.
Qed.

Lemma chunked_request_delivered_witness :
  exists r,
    stla_http_parse [] (stla_http_group_init true) (first_parser true)
      ((s2b "POST / HTTP/1.1" ++ crlf ++ s2b "Transfer-Encoding: chunked")
       ++ crlfcrlf
       ++ chunked_body [mk_chunk (s2b "5") (s2b "hello") crlf;
                        mk_chunk (s2b "6") (s2b " world") (s2b "zz")]
                       (s2b "0") []) = Some r
    /\ state r = http_state_read_complete
    /\ trace r
       = [on_headers; on_body_chunk (s2b "hello") 5;
          on_body_chunk (s2b " world") 6; on_request_end None 0].
Proof.
  apply (@chunked_request_delivered [] (stla_http_group_init true)
           (first_parser true)
           (fst (parse_request_and_headers [] (first_parser true)
                   (s2b "POST / HTTP/1.1" ++ crlf
                    ++ s2b "Transfer-Encoding: chunked"))));
    try reflexivity.
  - repeat split.
  - repeat (apply Forall_cons; [repeat split|]); apply Forall_nil.
Defined.

(** ** A request line of one token *)

Lemma cstr_nul_first (s : bytes) :
  is_nul (first_char s) = true -> cstr s = [].
Proof.
  destruct s as [|c r]; [reflexivity|].
  cbn [first_char hd cstr]. now intros ->.
Qed.

Lemma nul_not_white_space (c : ascii) :
  is_nul c = true -> white_space c = false.
Proof.
  unfold is_nul. intros H. apply Ascii.eqb_eq in H. now subst c.
Qed.

Lemma scan_request_line_one_token (tail : bytes) (p : stla_http_s)
  (w0 m : bytes) :
  forallb white_space w0 = true ->
  is_token m = true ->
  is_nul (first_char tail) = true ->
  scan_request_line tail p (w0 ++ m)
  = set_request p (Some m) (Some []) (protocol p).
Proof.
  intros Hw0 Hm Ht.
  destruct (token_facts m Hm) as (Hmne & Hmtok & Hmfirst & Hmnul).
  set (mem := (w0 ++ m) ++ NUL :: tail).
  set (e := (List.length w0 + List.length m)%nat).
  assert (Emem : mem = w0 ++ m ++ NUL :: tail).
  { unfold mem. norm_app. reflexivity. }
  assert (E1 : skip_ws mem 0 = List.length w0).
  { rewrite Emem.
    rewrite (@skip_ws_at _ [] w0 (m ++ NUL :: tail) 0);
      try reflexivity; try assumption.
    rewrite first_char_app; assumption. }
  assert (E2 : skip_token mem (List.length w0) = e).
  { rewrite Emem.
    apply (@skip_token_at _ w0 m (NUL :: tail));
      try reflexivity; assumption. }
  assert (E3 : poke mem e NUL = mem).
  { unfold mem, e. rewrite poke_at; [reflexivity|now rewrite length_app]. }
  assert (E4 : skip_ws mem (S e) = S e).
  { rewrite (@skip_ws_at mem (w0 ++ m ++ [NUL]) [] tail (S e)).
    - cbn [List.length]. lia.
    - rewrite Emem. norm_app. reflexivity.
    - unfold e. norm_len.
    - reflexivity.
    - now apply nul_not_white_space. }
  assert (E5 : string_at mem (S e) = []).
  { unfold string_at.
    replace (skipn (S e) mem) with tail; [now apply cstr_nul_first|].
    rewrite Emem.
    replace (w0 ++ m ++ NUL :: tail) with ((w0 ++ m ++ [NUL]) ++ tail)
      by (norm_app; reflexivity).
    replace (S e) with (List.length (w0 ++ m ++ [NUL]))
      by (unfold e; norm_len).
    now rewrite skipn_exact. }
  assert (E6 : string_at mem (List.length w0) = m).
  { rewrite Emem.
    apply (@string_at_at _ w0 m tail); try reflexivity; assumption. }
  unfold scan_request_line. fold mem. cbv zeta.
  rewrite E1, E2, E3, E4, E5, E6. reflexivity.
Qed.

(** X18: a request line of a single token, read when the byte that
    follows the copy of the line in the region is NUL: the method is
    the token, the uri is the empty string rather than null, and the
    protocol field is left as it was.  The parse therefore succeeds
    exactly when a protocol is still there from an earlier request. *)
Theorem request_line_single_token :
  forall region_tail p w0 m block,
    forallb white_space w0 = true ->
    is_token m = true ->
    is_nul (first_char region_tail) = true ->
    plain_line (w0 ++ m) = true ->
    let r := parse_request_and_headers region_tail p
               ((w0 ++ m) ++ crlf ++ block) in
    method (fst r) = Some m /\ uri (fst r) = Some []
    /\ protocol (fst r) = protocol p
    /\ snd r = match protocol p with
               | Some _ => true
               | None => false
               end.
Proof.
  intros tail p w0 m block Hw0 Hm Ht Hline r.
  subst r. unfold parse_request_and_headers.
  rewrite (memmem_line _ block Hline).
  unfold stla_pool_strndup.
  rewrite firstn_app, firstn_all, Nat.sub_diag. cbn [firstn].
  rewrite app_nil_r, (cstr_plain _ (plain_line_no_nul _ Hline)).
  rewrite (@scan_request_line_one_token tail _ w0 m); try assumption.
  cbn. destruct (protocol p); repeat split.
Qed.

Lemma request_line_single_token_witness :
  let r := parse_request_and_headers [NUL; "x"%char] zero_block
             (([] ++ s2b "????") ++ crlf ++ crlf) in
  method (fst r) = Some (s2b "????") /\ uri (fst r) = Some []
  /\ protocol (fst r) = protocol zero_block
  /\ snd r = match protocol zero_block with
             | Some _ => true
             | None => false
             end.
Proof.
  apply (@request_line_single_token [NUL; "x"%char] zero_block []
           (s2b "????") crlf);
    reflexivity.
Defined.
